(** * ytMain error-resolution core: a shallow embedding and its properties

    Sources embedded here:
    - [src/error-resolution/core/ExecutionOrchestrator.ts]
      (classes [ExecutionOrchestrator] and [ValidationEngine]);
    - from the stand-alone resolution scripts: the diagnostic parsers
      [parseTypeScriptErrors], [parseErrors] and [parseAndCategorizeErrors]
      with their tables, the error counts and the extractors of
      [FreshErrorResolutionSystem], the script runner with its backups of
      [RealTypeScriptErrorResolutionSystem], and the backup of
      [AdvancedFinalTypeScriptErrorFixer].

    Conventions.  JavaScript numbers that hold counts, priorities and line
    numbers are integers of [Z], and where the source computes on doubles
    the rounding is written out ([JS.roundDouble]); a string is a [string] whose characters
    stand for code units below 256 (message constants with other characters
    are kept as their bytes and never inspected); [async] methods are run to
    completion one after the other (the source awaits every call), so they
    become state-passing functions that either return or throw. *)

From Stdlib Require Import ZArith String Ascii List Bool Lia Sorted.
From Stdlib Require Import DecimalString DecimalZ DecimalN DecimalPos.
From stdpp Require Import base option list strings gmap.

Local Open Scope string_scope.
Local Open Scope list_scope.
Local Open Scope Z_scope.

(** ** JavaScript string and number primitives used by the sources *)

Module JS.

(** Template-literal conversion of an integer, [`${n}`]: its decimal
    digits.  This is what the source prints for a number below 10^21;
    from there on a template literal switches to exponent form, which no
    count, line or column of the sources reaches. *)
Definition toString (z : Z) : string := NilEmpty.string_of_int (Z.to_int z).

(** The double nearest to the integer [z >= 0], ties to the even
    mantissa: [z] itself below 2^53, else [z] cut to its 53 leading bits
    and rounded.  (From 2^1024 on the double is [Infinity], which [Z]
    does not hold.) *)
Definition roundDouble (z : Z) : Z :=
  if z <? 2 ^ 53 then z
  else
    let shift := Z.log2 z - 52 in
    let q := Z.shiftr z shift in
    let r := z mod 2 ^ shift in
    let half := 2 ^ (shift - 1) in
    let q' := if (half <? r) || ((r =? half) && Z.odd q) then q + 1 else q in
    Z.shiftl q' shift.

(** [Math.floor(n * c)] for an integer [n >= 0] and the double
    [c = mantissa / 2^53] with [2^52 <= mantissa < 2^53]: the product is
    rounded to the nearest double before the floor is taken. *)
Definition floorTimes (n mantissa : Z) : Z :=
  roundDouble (n * mantissa) / 2 ^ 53.

(** The literals [0.8], [0.6] and [0.7] as doubles: their mantissas over
    2^53. *)
Definition mantissa_0_8 : Z := 7205759403792794.
Definition mantissa_0_6 : Z := 5404319552844595.
Definition mantissa_0_7 : Z := 6305039478318694.

(** Code units matched by [\d]. *)
Definition isDigit (c : ascii) : bool :=
  let n := nat_of_ascii c in ((48 <=? n) && (n <=? 57))%nat.

(** Code units matched by [\s] and removed by [trim] (below 256: TAB, LF,
    VT, FF, CR, SPACE and NBSP). *)
Definition isSpace (c : ascii) : bool :=
  let n := nat_of_ascii c in
  (((9 <=? n) && (n <=? 13)) || (n =? 32) || (n =? 160))%nat.

(** Code units matched by [.]: everything but the line terminators. *)
Definition isDot (c : ascii) : bool :=
  let n := nat_of_ascii c in negb ((n =? 10) || (n =? 13))%nat.

Fixpoint allChars (p : ascii -> bool) (s : string) : bool :=
  match s with
  | EmptyString => true
  | String c s' => p c && allChars p s'
  end.

Definition isEmpty (s : string) : bool :=
  match s with EmptyString => true | _ => false end.

(** [s.startsWith(p)]. *)
Fixpoint startsWith (p s : string) : bool :=
  match p, s with
  | EmptyString, _ => true
  | String a p', String b s' => Ascii.eqb a b && startsWith p' s'
  | String _ _, EmptyString => false
  end.

(** [s.includes(needle)]. *)
Fixpoint includes (needle s : string) : bool :=
  startsWith needle s ||
  match s with
  | EmptyString => false
  | String _ s' => includes needle s'
  end.

(** [s.split('\n')]: never empty, the pieces hold no line feed. *)
Fixpoint splitLines (s : string) : list string :=
  match s with
  | EmptyString => [EmptyString]
  | String c s' =>
      if Ascii.eqb c "010"%char then EmptyString :: splitLines s'
      else match splitLines s' with
           | l :: ls => String c l :: ls
           | [] => [String c EmptyString]
           end
  end.

(** [lines.join('\n')]. *)
Fixpoint joinLines (ls : list string) : string :=
  match ls with
  | [] => EmptyString
  | [l] => l
  | l :: ls' => l +:+ String "010"%char (joinLines ls')
  end.

Fixpoint trimStart (s : string) : string :=
  match s with
  | String c s' => if isSpace c then trimStart s' else s
  | EmptyString => EmptyString
  end.

Fixpoint trimEnd (s : string) : string :=
  match s with
  | String c s' =>
      let t := trimEnd s' in
      if isEmpty t && isSpace c then EmptyString else String c t
  | EmptyString => EmptyString
  end.

(** [s.trim()]. *)
Definition trim (s : string) : string := trimEnd (trimStart s).

(** Longest prefix of code units satisfying [p], and the rest: what a
    greedy [\d+], [\s*] or [\s+] consumes when the next pattern item cannot
    start with a code unit of the class. *)
Fixpoint span (p : ascii -> bool) (s : string) : string * string :=
  match s with
  | String c s' =>
      if p c then let (a, b) := span p s' in (String c a, b)
      else (EmptyString, s)
  | EmptyString => (EmptyString, EmptyString)
  end.

(** The first code unit of [s], if any, is outside the class [p]. *)
Definition stopsAt (p : ascii -> bool) (s : string) : Prop :=
  match s with
  | String c _ => p c = false
  | EmptyString => True
  end.

(** [parseInt(s)] on a capture of [\d+]: the double nearest to the decimal
    value; [None] is NaN. *)
Definition parseInt (s : string) : option Z :=
  if isEmpty s then None
  else roundDouble <$> (Z.of_N <$> (N.of_uint <$> NilEmpty.uint_of_string s)).

(** [path.basename(p)] of Node's POSIX flavour: the last segment of [p]
    that is not empty, trailing separators dropped.  [basenameGo s] is
    [None] when [s] has no such segment, else the segment and whether it
    starts at the first code unit of [s]. *)
Fixpoint basenameGo (s : string) : option (string * bool) :=
  match s with
  | EmptyString => None
  | String c s' =>
      if Ascii.eqb c "/"%char then
        match basenameGo s' with
        | Some (b, _) => Some (b, false)
        | None => None
        end
      else
        match basenameGo s' with
        | Some (b, true) => Some (String c b, true)
        | Some (b, false) => Some (b, false)
        | None => Some (String c EmptyString, true)
        end
  end.
Definition basename (p : string) : string :=
  match basenameGo p with Some (b, _) => b | None => EmptyString end.

(** [Math.round(t / 1000)] for an integer [t]. *)
Definition roundDiv1000 (t : Z) : Z := (t + 500) / 1000.

End JS.


(** ** The machine the classes run on *)

Module Runtime.

(** The part of the outside world the engine reads and writes.  [files]
    maps a path, relative to [process.cwd()] and in normal form (as the
    compiler prints it), to the content of the regular file stored there.
    [backupDir] is the directory [this.backupPath]: [None] while it does
    not exist, else its entries by name.  [now] is [Date.now()]. *)
Record World := {
  files : gmap string string;
  backupDir : option (gmap string string);
  now : Z
}.

(** What a synchronous child process hands back: its output, or the error
    object [execSync] throws (a missing property is the empty string). *)
Inductive ExecOutcome :=
| ExecOk (output : string)
| ExecError (stdout stderr emessage : string).

(** Console lines that announce a call to code outside the engine. *)
Inductive LogLine :=
| LogAttempt (phaseName : string) (attempt total : Z)
    (* `Executing ${phase.name} (Attempt ${attempt}/${phase.retries + 1})` *)
| LogRollback
    (* 'Performing rollback...' *)
| LogRunning (checkName : string).
    (* `Running ${check.name}...` *)

#[global] Instance LogLine_eq_dec : EqDecision LogLine.
Proof. solve_decision. Defined.

(** A call either returns or throws [new Error(msg)]. *)
Inductive Res (A : Type) :=
| Ok (a : A)
| Throw (msg : string).
Arguments Ok {A} a.
Arguments Throw {A} msg.

(** The two values without properties. *)
Inductive Nullish := Undefined | Null.

(** How an awaited promise ends.  [Rejected msg] is a rejection with an
    error whose [message] is [msg]; [RejectedWith v] is a rejection with
    [undefined] or [null]; [Pending] is a promise that never settles. *)
Inductive Settled (A : Type) :=
| Resolved (a : A)
| Rejected (msg : string)
| RejectedWith (v : Nullish)
| Pending.
Arguments Resolved {A} a.
Arguments Rejected {A} msg.
Arguments RejectedWith {A} v.
Arguments Pending {A}.

(** What a [catch] clause receives from an awaited call. *)
Inductive Caught :=
| Error (msg : string)
| NotAnError (v : Nullish).

(** State-and-exception monad over a state [S]. *)
Definition M (S A : Type) : Type := S -> Res A * S.

Definition ret {S A} (a : A) : M S A := fun s => (Ok a, s).
Definition throw {S A} (msg : string) : M S A := fun s => (Throw msg, s).
Definition bind {S A B} (m : M S A) (k : A -> M S B) : M S B :=
  fun s => match m s with
           | (Ok a, s') => k a s'
           | (Throw e, s') => (Throw e, s')
           end.
(** [try { body } catch (error) { handler(error.message) }]. *)
Definition tryCatch {S A} (body : M S A) (handler : string -> M S A) : M S A :=
  fun s => match body s with
           | (Ok a, s') => (Ok a, s')
           | (Throw e, s') => handler e s'
           end.
#[global] Instance M_ret {S} : MRet (M S) := fun A => @ret S A.
#[global] Instance M_bind {S} : MBind (M S) := fun A B k m => bind m k.

Definition get {S} : M S S := fun s => (Ok s, s).
Definition modify {S} (f : S -> S) : M S unit := fun s => (Ok tt, f s).

(** [error.message] in a [catch] clause: reading a property off
    [undefined] or [null] throws a TypeError (the wording is V8's). *)
Definition typeErrorOf (v : Nullish) : string :=
  "Cannot read properties of "
  +:+ match v with Undefined => "undefined" | Null => "null" end
  +:+ " (reading 'message')".
Definition messageOf {S} (error : Caught) : M S string :=
  match error with
  | Error msg => ret msg
  | NotAnError v => throw (typeErrorOf v)
  end.

(** [||] on strings: the first one that is not empty. *)
Definition orElse (a b : string) : string := if JS.isEmpty a then b else a.

End Runtime.

(** Unfolds the monad down to state-passing terms. *)
Ltac unfold_monad :=
  unfold mbind, mret, Runtime.M_bind, Runtime.M_ret, Runtime.bind, Runtime.ret,
    Runtime.tryCatch, Runtime.throw, Runtime.get, Runtime.modify in *.


(** ** [./ErrorAnalyzer]: the records the orchestrator consumes *)

Module ErrorAnalyzer.

(** Modelled from the spec: the enumeration [ErrorRootCause] is imported
    from [./ErrorAnalyzer], which is not among the sources; the spec lists
    its variants as Syntax, Import, Type, Unused and Other. *)
Inductive ErrorRootCause := SYNTAX | IMPORT | TYPE | UNUSED | OTHER.

#[global] Instance ErrorRootCause_eq_dec : EqDecision ErrorRootCause.
Proof. solve_decision. Defined.

Definition rootCauseIndex (c : ErrorRootCause) : nat :=
  match c with SYNTAX => 0 | IMPORT => 1 | TYPE => 2 | UNUSED => 3 | OTHER => 4 end%nat.
Definition rootCauseOfIndex (n : nat) : ErrorRootCause :=
  match n with
  | 0 => SYNTAX | 1 => IMPORT | 2 => TYPE | 3 => UNUSED | _ => OTHER
  end%nat.

#[global] Instance ErrorRootCause_countable : Countable ErrorRootCause.
Proof.
  refine (inj_countable' rootCauseIndex rootCauseOfIndex _).
  intros c. destruct c; reflexivity.
Defined.

(** Modelled from the spec: [AnalyzedError] is a diagnostic (file, line,
    column, code, message) with a category (root cause and severity) and a
    priority.  The orchestrator reads [file] and [category.rootCause]. *)
Record ErrorCategory := {
  rootCause : ErrorRootCause;
  severity : string
}.

Record AnalyzedError := {
  file : string;
  line : Z;
  column : Z;
  code : string;
  message : string;
  category : ErrorCategory;
  priority : Z
}.

End ErrorAnalyzer.

(** ** [ExecutionOrchestrator] *)

Module Orchestrator.
Import Runtime ErrorAnalyzer.

(** [details?: any]: the two shapes the class builds. *)
Inductive Details :=
| BackupDetails (backupPath : string) (fileCount : Z)
| OrchestrationDetails (phases : Z) (backupPath : option string).

Record ExecutionResult := {
  success : bool;
  message : string;
  errorCount : option Z;
  fixedCount : option Z;
  executionTime : option Z;
  details : option Details
}.

(** A result literal that sets [success] and [message] only. *)
Definition plainResult (ok : bool) (msg : string) : ExecutionResult :=
  {| success := ok; message := msg; errorCount := None; fixedCount := None;
     executionTime := None; details := None |}.

(** [executeFunction: () => Promise<ExecutionResult>]: a closure that acts
    on the world and settles, or never does. *)
Definition Fixer : Type := World -> Settled ExecutionResult * World.

Record ExecutionPhase := {
  name : string;
  priority : Z;
  timeout : Z;
  retries : Z;
  executeFunction : Fixer
}.

(** The object [this.config] as it is stored.  The interface declares
    numbers and booleans, but the constructor's argument is a [Partial],
    in which a key may be present with the value [undefined]; the spread
    copies that over the default, so a stored field may hold [undefined]:
    [None]. *)
Module Stored.
Record OrchestrationConfig := {
  timeoutSeconds : option Z;
  maxRetries : option Z;
  backupEnabled : option bool;
  validationEnabled : option bool;
  rollbackOnFailure : option bool;
  continueOnValidationFailure : option bool;
  dryRun : option bool
}.
End Stored.

(** How the methods read a flag: in [if (flag)], [!flag] and [a && b],
    where [undefined] counts as false.  No method reads [timeoutSeconds]
    or [maxRetries]. *)
Definition truthy (v : option bool) : bool := default false v.
Definition backupEnabled (c : Stored.OrchestrationConfig) : bool :=
  truthy (Stored.backupEnabled c).
Definition validationEnabled (c : Stored.OrchestrationConfig) : bool :=
  truthy (Stored.validationEnabled c).
Definition rollbackOnFailure (c : Stored.OrchestrationConfig) : bool :=
  truthy (Stored.rollbackOnFailure c).
Definition continueOnValidationFailure (c : Stored.OrchestrationConfig) : bool :=
  truthy (Stored.continueOnValidationFailure c).
Definition dryRun (c : Stored.OrchestrationConfig) : bool :=
  truthy (Stored.dryRun c).

(** A key of an object literal: left out, or present with a value, which
    may be [undefined] ([None]). *)
Inductive Key (A : Type) :=
| LeftOut
| Present (v : option A).
Arguments LeftOut {A}.
Arguments Present {A} v.

(** [Partial<OrchestrationConfig>]. *)
Record PartialConfig := {
  timeoutSeconds' : Key Z;
  maxRetries' : Key Z;
  backupEnabled' : Key bool;
  validationEnabled' : Key bool;
  rollbackOnFailure' : Key bool;
  continueOnValidationFailure' : Key bool;
  dryRun' : Key bool
}.

Definition emptyConfig : PartialConfig :=
  {| timeoutSeconds' := LeftOut; maxRetries' := LeftOut; backupEnabled' := LeftOut;
     validationEnabled' := LeftOut; rollbackOnFailure' := LeftOut;
     continueOnValidationFailure' := LeftOut; dryRun' := LeftOut |}.

(** [{ key: dflt, ...config }] at one key: a key that is present wins,
    whatever its value. *)
Definition spread {A} (dflt : A) (key : Key A) : option A :=
  match key with
  | LeftOut => Some dflt
  | Present v => v
  end.

(** The fields of the class that no method assigns after construction. *)
Record ExecutionOrchestrator := {
  config : Stored.OrchestrationConfig;
  backupPath : string
}.

(** The constructor: the defaults, then [...config] over them.
    [this.backupPath] is built from the working directory and the clock;
    it is taken as given. *)
Definition constructor (cfg : PartialConfig) (path : string) : ExecutionOrchestrator :=
  {| config :=
       {| Stored.timeoutSeconds := spread 600 (timeoutSeconds' cfg);
          Stored.maxRetries := spread 2 (maxRetries' cfg);
          Stored.backupEnabled := spread true (backupEnabled' cfg);
          Stored.validationEnabled := spread true (validationEnabled' cfg);
          Stored.rollbackOnFailure := spread true (rollbackOnFailure' cfg);
          Stored.continueOnValidationFailure :=
            spread false (continueOnValidationFailure' cfg);
          Stored.dryRun := spread false (dryRun' cfg) |};
     backupPath := path |}.

(** No field of the stored configuration holds [undefined]. *)
Definition complete (c : Stored.OrchestrationConfig) : bool :=
  bool_decide (is_Some (Stored.timeoutSeconds c))
  && bool_decide (is_Some (Stored.maxRetries c))
  && bool_decide (is_Some (Stored.backupEnabled c))
  && bool_decide (is_Some (Stored.validationEnabled c))
  && bool_decide (is_Some (Stored.rollbackOnFailure c))
  && bool_decide (is_Some (Stored.continueOnValidationFailure c))
  && bool_decide (is_Some (Stored.dryRun c)).

(** No key of the argument is present with the value [undefined]. *)
Definition defined {A} (key : Key A) : bool :=
  match key with
  | Present None => false
  | _ => true
  end.
Definition allDefined (cfg : PartialConfig) : bool :=
  defined (timeoutSeconds' cfg) && defined (maxRetries' cfg)
  && defined (backupEnabled' cfg) && defined (validationEnabled' cfg)
  && defined (rollbackOnFailure' cfg)
  && defined (continueOnValidationFailure' cfg) && defined (dryRun' cfg).

(** What a run reads and writes: the world, [this.executionHistory] and
    the console. *)
Record RunState := {
  world : World;
  executionHistory : list ExecutionResult;
  console : list LogLine
}.

(** A freshly constructed orchestrator in world [w]. *)
Definition initialState (w : World) : RunState :=
  {| world := w; executionHistory := []; console := [] |}.

Definition Run : Type -> Type := M RunState.

Definition setWorld (w : World) : Run unit :=
  modify (fun s => {| world := w; executionHistory := executionHistory s;
                      console := console s |}).
Definition log (l : LogLine) : Run unit :=
  modify (fun s => {| world := world s; executionHistory := executionHistory s;
                      console := console s ++ [l] |}).
(** [this.executionHistory.push(result)]. *)
Definition pushHistory (r : ExecutionResult) : Run unit :=
  modify (fun s => {| world := world s;
                      executionHistory := executionHistory s ++ [r];
                      console := console s |}).
Definition dateNow : Run Z := s ← get; mret (now (world s)).

(** *** File-system calls *)

(** [fs.promises.mkdir(this.backupPath, { recursive: true })]. *)
Definition mkdirBackup : Run unit :=
  s ← get;
  let w := world s in
  setWorld {| files := files w;
              backupDir := Some (default ∅ (backupDir w));
              now := now w |}.

(** [fs.promises.copyFile(file, path.join(this.backupPath, entry))]. *)
Definition copyToBackup (file entry : string) : Run unit :=
  s ← get;
  let w := world s in
  match files w !! file, backupDir w with
  | Some content, Some dir =>
      setWorld {| files := files w;
                  backupDir := Some (<[entry := content]> dir);
                  now := now w |}
  | _, _ => throw "ENOENT: no such file or directory"
  end.

(** [fs.promises.copyFile(path.join(this.backupPath, entry),
    path.join(process.cwd(), entry))]. *)
Definition copyFromBackup (entry : string) : Run unit :=
  s ← get;
  let w := world s in
  match backupDir w ≫= (fun dir => dir !! entry) with
  | Some content =>
      setWorld {| files := <[entry := content]> (files w);
                  backupDir := backupDir w;
                  now := now w |}
  | None => throw "ENOENT: no such file or directory"
  end.

(** [fs.promises.readdir(this.backupPath)]. *)
Definition readdirBackup : Run (list string) :=
  s ← get;
  match backupDir (world s) with
  | Some dir => mret (fst <$> map_to_list dir)
  | None => throw "ENOENT: no such file or directory"
  end.

Definition fileExists (filePath : string) : Run bool :=
  s ← get; mret (bool_decide (is_Some (files (world s) !! filePath))).

Definition directoryExists : Run bool :=
  s ← get; mret (bool_decide (is_Some (backupDir (world s)))).

(** [[...new Set(xs)]]: the first occurrence of each element, in order. *)
Fixpoint uniqueFrom (seen xs : list string) : list string :=
  match xs with
  | [] => []
  | x :: xs' =>
      if bool_decide (x ∈ seen) then uniqueFrom seen xs'
      else x :: uniqueFrom (x :: seen) xs'
  end.
Definition unique (xs : list string) : list string := uniqueFrom [] xs.

(** *** Methods *)

Section Methods.
(** [child_process.execSync(command, { timeout })]. *)
Variable execSync : string -> option Z -> World -> ExecOutcome * World.
Variable this : ExecutionOrchestrator.

(** [groupErrorsByRootCause]. *)
Definition groupErrorsByRootCause (errors : list AnalyzedError)
  : gmap ErrorRootCause (list AnalyzedError) :=
  foldl (fun groups error =>
           let rc := rootCause (category error) in
           let groups :=
             if bool_decide (is_Some (groups !! rc)) then groups
             else <[rc := []]> groups in
           alter (fun g => g ++ [error]) rc groups)
        ∅ errors.

(** The three built-in fixers.  [Math.floor(n * 0.8)] and its like are
    taken on doubles, as the source does: at [n = 90] the product with
    [0.7] rounds to a double below 63, and the floor is 62. *)
Definition executeSyntaxFixes (errors : list AnalyzedError) : Fixer :=
  fun w =>
    let n := Z.of_nat (length errors) in
    if dryRun (config this) then
      (Resolved (plainResult true
         ("Dry run: Would fix " +:+ JS.toString n +:+ " syntax errors")), w)
    else
      (Resolved {| success := true;
                   message := "Processed " +:+ JS.toString n +:+ " syntax errors";
                   errorCount := None;
                   fixedCount := Some (Z.min n (JS.floorTimes n JS.mantissa_0_8));
                   executionTime := None; details := None |}, w).

Definition executeImportFixes (errors : list AnalyzedError) : Fixer :=
  fun w =>
    let n := Z.of_nat (length errors) in
    if dryRun (config this) then
      (Resolved (plainResult true
         ("Dry run: Would fix " +:+ JS.toString n +:+ " import errors")), w)
    else
      (Resolved {| success := true;
                   message := "Processed " +:+ JS.toString n +:+ " import errors";
                   errorCount := None;
                   fixedCount := Some (Z.min n (JS.floorTimes n JS.mantissa_0_6));
                   executionTime := None; details := None |}, w).

Definition executeTypeFixes (errors : list AnalyzedError) : Fixer :=
  fun w =>
    let n := Z.of_nat (length errors) in
    if dryRun (config this) then
      (Resolved (plainResult true
         ("Dry run: Would fix " +:+ JS.toString n +:+ " type errors")), w)
    else
      (Resolved {| success := true;
                   message := "Processed " +:+ JS.toString n +:+ " type errors";
                   errorCount := None;
                   fixedCount := Some (Z.min n (JS.floorTimes n JS.mantissa_0_7));
                   executionTime := None; details := None |}, w).

(** [phases.sort((a, b) => a.priority - b.priority)]: the sort is stable;
    a phase is placed behind the later phases it exceeds. *)
Fixpoint insertPhase (p : ExecutionPhase) (sorted : list ExecutionPhase)
  : list ExecutionPhase :=
  match sorted with
  | [] => [p]
  | q :: rest =>
      if 0 <? priority p - priority q then q :: insertPhase p rest
      else p :: q :: rest
  end.
Definition sortPhases (phases : list ExecutionPhase) : list ExecutionPhase :=
  foldr insertPhase [] phases.

(** [errorsByRootCause.get(rc)?.length] as a condition. *)
Definition hasErrors (groups : gmap ErrorRootCause (list AnalyzedError))
           (rc : ErrorRootCause) : bool :=
  match groups !! rc with
  | Some g => negb (Z.of_nat (length g) =? 0)
  | None => false
  end.
(** [errorsByRootCause.get(rc)!]. *)
Definition groupOf (groups : gmap ErrorRootCause (list AnalyzedError))
           (rc : ErrorRootCause) : list AnalyzedError :=
  default [] (groups !! rc).

(** [createExecutionPhases]. *)
Definition createExecutionPhases (errors : list AnalyzedError)
  : list ExecutionPhase :=
  let errorsByRootCause := groupErrorsByRootCause errors in
  let phases := [] in
  let phases :=
    if hasErrors errorsByRootCause SYNTAX then
      phases ++ [{| name := "Syntax Fixes"; priority := 1; timeout := 300;
                    retries := 2;
                    executeFunction :=
                      executeSyntaxFixes (groupOf errorsByRootCause SYNTAX) |}]
    else phases in
  let phases :=
    if hasErrors errorsByRootCause IMPORT then
      phases ++ [{| name := "Import Fixes"; priority := 2; timeout := 180;
                    retries := 1;
                    executeFunction :=
                      executeImportFixes (groupOf errorsByRootCause IMPORT) |}]
    else phases in
  let phases :=
    if hasErrors errorsByRootCause TYPE then
      phases ++ [{| name := "Type Fixes"; priority := 3; timeout := 240;
                    retries := 1;
                    executeFunction :=
                      executeTypeFixes (groupOf errorsByRootCause TYPE) |}]
    else phases in
  sortPhases phases.

(** [await this.executeWithTimeout(...)] inside a [try]: the call is
    raced against a timer, and a promise still pending at the deadline
    loses to the timer's rejection.  The result is what the [try] block
    goes on with ([inl]) or what the [catch] clause receives ([inr]). *)
Definition executeWithTimeout (fn : Fixer) (timeoutMs : Z)
  : Run (ExecutionResult + Caught) :=
  s ← get;
  let (outcome, w) := fn (world s) in
  setWorld w;;
  mret (match outcome with
        | Resolved r => inl r
        | Rejected msg => inr (Error msg)
        | RejectedWith v => inr (NotAnError v)
        | Pending =>
            inr (Error ("Operation timed out after " +:+ JS.toString timeoutMs
                        +:+ "ms"))
        end).

(** One turn of the loop of [executePhaseWithRetry]: [Some r] is
    [return r], [None] falls through to the next turn.  On the last turn
    the [catch] clause reads [error.message], which throws when the fixer
    rejected with [undefined] or [null]; nothing catches that inside the
    method. *)
Definition attemptPhase (phase : ExecutionPhase) (attempt : Z)
  : Run (option ExecutionResult) :=
  log (LogAttempt (name phase) attempt (retries phase + 1));;
  awaited ← executeWithTimeout (executeFunction phase) (timeout phase);
  match awaited with
  | inl result =>
      if success result then mret (Some result)
      else if attempt =? retries phase + 1 then mret (Some result)
      else mret None
  | inr error =>
      if attempt =? retries phase + 1 then
        msg ← messageOf error;
        mret (Some (plainResult false (name phase +:+ " failed: " +:+ msg)))
      else mret None
  end.

(** [for (let attempt = ...; attempt <= phase.retries + 1; attempt++)],
    with [turns] the number of turns the bound still allows. *)
Fixpoint retryLoop (phase : ExecutionPhase) (turns : nat) (attempt : Z)
  : Run ExecutionResult :=
  match turns with
  | O => mret (plainResult false (name phase +:+ " exhausted all retry attempts"))
  | S turns' =>
      r ← attemptPhase phase attempt;
      match r with
      | Some result => mret result
      | None => retryLoop phase turns' (attempt + 1)
      end
  end.

(** [executePhaseWithRetry]: [attempt] runs from 1 to [retries + 1]. *)
Definition executePhaseWithRetry (phase : ExecutionPhase) : Run ExecutionResult :=
  retryLoop phase (Z.to_nat (retries phase + 1)) 1.

(** [executePhase]. *)
Definition executePhase (phaseName : string) (executeFunction : Run ExecutionResult)
  : Run ExecutionResult :=
  tryCatch executeFunction
           (fun error => throw (phaseName +:+ " failed: " +:+ error)).

(** The loop of [createBackup] over the files, counting the copies. *)
Fixpoint backupFiles (files : list string) (backedUpCount : Z) : Run Z :=
  match files with
  | [] => mret backedUpCount
  | file :: rest =>
      b ← fileExists file;
      if (b : bool) then
        copyToBackup file (JS.basename file);;
        backupFiles rest (backedUpCount + 1)
      else backupFiles rest backedUpCount
  end.

(** [createBackup]. *)
Definition createBackup (errors : list AnalyzedError) : Run ExecutionResult :=
  let files := unique (file <$> errors) in
  if dryRun (config this) then
    mret (plainResult true
            ("Dry run: Would backup " +:+ JS.toString (Z.of_nat (length files))
             +:+ " files"))
  else
    tryCatch
      (mkdirBackup;;
       backedUpCount ← backupFiles files 0;
       mret {| success := true;
               message := "Backed up " +:+ JS.toString backedUpCount
                          +:+ " files to " +:+ backupPath this;
               errorCount := None; fixedCount := None; executionTime := None;
               details := Some (BackupDetails (backupPath this) backedUpCount) |})
      (fun error => throw ("Backup creation failed: " +:+ error)).

(** [performFinalValidation]. *)
Definition performFinalValidation : Run ExecutionResult :=
  s ← get;
  let (outcome, w) := execSync "npx tsc --noEmit --skipLibCheck" None (world s) in
  setWorld w;;
  match outcome with
  | ExecOk _ =>
      mret {| success := true;
              message := "TypeScript compilation successful - no errors found";
              errorCount := Some 0; fixedCount := None; executionTime := None;
              details := None |}
  | ExecError stdout stderr _ =>
      let errorOutput := orElse stdout (orElse stderr "") in
      let errorLines :=
        List.filter (JS.includes " - error TS") (JS.splitLines errorOutput) in
      let n := Z.of_nat (length errorLines) in
      mret {| success := n =? 0;
              message := "Validation found " +:+ JS.toString n
                         +:+ " remaining errors";
              errorCount := Some n; fixedCount := None; executionTime := None;
              details := None |}
  end.

(** The loop of [performRollback] over the entries of the backup. *)
Fixpoint restoreFiles (entries : list string) : Run unit :=
  match entries with
  | [] => mret tt
  | backupFile :: rest =>
      b ← fileExists backupFile;
      (if (b : bool) then copyFromBackup backupFile else mret tt);;
      restoreFiles rest
  end.

(** [performRollback]. *)
Definition performRollback : Run unit :=
  log LogRollback;;
  tryCatch
    (b ← directoryExists;
     if (b : bool) then
       entries ← readdirBackup;
       restoreFiles entries
     else mret tt)
    (fun _ => mret tt).

(** The loop of [executeOrchestration] over the phases. *)
Fixpoint runPhases (phases : list ExecutionPhase) : Run unit :=
  match phases with
  | [] => mret tt
  | phase :: rest =>
      result ← executePhaseWithRetry phase;
      pushHistory result;;
      if negb (success result) && negb (continueOnValidationFailure (config this))
      then throw ("Phase " +:+ name phase +:+ " failed: " +:+ message result)
      else runPhases rest
  end.

(** [this.executionHistory.reduce((sum, r) => sum + (r.fixedCount || 0), 0)]. *)
Definition totalFixedOf (history : list ExecutionResult) : Z :=
  foldl (fun sum result => sum + default 0 (fixedCount result)) 0 history.

(** [executeOrchestration], with the method that plans the phases as a
    parameter: [ExecutionPhase.executeFunction] may be any closure, and
    the loop treats every phase alike. *)
Definition executeOrchestrationWith
           (plan : list AnalyzedError -> list ExecutionPhase)
           (errors : list AnalyzedError) : Run ExecutionResult :=
  startTime ← dateNow;
  tryCatch
    ((if backupEnabled (config this) then
        executePhase "Backup Creation" (createBackup errors);; mret tt
      else mret tt);;
     let phases := plan errors in
     runPhases phases;;
     (if validationEnabled (config this) then
        executePhase "Final Validation" performFinalValidation;; mret tt
      else mret tt);;
     endTime ← dateNow;
     let executionTime := endTime - startTime in
     s ← get;
     let totalFixed := totalFixedOf (executionHistory s) in
     mret {| success := true;
             message := "Orchestration completed successfully. Fixed "
                        +:+ JS.toString totalFixed +:+ " errors in "
                        +:+ JS.toString (JS.roundDiv1000 executionTime) +:+ "s";
             errorCount := None;
             fixedCount := Some totalFixed;
             executionTime := Some executionTime;
             details :=
               Some (OrchestrationDetails
                       (Z.of_nat (length (executionHistory s)))
                       (if backupEnabled (config this)
                        then Some (backupPath this) else None)) |})
    (fun error =>
       (if rollbackOnFailure (config this) && backupEnabled (config this)
        then performRollback else mret tt);;
       endTime ← dateNow;
       mret {| success := false;
               message := "Orchestration failed: " +:+ error;
               errorCount := None; fixedCount := None;
               executionTime := Some (endTime - startTime);
               details := None |}).

(** [executeOrchestration] as the class has it. *)
Definition executeOrchestration (errors : list AnalyzedError) : Run ExecutionResult :=
  executeOrchestrationWith createExecutionPhases errors.

End Methods.

(** The errors of [errors] whose root cause is [rc], in their order. *)
Definition errorsOf (rc : ErrorRootCause) (errors : list AnalyzedError)
  : list AnalyzedError :=
  List.filter (fun e => bool_decide (rootCause (category e) = rc)) errors.

(** Whether [errors] holds an error of root cause [rc]. *)
Definition hasCause (rc : ErrorRootCause) (errors : list AnalyzedError) : bool :=
  existsb (fun e => bool_decide (rootCause (category e) = rc)) errors.

(** The root causes present in [errors], by ascending priority. *)
Definition presentCauses (errors : list AnalyzedError) : list ErrorRootCause :=
  List.filter (fun rc => hasCause rc errors) [SYNTAX; IMPORT; TYPE; UNUSED; OTHER].

(** The root causes the orchestrator has a phase for that are present in
    [errors]. *)
Definition plannedCauses (errors : list AnalyzedError) : list ErrorRootCause :=
  List.filter (fun rc => hasCause rc errors) [SYNTAX; IMPORT; TYPE].

(** The phase [createExecutionPhases] builds for a root cause it plans. *)
Definition phaseFor (this : ExecutionOrchestrator) (rc : ErrorRootCause)
           (group : list AnalyzedError) : ExecutionPhase :=
  match rc with
  | SYNTAX => {| name := "Syntax Fixes"; priority := 1; timeout := 300;
                 retries := 2; executeFunction := executeSyntaxFixes this group |}
  | IMPORT => {| name := "Import Fixes"; priority := 2; timeout := 180;
                 retries := 1; executeFunction := executeImportFixes this group |}
  | _ => {| name := "Type Fixes"; priority := 3; timeout := 240;
            retries := 1; executeFunction := executeTypeFixes this group |}
  end.

(** The backup directory [dir] after the files of [paths] that exist in
    [fs] were copied into it under their base names, in order. *)
Definition snapshot (fs dir : gmap string string) (paths : list string)
  : gmap string string :=
  foldl (fun d p => match fs !! p with
                    | Some content => <[JS.basename p := content]> d
                    | None => d
                    end) dir paths.

(** The world once [createBackup] has run for [errors]. *)
Definition backedUp (this : ExecutionOrchestrator) (errors : list AnalyzedError)
           (w : World) : World :=
  if dryRun (config this) then w
  else {| files := files w;
          backupDir := Some (snapshot (files w) (default ∅ (backupDir w))
                                      (unique (file <$> errors)));
          now := now w |}.

(** The files [fs] after every file that has an entry of its own path in
    [dir] took the content of that entry. *)
Definition restored (fs dir : gmap string string) : gmap string string :=
  map_imap (fun p content => Some (default content (dir !! p))) fs.

(** The world once [performRollback] has run. *)
Definition rolledBackWorld (w : World) : World :=
  match backupDir w with
  | Some dir => {| files := restored (files w) dir; backupDir := Some dir;
                   now := now w |}
  | None => w
  end.

(** The state in which the loop over the phases starts. *)
Definition afterBackup (this : ExecutionOrchestrator) (errors : list AnalyzedError)
           (s : RunState) : RunState :=
  if backupEnabled (config this) then
    {| world := backedUp this errors (world s);
       executionHistory := executionHistory s; console := console s |}
  else s.

(** The state once the final validation, if enabled, has run. *)
Definition afterValidation
           (execSync : string -> option Z -> World -> ExecOutcome * World)
           (this : ExecutionOrchestrator) (s : RunState) : RunState :=
  if validationEnabled (config this) then
    {| world := snd (execSync "npx tsc --noEmit --skipLibCheck" None (world s));
       executionHistory := executionHistory s; console := console s |}
  else s.

(** The result a fixer settles with in world [w]; a fixer that throws or
    hangs has none, and the failure the retry loop reports stands in (for
    a rejection with [undefined] or [null] the loop reports nothing: it
    throws the TypeError whose message stands here). *)
Definition resultIn (phase : ExecutionPhase) (w : World) : ExecutionResult :=
  match fst (executeFunction phase w) with
  | Resolved r => r
  | Rejected msg => plainResult false (name phase +:+ " failed: " +:+ msg)
  | RejectedWith v =>
      plainResult false (name phase +:+ " failed: " +:+ typeErrorOf v)
  | Pending =>
      plainResult false
        (name phase +:+ " failed: Operation timed out after "
         +:+ JS.toString (timeout phase) +:+ "ms")
  end.

(** A fixer that succeeds at once and leaves the world alone, as the three
    built-in ones do. *)
Definition succeedsInPlace (phase : ExecutionPhase) : Prop :=
  ∀ w, ∃ r, executeFunction phase w = (Resolved r, w) ∧ success r = true.

(** What the built-in fixer of [rc] reports for [n] errors in a dry run. *)
Definition dryRunResult (rc : ErrorRootCause) (n : nat) : ExecutionResult :=
  plainResult true
    ("Dry run: Would fix " +:+ JS.toString (Z.of_nat n)
     +:+ match rc with
         | SYNTAX => " syntax errors"
         | IMPORT => " import errors"
         | _ => " type errors"
         end).

(** A call of a fixer that does not succeed and leaves the loop a failure
    to report: it resolves to a result with [success] false, it rejects
    with an error, or it runs into the deadline.  (A rejection with
    [undefined] or [null] leaves none: see [attemptPhase].) *)
Definition fails (outcome : Settled ExecutionResult) : bool :=
  match outcome with
  | Resolved r => negb (success r)
  | Rejected _ | Pending => true
  | RejectedWith _ => false
  end.

(** The console lines of [n] attempts at [phase] in a row, numbered from
    [first]. *)
Fixpoint attemptLines (phase : ExecutionPhase) (n : nat) (first : Z)
  : list LogLine :=
  match n with
  | O => []
  | S n' =>
      LogAttempt (name phase) first (retries phase + 1)
      :: attemptLines phase n' (first + 1)
  end.

(** The world after [content] was written to [path]. *)
Definition writeFile (path content : string) (w : World) : World :=
  {| files := <[path := content]> (files w);
     backupDir := backupDir w; now := now w |}.

(** The terminal states of the spec, read off a finished run: the class
    keeps no state variable, it returns [success] and, on the failure
    path, may have run [performRollback]. *)
Inductive TerminalState := Completed | RolledBack | Failed.

Definition rolledBack (s : RunState) : bool :=
  bool_decide (LogRollback ∈ console s).

Definition terminalState (r : ExecutionResult) (s : RunState) : TerminalState :=
  if success r then Completed
  else if rolledBack s then RolledBack
  else Failed.

End Orchestrator.

(** ** [ValidationEngine] *)

Module Validation.
Import Runtime.

Inductive CheckType := syntax | lint | build | test.

Record ValidationCheck := {
  name : string;
  type : CheckType;
  command : string;
  timeout : Z;
  required : bool
}.

(** [details?: any] is a payload for the reader of the report; no method
    of the class reads it back, and it is left out. *)
Record ValidationResult := {
  check : ValidationCheck;
  success : bool;
  message : string;
  executionTime : Z
}.

Record ValidationSummary := {
  overallSuccess : bool;
  totalChecks : Z;
  passedChecks : Z;
  failedChecks : Z;
  results : list ValidationResult;
  totalTime : Z;
  recommendations : list string
}.

(** A required check that failed: the condition of the [break] in
    [validate]. *)
Definition stops (r : ValidationResult) : bool :=
  negb (success r) && required (check r).

(** The initial value of [this.checks]. *)
Definition defaultChecks : list ValidationCheck :=
  [ {| name := "TypeScript Compilation"; type := syntax;
       command := "npx tsc --noEmit --skipLibCheck"; timeout := 60;
       required := true |};
    {| name := "ESLint Check"; type := lint;
       command := "npx eslint src --ext .ts,.tsx --max-warnings 0"; timeout := 30;
       required := false |};
    {| name := "Build Check"; type := build;
       command := "npm run build"; timeout := 120; required := false |} ].

Record RunState := {
  world : World;
  console : list LogLine
}.

Definition Run : Type -> Type := M RunState.

Definition setWorld (w : World) : Run unit :=
  modify (fun s => {| world := w; console := console s |}).
Definition log (l : LogLine) : Run unit :=
  modify (fun s => {| world := world s; console := console s ++ [l] |}).
Definition dateNow : Run Z := s ← get; mret (now (world s)).

(** [analyzeSyntaxErrors], the message. *)
Definition analyzeSyntaxErrors (errorOutput : string) : string :=
  let errorLines :=
    List.filter (JS.includes " - error TS") (JS.splitLines errorOutput) in
  let errorCount := Z.of_nat (length errorLines) in
  if errorCount =? 0 then "TypeScript compilation passed"
  else "TypeScript compilation failed with " +:+ JS.toString errorCount +:+ " errors".

(** [text.match(/(\d+) <word>/)] followed by [parseInt(match[1], 10)]: the
    leftmost place at which digits and then [" " + word] stand.  The digits
    are taken greedily, and giving one back cannot match the space. *)
Fixpoint extractNumber (text word : string) : option Z :=
  match text with
  | EmptyString => None
  | String c rest =>
      let (digits, after) := JS.span JS.isDigit text in
      if negb (JS.isEmpty digits) && JS.startsWith (" " +:+ word) after
      then JS.parseInt digits
      else extractNumber rest word
  end.

(** [analyzeLintErrors], the message; [problemCount || 0]. *)
Definition analyzeLintErrors (errorOutput : string) : string :=
  let problemCount := extractNumber errorOutput "problem" in
  "ESLint found " +:+ JS.toString (default 0 problemCount) +:+ " problems".

(** [analyzeBuildErrors], the message. *)
Definition analyzeBuildErrors (errorOutput : string) : string :=
  let buildFailed :=
    JS.includes "Build failed" errorOutput || JS.includes "error" errorOutput
    || JS.includes "Error:" errorOutput in
  if buildFailed then "Build failed" else "Build completed with warnings".

(** [analyzeValidationError], the message. *)
Definition analyzeValidationError (check : ValidationCheck) (errorOutput : string)
  : string :=
  match type check with
  | syntax => analyzeSyntaxErrors errorOutput
  | lint => analyzeLintErrors errorOutput
  | build => analyzeBuildErrors errorOutput
  | test => name check +:+ " failed"
  end.

(** [generateRecommendations]. *)
Definition recommendationFor (result : ValidationResult) : list string :=
  if success result then []
  else match type (check result) with
       | syntax =>
           ["🔧 Fix TypeScript syntax errors first - they prevent other tools from working properly"]
       | lint =>
           ["📝 Run ESLint with --fix flag to automatically fix common style issues"]
       | build =>
           ["🏗️ Build issues may indicate missing dependencies or configuration problems"]
       | test => []
       end.

Definition generateRecommendations (results : list ValidationResult) : list string :=
  let recommendations :=
    foldl (fun recs result => recs ++ recommendationFor result) [] results in
  if Z.of_nat (length recommendations) =? 0 then
    recommendations ++ ["✅ All validation checks passed - project is in good shape!"]
  else recommendations.

(** [this.checks.push(check)] and [removeValidationCheck]. *)
Definition addValidationCheck (checks : list ValidationCheck) (check : ValidationCheck)
  : list ValidationCheck := checks ++ [check].

Fixpoint removeValidationCheck (checks : list ValidationCheck) (n : string)
  : list ValidationCheck * bool :=
  match checks with
  | [] => ([], false)
  | c :: rest =>
      if String.eqb (name c) n then (rest, true)
      else let (rest', found) := removeValidationCheck rest n in (c :: rest', found)
  end.

Section Methods.
Variable execSync : string -> option Z -> World -> ExecOutcome * World.

(** [runValidationCheck]. *)
Definition runValidationCheck (check : ValidationCheck) : Run ValidationResult :=
  log (LogRunning (name check));;
  startTime ← dateNow;
  s ← get;
  let (outcome, w) :=
    execSync (command check) (Some (timeout check * 1000)) (world s) in
  setWorld w;;
  endTime ← dateNow;
  let executionTime := endTime - startTime in
  match outcome with
  | ExecOk output =>
      mret {| check := check; success := true;
              message := name check +:+ " passed successfully";
              executionTime := executionTime |}
  | ExecError stdout stderr emessage =>
      let errorOutput := orElse stdout (orElse stderr (orElse emessage "")) in
      mret {| check := check; success := false;
              message := analyzeValidationError check errorOutput;
              executionTime := executionTime |}
  end.

(** The loop of [validate]; returning is the [break]. *)
Fixpoint runChecks (checks : list ValidationCheck) (results : list ValidationResult)
  : Run (list ValidationResult) :=
  match checks with
  | [] => mret results
  | check :: rest =>
      result ← runValidationCheck check;
      let results := results ++ [result] in
      if negb (success result) && required check then mret results
      else runChecks rest results
  end.

(** [validate], on the current value of [this.checks]. *)
Definition validate (checks : list ValidationCheck) : Run ValidationSummary :=
  startTime ← dateNow;
  results ← runChecks checks [];
  endTime ← dateNow;
  let totalTime := endTime - startTime in
  let passedChecks := Z.of_nat (length (List.filter success results)) in
  let failedChecks := Z.of_nat (length results) - passedChecks in
  let overallSuccess :=
    forallb (fun r => success r || negb (required (check r))) results in
  mret {| overallSuccess := overallSuccess;
          totalChecks := Z.of_nat (length results);
          passedChecks := passedChecks;
          failedChecks := failedChecks;
          results := results;
          totalTime := totalTime;
          recommendations := generateRecommendations results |}.

End Methods.

End Validation.

(** ** The diagnostic parsers of the resolution scripts *)

Module Diagnostics.

(** One element of the array the parsers return.  [None] in [line] or
    [column] is NaN; [rawError] is set by [parseTypeScriptErrors] only. *)
Record ParsedError := {
  file : string;
  line : option Z;
  column : option Z;
  code : string;
  message : string;
  rawError : option string
}.

(** The captures 2 to 5 of the patterns. *)
Record Captures := {
  lineNum : string;
  col : string;
  codeText : string;
  messageText : string
}.

(** [s] without the literal [lit] in front, when it starts with it. *)
Fixpoint literal (lit s : string) : option string :=
  match lit, s with
  | EmptyString, _ => Some s
  | String a lit', String b s' =>
      if Ascii.eqb a b then literal lit' s' else None
  | String _ _, EmptyString => None
  end.

(** [(.+)$] at [s]: all of [s], which must not be empty nor hold a line
    terminator. *)
Definition restOfLine (s : string) : option string :=
  if negb (JS.isEmpty s) && JS.allChars JS.isDot s then Some s else None.

(** [\s*(.+)$] at [s]: the white space is taken greedily and given back
    one code unit at a time while the rest fails. *)
Fixpoint spacesThenRest (s : string) : option string :=
  match s with
  | String c s' =>
      if JS.isSpace c then
        match spacesThenRest s' with
        | Some m => Some m
        | None => restOfLine s
        end
      else restOfLine s
  | EmptyString => restOfLine s
  end.

(** A greedy class followed by a literal outside the class: the longest
    run, since giving back a code unit of the class cannot match the
    literal.  [atLeastOne] is [+] rather than [*]. *)
Definition run (p : ascii -> bool) (atLeastOne : bool) (s : string)
  : option (string * string) :=
  let (taken, rest) := JS.span p s in
  if atLeastOne && JS.isEmpty taken then None else Some (taken, rest).

(** [\((\d+),(\d+)\):\s*error\s+(TS\d+):\s*(.+)$] at [s]: the pattern of
    [parseTypeScriptErrors] behind its first group. *)
Definition looseTail (s : string) : option Captures :=
  s ← literal "(" s;
  '(lineNum, s) ← run JS.isDigit true s;
  s ← literal "," s;
  '(column, s) ← run JS.isDigit true s;
  s ← literal "):" s;
  '(_, s) ← run JS.isSpace false s;
  s ← literal "error" s;
  '(_, s) ← run JS.isSpace true s;
  s ← literal "TS" s;
  '(digits, s) ← run JS.isDigit true s;
  s ← literal ":" s;
  message ← spacesThenRest s;
  Some {| lineNum := lineNum; col := column; codeText := "TS" +:+ digits;
          messageText := message |}.

(** [\((\d+),(\d+)\): error (TS\d+): (.+)$] at [s]: the pattern of
    [parseErrors] behind its first group. *)
Definition strictTail (s : string) : option Captures :=
  s ← literal "(" s;
  '(lineNum, s) ← run JS.isDigit true s;
  s ← literal "," s;
  '(column, s) ← run JS.isDigit true s;
  s ← literal "): error TS" s;
  '(digits, s) ← run JS.isDigit true s;
  s ← literal ": " s;
  message ← restOfLine s;
  Some {| lineNum := lineNum; col := column; codeText := "TS" +:+ digits;
          messageText := message |}.

(** [^(.+)] followed by [tail]: the first group is greedy, so of all the
    places where it may end the last one at which [tail] matches wins.
    [pre] is what the group holds so far, [s] what is left of the line. *)
Fixpoint matchFrom (tail : string -> option Captures) (pre s : string)
  : option (string * Captures) :=
  let here :=
    if JS.isEmpty pre then None else (fun c => (pre, c)) <$> tail s in
  match s with
  | EmptyString => here
  | String c s' =>
      if JS.isDot c then
        match matchFrom tail (pre +:+ String c EmptyString) s' with
        | Some r => Some r
        | None => here
        end
      else here
  end.

(** [line.match(/^(.+).../)]. *)
Definition matchLine (tail : string -> option Captures) (line : string)
  : option (string * Captures) :=
  matchFrom tail EmptyString line.

(** The body of the loop of [parseTypeScriptErrors]: the record pushed for
    [line], if any. *)
Definition parseTypeScriptErrorLine (line : string) : option ParsedError :=
  if JS.includes ": error TS" line then
    match matchLine looseTail line with
    | Some (f, c) =>
        Some {| file := JS.trim f;
                line := JS.parseInt (lineNum c);
                column := JS.parseInt (col c);
                code := codeText c;
                message := JS.trim (messageText c);
                rawError := Some (JS.trim line) |}
    | None => None
    end
  else None.

(** The body of the loop of [parseErrors]. *)
Definition parseErrorLine (line : string) : option ParsedError :=
  if JS.includes ": error TS" line then
    match matchLine strictTail line with
    | Some (f, c) =>
        Some {| file := JS.trim f;
                line := JS.parseInt (lineNum c);
                column := JS.parseInt (col c);
                code := codeText c;
                message := JS.trim (messageText c);
                rawError := None |}
    | None => None
    end
  else None.

(** [for (const line of lines) { ... errors.push(...) }]. *)
Fixpoint pushMatches (parse : string -> option ParsedError) (lines : list string)
  : list ParsedError :=
  match lines with
  | [] => []
  | l :: rest =>
      match parse l with
      | Some e => e :: pushMatches parse rest
      | None => pushMatches parse rest
      end
  end.

(** [FreshErrorResolutionSystem.parseTypeScriptErrors]. *)
Definition parseTypeScriptErrors (output : string) : list ParsedError :=
  pushMatches parseTypeScriptErrorLine (JS.splitLines output).

(** [AdvancedFinalTypeScriptErrorFixer.parseErrors]. *)
Definition parseErrors (output : string) : list ParsedError :=
  pushMatches parseErrorLine (JS.splitLines output).

(** [RealTypeScriptErrorResolutionSystem.calculatePriority]. *)
Definition calculatePriority (code message : string) : Z :=
  if bool_decide (code ∈ ["TS1005"; "TS1003"; "TS1128"; "TS1381"; "TS1382"; "TS17002"])
  then 1
  else if bool_decide (code ∈ ["TS2307"; "TS2305"]) then 2
  else if bool_decide (code ∈ ["TS7006"; "TS2339"; "TS2722"]) then 3
  else if bool_decide (code ∈ ["TS6133"]) then 4
  else 5.

(** *** The grammar of the spec, as a printer *)

(** A diagnostic before it is printed. *)
Record Diagnostic := {
  dFile : string;
  dLine : Z;
  dColumn : Z;
  dCode : string;
  dMessage : string
}.

(** [<path>(<line>,<col>): error <CODE>: <message>]. *)
Definition formatDiagnostic (d : Diagnostic) : string :=
  dFile d +:+ "(" +:+ JS.toString (dLine d) +:+ "," +:+ JS.toString (dColumn d)
  +:+ "): error " +:+ dCode d +:+ ": " +:+ dMessage d.

(** One diagnostic per line. *)
Definition formatDiagnostics (ds : list Diagnostic) : string :=
  JS.joinLines (formatDiagnostic <$> ds).

(** The record a diagnostic should come back as. *)
Definition expected (withRaw : bool) (d : Diagnostic) : ParsedError :=
  {| file := dFile d; line := Some (dLine d); column := Some (dColumn d);
     code := dCode d; message := dMessage d;
     rawError := if withRaw then Some (formatDiagnostic d) else None |}.

(** [<CODE>] as the spec has it: a token of letters and digits. *)
Definition isAlnum (c : ascii) : bool :=
  let n := nat_of_ascii c in
  (((48 <=? n) && (n <=? 57)) || ((65 <=? n) && (n <=? 90))
   || ((97 <=? n) && (n <=? 122)))%nat.
Definition alnumToken (s : string) : bool :=
  negb (JS.isEmpty s) && JS.allChars isAlnum s.

(** [<CODE>] as the parsers have it: [TS] and digits. *)
Definition tsCode (s : string) : bool :=
  match literal "TS" s with
  | Some digits => negb (JS.isEmpty digits) && JS.allChars JS.isDigit digits
  | None => false
  end.

(** No place of [s] at which [tail] matches. *)
Fixpoint noMatchInside (tail : string -> option Captures) (s : string) : bool :=
  match tail s with
  | Some _ => false
  | None => match s with
            | EmptyString => true
            | String _ s' => noMatchInside tail s'
            end
  end.

Definition notParen (c : ascii) : bool := negb (Ascii.eqb c "("%char).

(** No white space in front nor at the end. *)
Definition trimmed (s : string) : bool :=
  String.eqb (JS.trimStart s) s && String.eqb (JS.trimEnd s) s.

(** A path or message the parsers give back as it is: not empty, on one
    line, trimmed. *)
Definition printable (s : string) : bool :=
  negb (JS.isEmpty s) && JS.allChars JS.isDot s && trimmed s.

(** A line or column number: a non-negative integer a JavaScript number
    holds exactly. *)
Definition safeIndex (z : Z) : bool := (0 <=? z) && (z <? 2 ^ 53).

(** The diagnostics both parsers give back as they are. *)
Definition wellFormed (d : Diagnostic) : bool :=
  tsCode (dCode d)
  && printable (dFile d) && printable (dMessage d)
  && noMatchInside looseTail (dMessage d)
  && noMatchInside strictTail (dMessage d)
  && safeIndex (dLine d) && safeIndex (dColumn d).

(** A line of the input text: a printed diagnostic or anything else. *)
Inductive InputLine :=
| Printed (d : Diagnostic)
| Other (text : string).

Definition render (l : InputLine) : string :=
  match l with
  | Printed d => formatDiagnostic d
  | Other text => text
  end.

Fixpoint printedOf (input : list InputLine) : list Diagnostic :=
  match input with
  | [] => []
  | Printed d :: rest => d :: printedOf rest
  | Other _ :: rest => printedOf rest
  end.

Definition noLineFeed (s : string) : bool :=
  JS.allChars (fun c => negb (Ascii.eqb c "010"%char)) s.

(** A line neither parser takes for a diagnostic. *)
Definition unmatched (text : string) : bool :=
  noLineFeed text
  && bool_decide (parseTypeScriptErrorLine text = None)
  && bool_decide (parseErrorLine text = None).

(** What the theorem asks of a line of the input. *)
Definition admissible (l : InputLine) : bool :=
  match l with
  | Printed d => wellFormed d
  | Other text => unmatched text
  end.

End Diagnostics.

(** ** Test doubles used to exercise the statements below *)

Module Fixtures.
Import Runtime ErrorAnalyzer Orchestrator.

Definition emptyWorld : World := {| files := ∅; backupDir := None; now := 0 |}.

(** A fixer that rewrites [path] and then throws. *)
Definition mutateThenThrow (path : string) : Fixer :=
  fun w => (Rejected "boom", writeFile path "new" w).

Definition failingPhase : ExecutionPhase :=
  {| name := "Syntax Fixes"; priority := 1; timeout := 300; retries := 2;
     executeFunction := mutateThenThrow "src/App.tsx" |}.

Definition errorOf (path : string) (rc : ErrorRootCause) : AnalyzedError :=
  {| file := path; line := 1; column := 1; code := "TS0000";
     ErrorAnalyzer.message := "diagnostic";
     category := {| rootCause := rc; severity := "high" |};
     ErrorAnalyzer.priority := 1 |}.

(** Errors of the categories Unused, Syntax and Type, in that order. *)
Definition unusedSyntaxType : list AnalyzedError :=
  [errorOf "a.ts" UNUSED; errorOf "b.ts" SYNTAX; errorOf "c.ts" TYPE].

(** An orchestrator with the default configuration. *)
Definition defaultOrchestrator : ExecutionOrchestrator :=
  constructor emptyConfig ".error-fix-backups/2025-01-01T00-00-00-000Z".

(** A compiler run that reports no error and writes nothing. *)
Definition compilerPasses : string -> option Z -> World -> ExecOutcome * World :=
  fun _ _ w => (ExecOk "", w).



(** A planner with one phase, which fails, and one with a phase behind it. *)
Definition planFailing (errors : list AnalyzedError) : list ExecutionPhase :=
  [failingPhase].

(** A project with one source file below [src/]. *)
Definition project : World :=
  {| files := {[ "src/App.tsx" := "old" ]}; backupDir := None; now := 0 |}.

(** The same with a file of the same base name in the working directory. *)
Definition projectWithTwin : World :=
  {| files := <[ "App.tsx" := "root" ]> {[ "src/App.tsx" := "old" ]};
     backupDir := None; now := 0 |}.


(** The default configuration but for [dryRun]. *)
Definition dryRunOrchestrator : ExecutionOrchestrator :=
  constructor
    {| timeoutSeconds' := LeftOut; maxRetries' := LeftOut; backupEnabled' := LeftOut;
       validationEnabled' := LeftOut; rollbackOnFailure' := LeftOut;
       continueOnValidationFailure' := LeftOut; dryRun' := Present (Some true) |}
    ".error-fix-backups/2025-01-01T00-00-00-000Z".

(** Two diagnostics as the compiler prints them, and one whose code is
    an alphanumeric token of another shape. *)
Definition missingProperty : Diagnostics.Diagnostic :=
  {| Diagnostics.dFile := "src/App.tsx"; Diagnostics.dLine := 12;
     Diagnostics.dColumn := 5; Diagnostics.dCode := "TS2339";
     Diagnostics.dMessage := "Property 'x' does not exist on type 'Y'." |}.
Definition unusedVariable : Diagnostics.Diagnostic :=
  {| Diagnostics.dFile := "src/utils/date.ts"; Diagnostics.dLine := 3;
     Diagnostics.dColumn := 10; Diagnostics.dCode := "TS6133";
     Diagnostics.dMessage := "'x' is declared but its value is never read." |}.
Definition lintFinding : Diagnostics.Diagnostic :=
  {| Diagnostics.dFile := "a.ts"; Diagnostics.dLine := 1;
     Diagnostics.dColumn := 1; Diagnostics.dCode := "E1";
     Diagnostics.dMessage := "m" |}.

(** A compiler output with a summary line between two diagnostics. *)
Definition compilerOutput : list Diagnostics.InputLine :=
  [Diagnostics.Printed missingProperty;
   Diagnostics.Other "Found 2 errors in 2 files.";
   Diagnostics.Printed unusedVariable].

End Fixtures.

(** ** What a failed call is reported as *)

Module Reports.
Import Runtime Orchestrator.

(** The result [executePhaseWithRetry] returns for a last call that ended
    in [outcome] without success.  (After a rejection with [undefined] or
    [null] the method returns nothing: it throws the TypeError whose
    message stands in that branch; [fails] excludes it.) *)
Definition reportOf (phase : ExecutionPhase) (outcome : Settled ExecutionResult)
  : ExecutionResult :=
  match outcome with
  | Resolved r => r
  | Rejected e => plainResult false (name phase +:+ " failed: " +:+ e)
  | RejectedWith v =>
      plainResult false (name phase +:+ " failed: " +:+ typeErrorOf v)
  | Pending =>
      plainResult false
        (name phase +:+ " failed: " +:+
         ("Operation timed out after " +:+ JS.toString (timeout phase) +:+ "ms"))
  end.

End Reports.

(** ** [ValidationEngine], the remaining methods *)

Module ValidationMore.
Import Runtime Validation.

Definition isSyntaxCheck (c : ValidationCheck) : bool :=
  match type c with syntax => true | _ => false end.

Section Methods.
Variable execSync : string -> option Z -> World -> ExecOutcome * World.

(** [quickSyntaxCheck], on the current value of [this.checks]. *)
Definition quickSyntaxCheck (checks : list ValidationCheck) : Run bool :=
  match List.find isSyntaxCheck checks with
  | None => mret true
  | Some syntaxCheck =>
      result ← runValidationCheck execSync syntaxCheck;
      mret (success result)
  end.

(** The world once the commands of [checks] have run one after the other,
    each in the world the one before it left. *)
Definition worldAfter (checks : list ValidationCheck) (w : World) : World :=
  foldl (fun w check =>
           snd (execSync (command check) (Some (timeout check * 1000)) w))
        w checks.

(** Whether the command of [check] exits normally in world [w]. *)
Definition passesIn (check : ValidationCheck) (w : World) : bool :=
  match fst (execSync (command check) (Some (timeout check * 1000)) w) with
  | ExecOk _ => true
  | ExecError _ _ _ => false
  end.

End Methods.

(** The message [generateRecommendations] falls back to. *)
Definition allPassedMessage : string :=
  "✅ All validation checks passed - project is in good shape!".

End ValidationMore.

(** ** What the parsers' records look like *)

Module Records.
Import Diagnostics.

(** A capture of [\d+]. *)
Definition digits (s : string) : bool :=
  negb (JS.isEmpty s) && JS.allChars JS.isDigit s.

(** What a match of either pattern holds in its groups 2 to 5. *)
Definition capturesOk (caps : Captures) : bool :=
  digits (lineNum caps) && digits (col caps) && tsCode (codeText caps)
  && JS.allChars JS.isDot (messageText caps).

(** A number that is not NaN and not negative. *)
Definition index (n : option Z) : bool :=
  match n with Some z => 0 <=? z | None => false end.

(** A field that is on one line and has no white space around it. *)
Definition clean (s : string) : bool :=
  JS.allChars JS.isDot s && String.eqb (JS.trim s) s.

(** The shape of a record of either parser. *)
Definition recordOk (e : ParsedError) : bool :=
  tsCode (code e) && index (line e) && index (column e)
  && clean (file e) && clean (message e).

End Records.

(** ** [FreshErrorResolutionSystem]: the two counts of a run *)

Module Fresh.
Import Runtime Diagnostics.

(** The counters of [this.report]; the methods below touch no other
    field of it. *)
Record Report := {
  initialErrors : Z;
  finalErrors : Z;
  errorsFixed : Z
}.

Record RunState := {
  world : World;
  report : Report
}.

Definition Run : Type -> Type := M RunState.

Definition setWorld (w : World) : Run unit :=
  modify (fun s => {| world := w; report := report s |}).
Definition setInitialErrors (n : Z) : Run unit :=
  modify (fun s => {| world := world s;
                      report := {| initialErrors := n;
                                   finalErrors := finalErrors (report s);
                                   errorsFixed := errorsFixed (report s) |} |}).

Section Methods.
Variable execSync : string -> option Z -> World -> ExecOutcome * World.

(** [getFreshCriticalErrors]. *)
Definition getFreshCriticalErrors : Run (list ParsedError) :=
  s ← get;
  let (outcome, w) := execSync "npx tsc --noEmit" None (world s) in
  setWorld w;;
  match outcome with
  | ExecOk _ => mret []
  | ExecError stdout stderr _ =>
      let errorOutput := orElse stdout (orElse stderr "") in
      let errors := parseTypeScriptErrors errorOutput in
      setInitialErrors (Z.of_nat (length errors));;
      mret errors
  end.

(** [getErrorCount]. *)
Definition getErrorCount : Run Z :=
  s ← get;
  let (outcome, w) := execSync "npx tsc --noEmit" None (world s) in
  setWorld w;;
  match outcome with
  | ExecOk _ => mret 0
  | ExecError stdout stderr _ =>
      let errorOutput := orElse stdout (orElse stderr "") in
      let errorLines :=
        List.filter (JS.includes ": error TS") (JS.splitLines errorOutput) in
      mret (Z.of_nat (length errorLines))
  end.

End Methods.

End Fresh.

(** ** [RealTypeScriptErrorResolutionSystem]: parsing with categories *)

Module Real.
Import Runtime.

(** The object [identifyRootCause] returns. *)
Record RootCause := {
  dependencies : list string;
  pattern : option string;
  suggestedFix : option string
}.

(** One element of the array [parseAndCategorizeErrors] returns. *)
Record CategorizedError := {
  file : string;
  line : option Z;
  column : option Z;
  code : string;
  message : string;
  rawError : string;
  category : string;
  priority : Z;
  rootCause : RootCause
}.

(** [categorizeError]. *)
Definition categorizeError (code message : string) : string :=
  if String.eqb code "TS1005" then "syntax-comma-expected"
  else if String.eqb code "TS1003" then "syntax-identifier-expected"
  else if String.eqb code "TS1128" then "declaration-statement-expected"
  else if String.eqb code "TS17002" then "jsx-closing-tag-missing"
  else if String.eqb code "TS2307" || String.eqb code "TS2305"
       then "import-resolution"
  else if String.eqb code "TS7006" then "implicit-any"
  else if String.eqb code "TS2339" then "property-missing"
  else if String.eqb code "TS6133" then "unused-variable"
  else "other".

(** [identifyRootCause]. *)
Definition identifyRootCause (code message file : string) : RootCause :=
  if JS.includes "',' expected" message && JS.includes ".tsx" file then
    {| dependencies := []; pattern := Some "jsx-destructuring-syntax";
       suggestedFix := Some "Fix array destructuring syntax in React components" |}
  else if JS.includes "Identifier expected" message && JS.includes ".tsx" file then
    {| dependencies := []; pattern := Some "react-component-type-annotation";
       suggestedFix := Some "Fix React component type annotations" |}
  else if JS.includes "',' expected" message then
    {| dependencies := []; pattern := Some "parameter-type-annotation";
       suggestedFix := Some "Fix function parameter type annotations" |}
  else {| dependencies := []; pattern := None; suggestedFix := None |}.

(** The body of the loop of [parseAndCategorizeErrors]: the pattern is
    that of [FreshErrorResolutionSystem.parseTypeScriptErrors]; the three
    classifiers get the captures as they are, before [trim]. *)
Definition categorizeLine (line : string) : option CategorizedError :=
  if JS.includes ": error TS" line then
    match Diagnostics.matchLine Diagnostics.looseTail line with
    | Some (f, c) =>
        let code := Diagnostics.codeText c in
        let message := Diagnostics.messageText c in
        Some {| file := JS.trim f;
                line := JS.parseInt (Diagnostics.lineNum c);
                column := JS.parseInt (Diagnostics.col c);
                code := code;
                message := JS.trim message;
                rawError := JS.trim line;
                category := categorizeError code message;
                priority := Diagnostics.calculatePriority code message;
                rootCause := identifyRootCause code message f |}
    | None => None
    end
  else None.

(** The array before it is sorted. *)
Definition collectErrors (output : string) : list CategorizedError :=
  omap categorizeLine (JS.splitLines output).

(** [errors.sort((a, b) => a.priority - b.priority)].  The sort of the
    runtime is stable and the comparator is a total preorder, so the
    result is the one stable arrangement by priority; it is computed here
    by insertion from the right. *)
Fixpoint insertByPriority (e : CategorizedError) (sorted : list CategorizedError)
  : list CategorizedError :=
  match sorted with
  | [] => [e]
  | x :: rest =>
      if priority x <? priority e then x :: insertByPriority e rest
      else e :: sorted
  end.
Definition sortByPriority (errors : list CategorizedError) : list CategorizedError :=
  foldr insertByPriority [] errors.

(** [parseAndCategorizeErrors]. *)
Definition parseAndCategorizeErrors (output : string) : list CategorizedError :=
  sortByPriority (collectErrors output).

(** The fields a record shares with those of the other parsers. *)
Definition toParsedError (e : CategorizedError) : Diagnostics.ParsedError :=
  {| Diagnostics.file := file e; Diagnostics.line := line e;
     Diagnostics.column := column e; Diagnostics.code := code e;
     Diagnostics.message := message e;
     Diagnostics.rawError := Some (rawError e) |}.

(** The categories of the syntax errors. *)
Definition syntaxCategories : list string :=
  ["syntax-comma-expected"; "syntax-identifier-expected";
   "declaration-statement-expected"; "jsx-closing-tag-missing"].

End Real.

(** ** The file system as the scripts see it *)

Module Disk.

(** [files] maps a path, relative to the working directory and in normal
    form, to the content of the regular file stored there; [directories]
    are the directories below the working directory that exist, by path
    (the working directory itself always exists); [backupDir] is the
    directory [this.backupDir]: [None] while it does not exist, else its
    files by name; [now] is [Date.now()]. *)
Record FileSystem := {
  files : gmap string string;
  directories : gset string;
  backupDir : option (gmap string string);
  now : Z
}.

(** The directory a path in normal form lies in: what stands before its
    last separator.  [None] is the working directory. *)
Fixpoint parentOf (path : string) : option string :=
  match path with
  | EmptyString => None
  | String c rest =>
      match parentOf rest with
      | Some d => Some (String c d)
      | None => if Ascii.eqb c "/"%char then Some EmptyString else None
      end
  end.

(** [fs.existsSync(path)]: true of a regular file and of a directory. *)
Definition existsSync (fs : FileSystem) (path : string) : bool :=
  bool_decide (is_Some (files fs !! path)) || bool_decide (path ∈ directories fs).

(** Whether [fs.copyFileSync(src, path)] can write its destination: the
    directory [path] lies in exists, and [path] is not itself a directory. *)
Definition parentExists (fs : FileSystem) (path : string) : bool :=
  match parentOf path with
  | Some d => bool_decide (d ∈ directories fs)
  | None => true
  end.
Definition writable (fs : FileSystem) (path : string) : bool :=
  negb (bool_decide (path ∈ directories fs)) && parentExists fs path.

End Disk.

(** ** [RealTypeScriptErrorResolutionSystem]: running the scripts *)

Module RealScripts.
Import Runtime.

(** What [createPatternScript] returns.  [execute] is the closure over one
    of the fixers: it may change the file system, and resolves with the
    number of errors fixed. *)
Record Script := {
  name : string;
  pattern : string;
  priority : Z;
  files : list string;
  errorHandling : string;
  execute : Disk.FileSystem -> Settled Z * Disk.FileSystem
}.

(** An element of [this.report.fixesApplied]; [timestamp] is the clock
    reading the ISO string is printed from. *)
Record FixRecord := {
  script : string;
  fixPattern : string;
  filesProcessed : Z;
  errorsFixed : Z;
  executionTime : option Z;
  error : option string;
  timestamp : Z
}.

Record RunState := {
  disk : Disk.FileSystem;
  fixesApplied : list FixRecord
}.

Definition Run : Type -> Type := M RunState.

Definition setDisk (fs : Disk.FileSystem) : Run unit :=
  modify (fun s => {| disk := fs; fixesApplied := fixesApplied s |}).
Definition pushFix (r : FixRecord) : Run unit :=
  modify (fun s => {| disk := disk s; fixesApplied := fixesApplied s ++ [r] |}).
Definition dateNow : Run Z := s ← get; mret (Disk.now (disk s)).

(** [path.basename(file) + '.backup']. *)
Definition backupName (file : string) : string := JS.basename file +:+ ".backup".

(** One round of the loop of [createBackups]: [copyFileSync] throws when
    its source is a directory and when the backup directory is missing. *)
Definition backupOne (file : string) : Run unit :=
  s ← get;
  let fs := disk s in
  if Disk.existsSync fs file then
    if bool_decide (file ∈ Disk.directories fs) then
      throw "EISDIR: illegal operation on a directory"
    else
      match Disk.files fs !! file, Disk.backupDir fs with
      | Some content, Some dir =>
          setDisk {| Disk.files := Disk.files fs;
                     Disk.directories := Disk.directories fs;
                     Disk.backupDir := Some (<[backupName file := content]> dir);
                     Disk.now := Disk.now fs |}
      | _, _ => throw "ENOENT: no such file or directory"
      end
  else mret tt.

(** [createBackups]. *)
Fixpoint createBackups (paths : list string) : Run unit :=
  match paths with
  | [] => mret tt
  | file :: rest => backupOne file;; createBackups rest
  end.

(** One round of the loop of [rollbackChanges]: [copyFileSync] throws when
    its destination is a directory and when the directory the destination
    lies in is missing. *)
Definition restoreOne (file : string) : Run unit :=
  s ← get;
  let fs := disk s in
  match Disk.backupDir fs ≫= (fun dir => dir !! backupName file) with
  | Some content =>
      if bool_decide (file ∈ Disk.directories fs) then
        throw "EISDIR: illegal operation on a directory"
      else if Disk.parentExists fs file then
        setDisk {| Disk.files := <[file := content]> (Disk.files fs);
                   Disk.directories := Disk.directories fs;
                   Disk.backupDir := Disk.backupDir fs;
                   Disk.now := Disk.now fs |}
      else throw "ENOENT: no such file or directory"
  | None => mret tt
  end.

(** [rollbackChanges]. *)
Fixpoint rollbackChanges (paths : list string) : Run unit :=
  match paths with
  | [] => mret tt
  | file :: rest => restoreOne file;; rollbackChanges rest
  end.

(** [await this.executeWithMonitoring(script)] inside the [try]: what the
    block goes on with ([inl]) or what the [catch] clause receives
    ([inr]).  A script that is still pending after 30 seconds is given
    up. *)
Definition executeWithMonitoring (script : Script) : Run (Z + Caught) :=
  s ← get;
  let (outcome, fs) := execute script (disk s) in
  setDisk fs;;
  mret (match outcome with
        | Resolved fixed => inl fixed
        | Rejected e => inr (Error e)
        | RejectedWith v => inr (NotAnError v)
        | Pending => inr (Error "Script execution timeout")
        end).

(** The [try] block of the loop of [executeWithErrorHandling]: the number
    it adds to [totalFixed], or what the [catch] clause receives. *)
Definition tryScript (script : Script) : Run (Z + Caught) :=
  tryCatch
    (createBackups (files script);;
     startTime ← dateNow;
     awaited ← executeWithMonitoring script;
     match awaited with
     | inl fixed =>
         endTime ← dateNow;
         pushFix {| script := name script; fixPattern := pattern script;
                    filesProcessed := Z.of_nat (length (files script));
                    errorsFixed := fixed;
                    executionTime := Some (endTime - startTime);
                    error := None;
                    timestamp := endTime |};;
         mret (inl fixed)
     | inr error => mret (inr error)
     end)
    (fun e => mret (inr (Error e))).

(** The body of the loop of [executeWithErrorHandling]; the result is what
    it adds to [totalFixed].  The [catch] clause first prints
    [error.message], then rolls back, then records the failure; nothing
    guards it. *)
Definition runScript (script : Script) : Run Z :=
  outcome ← tryScript script;
  match outcome with
  | inl fixed => mret fixed
  | inr error =>
      msg ← messageOf error;
      rollbackChanges (files script);;
      failedAt ← dateNow;
      pushFix {| script := name script; fixPattern := pattern script;
                 filesProcessed := Z.of_nat (length (files script));
                 errorsFixed := 0;
                 executionTime := None;
                 error := Some msg;
                 timestamp := failedAt |};;
      mret 0
  end.

(** [executeWithErrorHandling]. *)
Fixpoint runScripts (scripts : list Script) (totalFixed : Z) : Run Z :=
  match scripts with
  | [] => mret totalFixed
  | script :: rest =>
      fixed ← runScript script;
      runScripts rest (totalFixed + fixed)
  end.
Definition executeWithErrorHandling (scripts : list Script) : Run Z :=
  runScripts scripts 0.

(** The sum of the [errorsFixed] of some records. *)
Definition sumFixed (records : list FixRecord) : Z :=
  foldr (fun r acc => errorsFixed r + acc) 0 records.

(** The files [fs] after those of [paths] that have an entry in the backup
    directory [dir] took the content of that entry. *)
Definition restoredFrom (dir : gmap string string) (paths : list string)
  (fs : gmap string string) : gmap string string :=
  foldl (fun acc file =>
           match dir !! backupName file with
           | Some content => <[file := content]> acc
           | None => acc
           end) fs paths.

(** The backup directory [dir] after the files [paths] of [fs] are copied
    into it. *)
Definition backedUpInto (fs : gmap string string) (paths : list string)
  (dir : gmap string string) : gmap string string :=
  foldl (fun acc file =>
           match fs !! file with
           | Some content => <[backupName file := content]> acc
           | None => acc
           end) dir paths.

(** The file system a script starts in when the backup directory [dir]
    exists. *)
Definition afterBackups (script : Script) (dir : gmap string string)
  (fs : Disk.FileSystem) : Disk.FileSystem :=
  {| Disk.files := Disk.files fs;
     Disk.directories := Disk.directories fs;
     Disk.backupDir := Some (backedUpInto (Disk.files fs) (files script) dir);
     Disk.now := Disk.now fs |}.

(** The message of the error the [catch] clause prints, if it can. *)
Definition failureOf (outcome : Settled Z) : option string :=
  match outcome with
  | Resolved _ | RejectedWith _ => None
  | Rejected e => Some e
  | Pending => Some "Script execution timeout"
  end.

(** Every path of [paths] can be written by [copyFileSync]. *)
Definition restorable (fs : Disk.FileSystem) (paths : list string) : bool :=
  forallb (Disk.writable fs) paths.

(** The files of all of [scripts] can be written. *)
Definition allRestorable (scripts : list Script) (fs : Disk.FileSystem) : bool :=
  forallb (fun script => restorable fs (files script)) scripts.

(** A script that rejects with an error if it rejects, and under which the
    files of [scripts] stay writable. *)
Definition tame (scripts : list Script) (script : Script) : Prop :=
  ∀ fs,
    (∀ v, fst (execute script fs) ≠ RejectedWith v)
    ∧ (allRestorable scripts fs = true →
       allRestorable scripts (snd (execute script fs)) = true).

End RealScripts.

(** ** [FreshErrorResolutionSystem]: the identifiers quoted in a message *)

Module Extract.

Definition notQuote (c : ascii) : bool := negb (Ascii.eqb c "'"%char).

(** [before'([^']+)'after] at [s]: the class is taken greedily, and giving
    back one of its code units cannot match the quote behind it. *)
Definition quotedAt (before after s : string) : option string :=
  s ← Diagnostics.literal before s;
  s ← Diagnostics.literal "'" s;
  '(quoted, s) ← Diagnostics.run notQuote true s;
  s ← Diagnostics.literal "'" s;
  _ ← Diagnostics.literal after s;
  Some quoted.

(** [message.match(/before'([^']+)'after/)]: the leftmost place. *)
Fixpoint search (before after message : string) : option string :=
  match quotedAt before after message with
  | Some quoted => Some quoted
  | None =>
      match message with
      | EmptyString => None
      | String _ rest => search before after rest
      end
  end.

(** [match ? match[1] : '']. *)
Definition extract (before after message : string) : string :=
  default "" (search before after message).

Definition extractUnusedIdentifier : string -> string := extract "" " is declared but".
Definition extractParameterName : string -> string := extract "Parameter " " implicitly".
Definition extractModuleName : string -> string := extract "Cannot find module " "".
Definition extractExportMember : string -> string := extract "has no exported member " "".
Definition extractWrongExportName : string -> string :=
  extract "no exported member named " "".
Definition extractSuggestedName : string -> string := extract "Did you mean " "".
Definition extractPropertyName : string -> string := extract "Property " " does not exist".
Definition extractExpectedToken : string -> string := extract "" " expected".

End Extract.

(** ** [AdvancedFinalTypeScriptErrorFixer]: backups *)

Module Advanced.
Import Runtime.

Definition isSeparator (c : ascii) : bool :=
  Ascii.eqb c "/"%char || Ascii.eqb c "\"%char.

(** [file.replace(/[/\\]/g, '_')]. *)
Fixpoint flatten (file : string) : string :=
  match file with
  | EmptyString => EmptyString
  | String c rest =>
      String (if isSeparator c then "_"%char else c) (flatten rest)
  end.

(** [createBackup(file)]: [copyFileSync] throws when the backup directory
    is missing. *)
Definition createBackup (file : string) : M World unit :=
  w ← get;
  match files w !! file with
  | Some content =>
      match backupDir w with
      | Some dir =>
          modify (fun w => {| files := files w;
                              backupDir := Some (<[flatten file := content]> dir);
                              now := now w |})
      | None => throw "ENOENT: no such file or directory"
      end
  | None => mret tt
  end.

(** A path without separators of the other platform and without the
    character the separators are replaced by. *)
Definition plainPath (file : string) : bool :=
  JS.allChars (fun c => negb (Ascii.eqb c "_"%char || Ascii.eqb c "\"%char)) file.

End Advanced.

(** One step of a chain in the option monad that is known to succeed. *)
Tactic Notation "option_step" hyp(H) "as" simple_intropattern(v) "eqn" ident(E) :=
  match type of H with
  | mbind _ ?m = Some _ =>
      destruct m as [v|] eqn:E; [|discriminate H];
      cbn [mbind option_bind] in H
  end.

(** ** More test doubles *)

Module Samples.
Import Runtime ErrorAnalyzer Orchestrator.

(** A fixer that fails once, on a project without the marker file, leaves
    the marker, and succeeds from then on. *)
Definition flaky : Fixer :=
  fun w =>
    match files w !! ".fixed" with
    | Some _ => (Resolved (plainResult true "done"), w)
    | None => (Rejected "try again", writeFile ".fixed" "1" w)
    end.

Definition flakyPhase : ExecutionPhase :=
  {| name := "Import Fixes"; priority := 2; timeout := 180; retries := 1;
     executeFunction := flaky |}.

(** Two files of the same base name in two directories. *)
Definition twoIndexFiles : World :=
  {| files := <[ "src/b/index.ts" := "b" ]> {[ "src/a/index.ts" := "a" ]};
     backupDir := None; now := 0 |}.


(** A compiler run that fails and prints one diagnostic the way [tsc]
    prints it without [--pretty]. *)
Definition compilerFails : string -> option Z -> World -> ExecOutcome * World :=
  fun _ _ w =>
    (ExecError "src/App.tsx(12,5): error TS2339: Property 'x' does not exist on type 'Y'."
               "" "Command failed: npx tsc --noEmit --skipLibCheck", w).

(** A check of the kind [test], which [generateRecommendations] has no
    advice for. *)
Definition unitTests : Validation.ValidationCheck :=
  {| Validation.name := "Unit Tests"; Validation.type := Validation.test;
     Validation.command := "npm test"; Validation.timeout := 300;
     Validation.required := true |}.

Definition unitTestsFailed : Validation.ValidationResult :=
  {| Validation.check := unitTests; Validation.success := false;
     Validation.message := "Unit Tests failed"; Validation.executionTime := 0 |}.

(** A compiler that prints one diagnostic and a line that only looks like
    one. *)
Definition compilerFailsTwice : string -> option Z -> World -> ExecOutcome * World :=
  fun _ _ w =>
    (ExecError
       (JS.joinLines
          ["src/App.tsx(12,5): error TS2339: Property 'x' does not exist on type 'Y'.";
           "src/App.tsx: error TS6053: File not found."])
       "" "Command failed: npx tsc --noEmit", w).

(** A project in which the backup directory exists. *)
Definition preparedDisk : Disk.FileSystem :=
  {| Disk.files := <[ "src/App.tsx" := "app" ]> {[ "src/a/index.ts" := "a" ]};
     Disk.directories := {[ "src"; "src/a" ]};
     Disk.backupDir := Some ∅; Disk.now := 0 |}.

Definition preparedProject : RealScripts.RunState :=
  {| RealScripts.disk := preparedDisk; RealScripts.fixesApplied := [] |}.

(** A script over two files that overwrites both and then rejects. *)
Definition clobber : Disk.FileSystem -> Settled Z * Disk.FileSystem := fun fs =>
  (Rejected "boom",
   {| Disk.files := <[ "src/a/index.ts" := "broken" ]>
                      (<[ "src/App.tsx" := "broken" ]> (Disk.files fs));
      Disk.directories := Disk.directories fs;
      Disk.backupDir := Disk.backupDir fs; Disk.now := Disk.now fs |}).

Definition clobberScript : RealScripts.Script :=
  {| RealScripts.name := "Generic Error Fixer"; RealScripts.pattern := "other";
     RealScripts.priority := 3;
     RealScripts.files := ["src/a/index.ts"; "src/App.tsx"];
     RealScripts.errorHandling := "backup-and-rollback";
     RealScripts.execute := clobber |}.

(** A script that removes the directory of its first file, with the file
    in it, and then rejects. *)
Definition removeDirectory : Disk.FileSystem -> Settled Z * Disk.FileSystem :=
  fun fs =>
    (Rejected "boom",
     {| Disk.files := delete "src/a/index.ts" (Disk.files fs);
        Disk.directories := Disk.directories fs ∖ {[ "src/a" ]};
        Disk.backupDir := Disk.backupDir fs; Disk.now := Disk.now fs |}).

Definition removingScript : RealScripts.Script :=
  {| RealScripts.name := "Generic Error Fixer"; RealScripts.pattern := "other";
     RealScripts.priority := 3;
     RealScripts.files := ["src/a/index.ts"; "src/App.tsx"];
     RealScripts.errorHandling := "backup-and-rollback";
     RealScripts.execute := removeDirectory |}.

(** A script that changes a file and rejects with [undefined]. *)
Definition rejectUndefined : Disk.FileSystem -> Settled Z * Disk.FileSystem :=
  fun fs =>
    (RejectedWith Undefined,
     {| Disk.files := <[ "src/App.tsx" := "broken" ]> (Disk.files fs);
        Disk.directories := Disk.directories fs;
        Disk.backupDir := Disk.backupDir fs; Disk.now := Disk.now fs |}).

Definition undefinedScript : RealScripts.Script :=
  {| RealScripts.name := "Generic Error Fixer"; RealScripts.pattern := "other";
     RealScripts.priority := 3;
     RealScripts.files := ["src/App.tsx"];
     RealScripts.errorHandling := "backup-and-rollback";
     RealScripts.execute := rejectUndefined |}.

(** A phase whose fixer rejects with [null]. *)
Definition nullPhase : Orchestrator.ExecutionPhase :=
  {| Orchestrator.name := "Type Fixes"; Orchestrator.priority := 3;
     Orchestrator.timeout := 240; Orchestrator.retries := 1;
     Orchestrator.executeFunction := fun w => (RejectedWith Null, w) |}.

(** The configuration the command line passes when neither [--dry-run]
    nor [--no-backup] is given, and one with [backupEnabled] present but
    [undefined]. *)
Definition commandLineConfig : Orchestrator.PartialConfig :=
  {| Orchestrator.timeoutSeconds' := Orchestrator.Present (Some 600);
     Orchestrator.maxRetries' := Orchestrator.LeftOut;
     Orchestrator.backupEnabled' := Orchestrator.Present (Some true);
     Orchestrator.validationEnabled' := Orchestrator.Present (Some true);
     Orchestrator.rollbackOnFailure' := Orchestrator.LeftOut;
     Orchestrator.continueOnValidationFailure' := Orchestrator.LeftOut;
     Orchestrator.dryRun' := Orchestrator.Present None |}.
Definition undefinedBackupConfig : Orchestrator.PartialConfig :=
  {| Orchestrator.timeoutSeconds' := Orchestrator.LeftOut;
     Orchestrator.maxRetries' := Orchestrator.LeftOut;
     Orchestrator.backupEnabled' := Orchestrator.Present None;
     Orchestrator.validationEnabled' := Orchestrator.LeftOut;
     Orchestrator.rollbackOnFailure' := Orchestrator.LeftOut;
     Orchestrator.continueOnValidationFailure' := Orchestrator.LeftOut;
     Orchestrator.dryRun' := Orchestrator.LeftOut |}.

(** A phase whose fixer never settles. *)
Definition stuckPhase : Orchestrator.ExecutionPhase :=
  {| Orchestrator.name := "Type Fixes"; Orchestrator.priority := 3;
     Orchestrator.timeout := 240; Orchestrator.retries := 1;
     Orchestrator.executeFunction := fun w => (Pending, w) |}.

End Samples.

(** * Properties *)

(** ** The constructor *)

Section Constructor.
Import Orchestrator.

(** C9, as the code has it.  The constructor stores the default under
    every key the argument leaves out and, under every key that is
    present, the value the argument has there, also when that value is
    [undefined].  The stored configuration is complete (no field holds
    [undefined]) exactly when no key of the argument is present with
    [undefined]; then every supplied option overrides its default and
    every other option has its default (600, 2, true, true, true, false,
    false).  A flag stored as [undefined] is read as false by the
    methods, whatever its default. *)
Theorem C9_constructor_defaults (cfg : PartialConfig) (path : string) :
  let c := config (constructor cfg path) in
  Stored.timeoutSeconds c
  = match timeoutSeconds' cfg with LeftOut => Some 600 | Present v => v end
  ∧ Stored.maxRetries c
    = match maxRetries' cfg with LeftOut => Some 2 | Present v => v end
  ∧ Stored.backupEnabled c
    = match backupEnabled' cfg with LeftOut => Some true | Present v => v end
  ∧ Stored.validationEnabled c
    = match validationEnabled' cfg with LeftOut => Some true | Present v => v end
  ∧ Stored.rollbackOnFailure c
    = match rollbackOnFailure' cfg with LeftOut => Some true | Present v => v end
  ∧ Stored.continueOnValidationFailure c
    = match continueOnValidationFailure' cfg with
      | LeftOut => Some false
      | Present v => v
      end
  ∧ Stored.dryRun c
    = match dryRun' cfg with LeftOut => Some false | Present v => v end
  ∧ (complete c = true ↔ allDefined cfg = true)
  ∧ (backupEnabled' cfg = Present None → backupEnabled c = false)
  ∧ (validationEnabled' cfg = Present None → validationEnabled c = false)
  ∧ (rollbackOnFailure' cfg = Present None → rollbackOnFailure c = false)
  ∧ config (constructor emptyConfig path)
    = {| Stored.timeoutSeconds := Some 600; Stored.maxRetries := Some 2;
         Stored.backupEnabled := Some true; Stored.validationEnabled := Some true;
         Stored.rollbackOnFailure := Some true;
         Stored.continueOnValidationFailure := Some false;
         Stored.dryRun := Some false |}.
Proof.
  destruct cfg as [t m b v r c d]. cbn -[complete allDefined].
  repeat (split; [by first [destruct t|destruct m|destruct b|destruct v
                           |destruct r|destruct c|destruct d]|]).
  split.
  - unfold complete, allDefined, constructor, spread, defined.
    cbn [config Stored.timeoutSeconds Stored.maxRetries Stored.backupEnabled
         Stored.validationEnabled Stored.rollbackOnFailure
         Stored.continueOnValidationFailure Stored.dryRun
         timeoutSeconds' maxRetries' backupEnabled' validationEnabled'
         rollbackOnFailure' continueOnValidationFailure' dryRun'].
    destruct t as [|[?|]], m as [|[?|]], b as [|[?|]], v as [|[?|]],
             r as [|[?|]], c as [|[?|]], d as [|[?|]];
      vm_compute; split; congruence.
  - repeat split; intros ->; reflexivity.
Qed.

(** The command line passes [dryRun: options.dryRun], which is
    [undefined] unless [--dry-run] is given: the stored [dryRun] is then
    [undefined], not the default, and the configuration is not complete.
    With [backupEnabled] present but [undefined] the run makes no backup,
    where the default configuration makes one. *)
Lemma C9_counterexample :
  let path := ".error-fix-backups/2025-01-01T00-00-00-000Z" in
  let c := config (constructor Samples.commandLineConfig path) in
  let noBackup := constructor Samples.undefinedBackupConfig path in
  let run this :=
    snd (executeOrchestration Fixtures.compilerPasses this
           [Fixtures.errorOf "src/App.tsx" ErrorAnalyzer.SYNTAX]
           (initialState Fixtures.project)) in
  Stored.dryRun c = None
  ∧ Stored.dryRun c ≠ Some false
  ∧ complete c = false
  ∧ Stored.backupEnabled (config noBackup) = None
  ∧ Runtime.backupDir (world (run noBackup)) = None
  ∧ Runtime.backupDir (world (run Fixtures.defaultOrchestrator))
    = Some {[ "App.tsx" := "old" ]}.
Proof. vm_compute. repeat split; congruence. Qed.

End Constructor.

(** ** The validation engine *)

Section ValidationFacts.
Import Runtime Validation ValidationMore.
Variable execSync : string -> option Z -> World -> ExecOutcome * World.

Lemma runValidationCheck_spec (c : ValidationCheck) (s : RunState) :
  ∃ r s', runValidationCheck execSync c s = (Ok r, s')
          ∧ check r = c
          ∧ console s' = console s ++ [LogRunning (name c)]
          ∧ world s'
            = snd (execSync (command c) (Some (timeout c * 1000)) (world s))
          ∧ success r = passesIn execSync c (world s)
          ∧ ∀ con, fst (runValidationCheck execSync c
                          {| world := world s; console := con |}) = Ok r.
Proof.
  unfold runValidationCheck, passesIn, log, dateNow, setWorld. unfold_monad. simpl.
  destruct (execSync (command c) (Some (timeout c * 1000)) (world s)) as [o w].
  destruct o; simpl; eexists _, _; repeat split; reflexivity.
Qed.

Lemma runChecks_spec (checks : list ValidationCheck) :
  ∀ (acc : list ValidationResult) (s : RunState),
  ∃ rs s' skipped,
    runChecks execSync checks acc s = (Ok (acc ++ rs), s')
    ∧ checks = (check <$> rs) ++ skipped
    ∧ console s' = console s ++ (LogRunning ∘ name ∘ check <$> rs)
    ∧ (∀ i r, rs !! i = Some r → stops r = true → S i = length rs)
    ∧ (skipped ≠ [] → ∃ r, last rs = Some r ∧ stops r = true)
    ∧ world s' = worldAfter execSync (check <$> rs) (world s)
    ∧ (∀ i r, rs !! i = Some r →
         let w := worldAfter execSync (take i (check <$> rs)) (world s) in
         success r = passesIn execSync (check r) w
         ∧ ∀ con, fst (runValidationCheck execSync (check r)
                         {| world := w; console := con |}) = Ok r).
Proof.
  induction checks as [|c rest IH]; intros acc s.
  - exists [], s, []. simpl. unfold_monad.
    rewrite !app_nil_r. repeat split; done.
  - destruct (runValidationCheck_spec c s) as (r & s1 & Hr & Hc & Hl & Hw1 & Hp & Hany).
    simpl. unfold_monad. rewrite Hr.
    destruct (negb (success r) && required c) eqn:Hstop.
    + exists [r], s1, rest. simpl. rewrite Hc. repeat split; try done.
      * intros [|i] r' H Hs; [done|]. simpl in H. done.
      * intros _. exists r. split; [done|]. unfold stops. by rewrite Hc.
      * destruct i as [|i]; simpl in H; [|done]. injection H as <-.
        by rewrite Hc.
      * destruct i as [|i]; simpl in H; [|done]. injection H as <-.
        simpl. rewrite Hc. apply Hany.
    + destruct (IH (acc ++ [r]) s1)
        as (rs & s' & skipped & Hrun & Hck & Hcon & Hlast & Hskip & Hw & Hres).
      exists (r :: rs), s', skipped.
      rewrite Hrun, <- app_assoc. simpl. rewrite Hc, Hck, Hcon, Hl, <- app_assoc.
      split; [done|]. split; [done|]. split; [done|]. split; [|split; [|split]].
      * intros [|i] r' H Hs; simpl in H.
        -- injection H as <-. unfold stops in Hs. rewrite Hc in Hs. congruence.
        -- f_equal. by eapply Hlast.
      * intros Hne. destruct (Hskip Hne) as (r' & Hl' & Hs').
        exists r'. split; [|done].
        destruct rs; [done|]. by rewrite last_cons, Hl'.
      * by rewrite Hw, Hw1.
      * intros [|i] r' H; simpl in H.
        -- injection H as <-. simpl. rewrite Hc. split; [done|apply Hany].
        -- cbn [take worldAfter foldl]. rewrite <- Hw1.
           exact (Hres i r' H).
Qed.

Lemma length_filter_le_Z {A} (p : A → bool) (l : list A) :
  Z.of_nat (length (List.filter p l)) <= Z.of_nat (length l).
Proof.
  induction l as [|x l IH]; simpl; [lia|]. destruct (p x); simpl; lia.
Qed.

Lemma validate_unfold (checks : list ValidationCheck) (s : RunState) :
  ∀ rs s', runChecks execSync checks [] s = (Ok rs, s') →
  validate execSync checks s =
    (Ok {| overallSuccess :=
             forallb (fun r => success r || negb (required (check r))) rs;
           totalChecks := Z.of_nat (length rs);
           passedChecks := Z.of_nat (length (List.filter success rs));
           failedChecks :=
             Z.of_nat (length rs) - Z.of_nat (length (List.filter success rs));
           results := rs;
           totalTime := now (world s') - now (world s);
           recommendations := generateRecommendations rs |}, s').
Proof.
  intros rs s' H. unfold validate, dateNow. unfold_monad. simpl. by rewrite H.
Qed.

(** C7. [validate] runs the checks in list order, each command in the
    world the one before it left, and records for each the result of
    [runValidationCheck], which passes exactly when the command exits
    normally.  It stops behind the first required check that fails (the
    checks after it are neither run nor recorded), and [overallSuccess]
    holds exactly when every recorded result passed or belongs to a check
    that is not required. *)
Theorem C7_validate_fail_fast (checks : list ValidationCheck) (s : RunState) :
  ∃ summary s' skipped,
    validate execSync checks s = (Ok summary, s')
    ∧ checks = (check <$> results summary) ++ skipped
    ∧ console s' = console s ++ (LogRunning ∘ name ∘ check <$> results summary)
    ∧ world s' = worldAfter execSync (check <$> results summary) (world s)
    ∧ (∀ i r, results summary !! i = Some r →
         let w := worldAfter execSync (take i checks) (world s) in
         success r = passesIn execSync (check r) w
         ∧ ∀ con, fst (runValidationCheck execSync (check r)
                         {| world := w; console := con |}) = Ok r)
    ∧ (∀ i r, results summary !! i = Some r → stops r = true →
              S i = length (results summary))
    ∧ (skipped ≠ [] → ∃ r, last (results summary) = Some r ∧ stops r = true)
    ∧ (overallSuccess summary = true ↔
       ∀ r, r ∈ results summary → success r = true ∨ required (check r) = false).
Proof.
  destruct (runChecks_spec checks [] s)
    as (rs & s' & skipped & Hrun & Hck & Hcon & Hlast & Hskip & Hw & Hres).
  simpl in Hrun. eexists _, s', skipped.
  split; [exact (validate_unfold checks s rs s' Hrun)|]. simpl.
  split; [assumption|]. split; [assumption|]. split; [assumption|].
  split.
  { intros i r Hi.
    assert (Htake : take i checks = take i (check <$> rs)).
    { rewrite Hck. apply take_app_le.
      apply lookup_lt_Some in Hi. rewrite length_fmap. lia. }
    rewrite Htake. exact (Hres i r Hi). }
  repeat split; try assumption.
  - intros Hall r Hin. rewrite forallb_forall in Hall.
    apply list_elem_of_In in Hin. specialize (Hall r Hin).
    apply orb_true_iff in Hall as [H|H]; [by left|right].
    by apply negb_true_iff in H.
  - intros Hall. apply forallb_forall. intros r Hin.
    apply list_elem_of_In in Hin. destruct (Hall r Hin) as [->| ->]; [done|].
    by rewrite orb_true_r.
Qed.

Lemma generateRecommendations_nonempty (rs : list ValidationResult) :
  generateRecommendations rs ≠ [].
Proof.
  unfold generateRecommendations.
  destruct (foldl _ [] rs) as [|x l]; simpl; done.
Qed.

Lemma recommendations_all_passed (rs : list ValidationResult) :
  ∀ acc, Forall (fun r => success r = true) rs →
  foldl (fun recs result => recs ++ recommendationFor result) acc rs = acc.
Proof.
  induction rs as [|r rs IH]; intros acc H; simpl; [done|].
  inversion H as [|? ? Hr Hrs]; subst.
  unfold recommendationFor at 2. rewrite Hr, app_nil_r. by apply IH.
Qed.

(** C10. Every summary [validate] returns has
    [passedChecks + failedChecks = totalChecks = results.length], and its
    list of recommendations is not empty; when no check failed it is the
    one success message. *)
Theorem C10_summary_counts (checks : list ValidationCheck) (s : RunState) :
  ∃ summary s',
    validate execSync checks s = (Ok summary, s')
    ∧ passedChecks summary + failedChecks summary = totalChecks summary
    ∧ totalChecks summary = Z.of_nat (length (results summary))
    ∧ 0 <= passedChecks summary ∧ 0 <= failedChecks summary
    ∧ recommendations summary ≠ []
    ∧ (Forall (fun r => success r = true) (results summary) →
       recommendations summary
       = ["✅ All validation checks passed - project is in good shape!"]).
Proof.
  destruct (runChecks_spec checks [] s) as (rs & s' & skipped & Hrun & _).
  simpl in Hrun. eexists _, s'.
  split; [exact (validate_unfold checks s rs s' Hrun)|]. simpl.
  pose proof (length_filter_le_Z success rs) as Hle.
  repeat split; try lia.
  - apply generateRecommendations_nonempty.
  - intros Hall. unfold generateRecommendations.
    by rewrite (recommendations_all_passed rs [] Hall).
Qed.

End ValidationFacts.

(** ** The retry loop *)

Section RetryFacts.
Import Runtime Orchestrator.

Lemma attemptLines_length (phase : ExecutionPhase) (n : nat) (first : Z) :
  length (attemptLines phase n first) = n.
Proof.
  revert first. induction n as [|n IH]; intros first; simpl; [done|].
  by rewrite IH.
Qed.

Lemma attemptLines_no_rollback (phase : ExecutionPhase) (n : nat) (first : Z) :
  LogRollback ∉ attemptLines phase n first.
Proof.
  revert first. induction n as [|n IH]; intros first; simpl.
  - apply not_elem_of_nil.
  - intros H. apply elem_of_cons in H as [H|H]; [done|]. by eapply IH.
Qed.

(** One turn whose call does not succeed. *)
Lemma attemptPhase_fails (phase : ExecutionPhase) (attempt : Z) (s : RunState) :
  fails (fst (executeFunction phase (world s))) = true →
  ∃ r,
    attemptPhase phase attempt s =
      (Ok (if attempt =? retries phase + 1 then Some r else None),
       {| world := snd (executeFunction phase (world s));
          executionHistory := executionHistory s;
          console := console s
                     ++ [LogAttempt (name phase) attempt (retries phase + 1)] |})
    ∧ success r = false.
Proof.
  intros Hf. unfold attemptPhase, executeWithTimeout, messageOf, log, setWorld.
  unfold_monad. simpl.
  destruct (executeFunction phase (world s)) as [o w]. simpl in *.
  destruct o as [r|msg|v|]; simpl in *.
  - apply negb_true_iff in Hf. rewrite Hf. exists r.
    by destruct (attempt =? retries phase + 1).
  - eexists (plainResult false _).
    by destruct (attempt =? retries phase + 1).
  - discriminate Hf.
  - eexists (plainResult false _).
    by destruct (attempt =? retries phase + 1).
Qed.

(** One turn whose call succeeds. *)
Lemma attemptPhase_succeeds (phase : ExecutionPhase) (attempt : Z) (s : RunState)
      (r : ExecutionResult) (w : World) :
  executeFunction phase (world s) = (Resolved r, w) →
  success r = true →
  attemptPhase phase attempt s =
    (Ok (Some r),
     {| world := w; executionHistory := executionHistory s;
        console := console s
                   ++ [LogAttempt (name phase) attempt (retries phase + 1)] |}).
Proof.
  intros He Hs. unfold attemptPhase, executeWithTimeout, log, setWorld.
  unfold_monad. simpl. rewrite He. simpl. by rewrite Hs.
Qed.

Lemma retryLoop_all_fail (phase : ExecutionPhase) :
  (∀ w, fails (fst (executeFunction phase w)) = true) →
  ∀ (turns : nat) (attempt : Z) (s : RunState),
    attempt + Z.of_nat turns = retries phase + 1 →
    ∃ r s',
      retryLoop phase (S turns) attempt s = (Ok r, s')
      ∧ success r = false
      ∧ console s' = console s ++ attemptLines phase (S turns) attempt
      ∧ world s' = Nat.iter (S turns) (fun w => snd (executeFunction phase w)) (world s)
      ∧ executionHistory s' = executionHistory s.
Proof.
  intros Hf. induction turns as [|turns IH]; intros attempt s Hn.
  - destruct (attemptPhase_fails phase attempt s (Hf _)) as (r & Ha & Hr).
    simpl. unfold_monad. rewrite Ha.
    replace (attempt =? retries phase + 1) with true by (symmetry; apply Z.eqb_eq; lia).
    eauto 10.
  - destruct (attemptPhase_fails phase attempt s (Hf _)) as (r & Ha & Hr).
    cbn [retryLoop]. unfold_monad. rewrite Ha.
    replace (attempt =? retries phase + 1) with false by (symmetry; apply Z.eqb_neq; lia).
    edestruct (IH (attempt + 1)) as (r' & s' & Hrun & Hr' & Hc & Hw & Hh); [lia|].
    cbn [retryLoop] in Hrun. unfold_monad. rewrite Hrun.
    exists r', s'. split; [done|]. split; [done|].
    rewrite Hc, Hw, Hh. cbn [console world executionHistory attemptLines].
    rewrite <- app_assoc. repeat split; try done.
    by rewrite (Nat.iter_succ_r (S turns)).
Qed.

(** C2. A phase whose fixer fails on every call (it throws, times out or
    returns a failure) is invoked exactly [retries + 1] times, one call
    after the other, before the phase is reported failed; no call follows. *)
Theorem C2_retry_bound (phase : ExecutionPhase) (s : RunState) :
  0 <= retries phase →
  (∀ w, fails (fst (executeFunction phase w)) = true) →
  ∃ r s',
    executePhaseWithRetry phase s = (Ok r, s')
    ∧ success r = false
    ∧ console s'
      = console s ++ attemptLines phase (Z.to_nat (retries phase + 1)) 1
    ∧ Z.of_nat (length (attemptLines phase (Z.to_nat (retries phase + 1)) 1))
      = retries phase + 1
    ∧ world s'
      = Nat.iter (Z.to_nat (retries phase + 1))
                 (fun w => snd (executeFunction phase w)) (world s)
    ∧ executionHistory s' = executionHistory s.
Proof.
  intros Hr Hf. unfold executePhaseWithRetry.
  destruct (Z.to_nat (retries phase + 1)) as [|turns] eqn:Hn; [lia|].
  destruct (retryLoop_all_fail phase Hf turns 1 s) as (r & s' & H1 & H2 & H3 & H4 & H5);
    [lia|].
  exists r, s'. rewrite attemptLines_length. repeat split; try done. lia.
Qed.

Lemma C2_retry_bound_witness :
  let phase := Fixtures.failingPhase in
  let s := initialState Fixtures.emptyWorld in
  ∃ r s',
    executePhaseWithRetry phase s = (Ok r, s')
    ∧ success r = false
    ∧ console s' = console s ++ attemptLines phase (Z.to_nat (retries phase + 1)) 1
    ∧ Z.of_nat (length (attemptLines phase (Z.to_nat (retries phase + 1)) 1))
      = retries phase + 1
    ∧ world s'
      = Nat.iter (Z.to_nat (retries phase + 1))
                 (fun w => snd (executeFunction phase w)) (world s)
    ∧ executionHistory s' = executionHistory s.
Proof.
  intros phase s. apply (C2_retry_bound phase s).
  - simpl. lia.
  - intros w. reflexivity.
Defined.

End RetryFacts.

(** ** The planner *)

Section PlannerFacts.
Import Runtime ErrorAnalyzer Orchestrator.
Variable this : ExecutionOrchestrator.

(** [groupErrorsByRootCause], one group at a time, from any map built so
    far. *)
Lemma group_fold_lookup (errors : list AnalyzedError) :
  ∀ (acc : gmap ErrorRootCause (list AnalyzedError)) (rc : ErrorRootCause),
    foldl (fun groups error =>
             let c := rootCause (category error) in
             let groups :=
               if bool_decide (is_Some (groups !! c)) then groups
               else <[c := []]> groups in
             alter (fun g => g ++ [error]) c groups) acc errors !! rc
    = match acc !! rc with
      | Some g => Some (g ++ errorsOf rc errors)
      | None => if hasCause rc errors then Some (errorsOf rc errors) else None
      end.
Proof.
  induction errors as [|e errors IH]; intros acc rc; simpl.
  - destruct (acc !! rc); [by rewrite app_nil_r|done].
  - rewrite IH. clear IH. unfold hasCause, errorsOf. simpl.
    set (c := rootCause (category e)).
    destruct (decide (c = rc)) as [Heq|Hne].
    + rewrite (bool_decide_eq_true_2 (c = rc)) by done. simpl.
      rewrite <- Heq. rewrite lookup_alter_eq.
      destruct (acc !! c) as [g|] eqn:Hg.
      * rewrite (bool_decide_eq_true_2 (is_Some (Some g))) by eauto.
        rewrite Hg. simpl. by rewrite <- app_assoc.
      * rewrite (bool_decide_eq_false_2 (is_Some None)) by (by intros [? ?]).
        by rewrite lookup_insert_eq.
    + rewrite (bool_decide_eq_false_2 (c = rc)) by done. simpl.
      rewrite lookup_alter_ne by done.
      destruct (bool_decide (is_Some (acc !! c)));
        [done|]. by rewrite lookup_insert_ne.
Qed.

Lemma groupErrorsByRootCause_lookup (errors : list AnalyzedError)
      (rc : ErrorRootCause) :
  groupErrorsByRootCause errors !! rc
  = if hasCause rc errors then Some (errorsOf rc errors) else None.
Proof.
  unfold groupErrorsByRootCause. rewrite group_fold_lookup.
  by rewrite lookup_empty.
Qed.

Lemma errorsOf_nonempty (errors : list AnalyzedError) (rc : ErrorRootCause) :
  hasCause rc errors = true →
  (Z.of_nat (length (errorsOf rc errors)) =? 0) = false.
Proof.
  unfold hasCause, errorsOf. induction errors as [|e errors IH]; simpl; [done|].
  destruct (bool_decide (rootCause (category e) = rc)); simpl; [|done].
  intros _. reflexivity.
Qed.

Lemma hasErrors_hasCause (errors : list AnalyzedError) (rc : ErrorRootCause) :
  hasErrors (groupErrorsByRootCause errors) rc = hasCause rc errors.
Proof.
  unfold hasErrors. rewrite groupErrorsByRootCause_lookup.
  destruct (hasCause rc errors) eqn:H; [|done].
  by rewrite errorsOf_nonempty.
Qed.

Lemma groupOf_errorsOf (errors : list AnalyzedError) (rc : ErrorRootCause) :
  hasCause rc errors = true →
  groupOf (groupErrorsByRootCause errors) rc = errorsOf rc errors.
Proof.
  intros H. unfold groupOf. by rewrite groupErrorsByRootCause_lookup, H.
Qed.

(** The phases, in full: one per planned root cause, over its errors. *)
Lemma createExecutionPhases_spec (errors : list AnalyzedError) :
  createExecutionPhases this errors
  = (fun rc => phaseFor this rc (errorsOf rc errors)) <$> plannedCauses errors.
Proof.
  unfold createExecutionPhases, plannedCauses. rewrite !hasErrors_hasCause.
  simpl.
  destruct (hasCause SYNTAX errors) eqn:Hs, (hasCause IMPORT errors) eqn:Hi,
           (hasCause TYPE errors) eqn:Ht;
    simpl; rewrite ?groupOf_errorsOf by done; reflexivity.
Qed.

Lemma hasCause_perm (rc : ErrorRootCause) (errors errors' : list AnalyzedError) :
  errors ≡ₚ errors' → hasCause rc errors = hasCause rc errors'.
Proof.
  intros Hp. unfold hasCause. apply eq_true_iff_eq.
  rewrite !existsb_exists. split; intros (e & Hin & He); exists e; split; try done.
  - apply list_elem_of_In. rewrite <- Hp. by apply list_elem_of_In.
  - apply list_elem_of_In. rewrite Hp. by apply list_elem_of_In.
Qed.

Lemma plannedCauses_perm (errors errors' : list AnalyzedError) :
  errors ≡ₚ errors' → plannedCauses errors = plannedCauses errors'.
Proof.
  intros Hp. unfold plannedCauses. simpl.
  by rewrite !(hasCause_perm _ errors errors' Hp).
Qed.

(** C3, as the code has it. Whatever the order of the input, the planner
    emits one phase for each of the root causes Syntax, Import and Type
    that has an error, and none for Unused or Other; the phases come in
    ascending priority: Syntax (1), Import (2), Type (3). *)
Theorem C3_planner_order (errors : list AnalyzedError) :
  name <$> createExecutionPhases this errors
  = (fun rc => name (phaseFor this rc [])) <$> plannedCauses errors
  ∧ plannedCauses errors
    = List.filter (fun rc => bool_decide (rc ∈ [SYNTAX; IMPORT; TYPE]))
                  (presentCauses errors)
  ∧ StronglySorted Z.lt (priority <$> createExecutionPhases this errors)
  ∧ (∀ errors', errors ≡ₚ errors' →
       name <$> createExecutionPhases this errors'
       = name <$> createExecutionPhases this errors).
Proof.
  rewrite createExecutionPhases_spec. repeat split.
  - rewrite <- list_fmap_compose. apply list_fmap_ext.
    intros _ rc _. by destruct rc.
  - unfold plannedCauses, presentCauses. simpl.
    destruct (hasCause SYNTAX errors), (hasCause IMPORT errors),
             (hasCause TYPE errors), (hasCause UNUSED errors),
             (hasCause OTHER errors); reflexivity.
  - unfold plannedCauses. simpl.
    destruct (hasCause SYNTAX errors), (hasCause IMPORT errors),
             (hasCause TYPE errors); simpl;
      repeat (constructor; simpl; try lia).
  - intros errors' Hp. rewrite createExecutionPhases_spec.
    rewrite <- (plannedCauses_perm errors errors' Hp).
    rewrite <- !list_fmap_compose. apply list_fmap_ext.
    intros _ rc _. by destruct rc.
Qed.

(** The planner on errors of the categories Unused, Syntax and Type:
    three categories are present, two phases come out, none for Unused. *)
Lemma C3_counterexample :
  presentCauses Fixtures.unusedSyntaxType = [SYNTAX; TYPE; UNUSED]
  ∧ name <$> createExecutionPhases Fixtures.defaultOrchestrator
                                   Fixtures.unusedSyntaxType
    = ["Syntax Fixes"; "Type Fixes"]
  ∧ length (createExecutionPhases Fixtures.defaultOrchestrator
                                  Fixtures.unusedSyntaxType)
    ≠ length (presentCauses Fixtures.unusedSyntaxType).
Proof. vm_compute. repeat split; congruence. Qed.

End PlannerFacts.

(** ** The stages of a run *)

Section StageFacts.
Import Runtime ErrorAnalyzer Orchestrator.
Variable execSync : string -> option Z -> World -> ExecOutcome * World.
Variable this : ExecutionOrchestrator.

Lemma backupFiles_spec (paths : list string) :
  ∀ (count : Z) (s : RunState) (dir : gmap string string),
    backupDir (world s) = Some dir →
    ∃ n, backupFiles paths count s =
           (Ok n,
            {| world := {| files := files (world s);
                           backupDir := Some (snapshot (files (world s)) dir paths);
                           now := now (world s) |};
               executionHistory := executionHistory s;
               console := console s |}).
Proof.
  induction paths as [|p paths IH]; intros count s dir Hd.
  - exists count. simpl. unfold_monad. destruct s as [[fs bd t] h c].
    simpl in *. by subst.
  - cbn [backupFiles]. unfold fileExists, copyToBackup, setWorld. unfold_monad.
    cbn [snapshot foldl]. fold (snapshot (files (world s))).
    destruct (files (world s) !! p) as [content|] eqn:Hp.
    + rewrite bool_decide_eq_true_2 by eauto. rewrite Hd, Hp.
      match goal with
      | |- context [backupFiles paths ?c ?s1] =>
          destruct (IH c s1 _ eq_refl) as [n Hn]
      end.
      rewrite Hn. by exists n.
    + rewrite bool_decide_eq_false_2 by (by intros [? ?]).
      destruct (IH count s dir Hd) as [n Hn]. rewrite Hn. by exists n.
Qed.

(** [createBackup] returns, and touches nothing but the backup directory. *)
Lemma createBackup_spec (errors : list AnalyzedError) (s : RunState) :
  ∃ r, createBackup this errors s =
         (Ok r, {| world := backedUp this errors (world s);
                   executionHistory := executionHistory s;
                   console := console s |})
       ∧ success r = true.
Proof.
  unfold createBackup, backedUp. destruct (dryRun (config this)).
  - unfold_monad. eexists. split; [by destruct s|reflexivity].
  - unfold mkdirBackup, setWorld. unfold_monad. cbn [fst snd].
    match goal with
    | |- context [backupFiles ?ps ?c ?s1] =>
        destruct (backupFiles_spec ps c s1 _ eq_refl) as [n Hn]
    end.
    rewrite Hn. eexists. split; reflexivity.
Qed.

Lemma performFinalValidation_spec (s : RunState) :
  ∃ r, performFinalValidation execSync s =
         (Ok r,
          {| world := snd (execSync "npx tsc --noEmit --skipLibCheck" None (world s));
             executionHistory := executionHistory s;
             console := console s |}).
Proof.
  unfold performFinalValidation, setWorld. unfold_monad. simpl.
  destruct (execSync _ None (world s)) as [o w]. destruct o; simpl; eauto.
Qed.

(** A phase whose first call succeeds. *)
Lemma executePhaseWithRetry_first_success (phase : ExecutionPhase) (s : RunState)
      (r : ExecutionResult) (w : World) :
  0 <= retries phase →
  executeFunction phase (world s) = (Resolved r, w) →
  success r = true →
  executePhaseWithRetry phase s =
    (Ok r, {| world := w; executionHistory := executionHistory s;
              console := console s
                         ++ [LogAttempt (name phase) 1 (retries phase + 1)] |}).
Proof.
  intros Hr He Hs. unfold executePhaseWithRetry.
  destruct (Z.to_nat (retries phase + 1)) as [|turns] eqn:Hn; [lia|].
  cbn [retryLoop]. unfold_monad.
  by rewrite (attemptPhase_succeeds phase 1 s r w He Hs).
Qed.

(** The loop over phases that all succeed in place: every phase is tried
    once, its result is recorded, the world stays as it is. *)
Lemma runPhases_succeed_in_place (phases : list ExecutionPhase) :
  Forall (fun p => 0 <= retries p ∧ succeedsInPlace p) phases →
  ∀ s, runPhases this phases s =
         (Ok tt,
          {| world := world s;
             executionHistory :=
               executionHistory s ++ ((fun p => resultIn p (world s)) <$> phases);
             console :=
               console s
               ++ ((fun p => LogAttempt (name p) 1 (retries p + 1)) <$> phases) |}).
Proof.
  induction phases as [|p phases IH]; intros Hall s.
  - simpl. unfold_monad. rewrite !app_nil_r. by destruct s.
  - inversion Hall as [|? ? [Hr Hp] Hrest]; subst.
    destruct (Hp (world s)) as (r & He & Hs).
    cbn [runPhases]. unfold pushHistory. unfold_monad.
    rewrite (executePhaseWithRetry_first_success p s r (world s) Hr He Hs).
    cbn [executionHistory world console]. rewrite Hs. cbn [negb andb].
    rewrite (IH Hrest). cbn [executionHistory world console fmap list_fmap].
    unfold resultIn at 2. rewrite He. cbn [fst].
    by rewrite <- !app_assoc.
Qed.

(** The built-in phases succeed in place. *)
Lemma builtin_succeed_in_place (errors : list AnalyzedError) :
  Forall (fun p => 0 <= retries p ∧ succeedsInPlace p)
         (createExecutionPhases this errors).
Proof.
  rewrite createExecutionPhases_spec. apply Forall_fmap, Forall_forall.
  intros rc _. split.
  - destruct rc; simpl; lia.
  - intros w. destruct rc; simpl;
      unfold executeSyntaxFixes, executeImportFixes, executeTypeFixes;
      destruct (dryRun (config this)); eauto.
Qed.

Lemma restoreFiles_spec (dir : gmap string string) (entries : list string) :
  ∀ s, backupDir (world s) = Some dir →
       (∀ e, e ∈ entries → is_Some (dir !! e)) →
       ∃ fs', restoreFiles entries s =
                (Ok tt, {| world := {| files := fs'; backupDir := Some dir;
                                       now := now (world s) |};
                           executionHistory := executionHistory s;
                           console := console s |})
              ∧ ∀ p, fs' !! p = if bool_decide (p ∈ entries)
                                then files (world s) !! p ≫= (fun _ => dir !! p)
                                else files (world s) !! p.
Proof.
  induction entries as [|e entries IH]; intros s Hd Hin.
  - exists (files (world s)). simpl. unfold_monad. split; [|done].
    destruct s as [[fs bd t] h c]. simpl in *. by subst.
  - cbn [restoreFiles]. unfold fileExists, copyFromBackup, setWorld. unfold_monad.
    destruct (Hin e) as [c Hc]; [by left|].
    assert (Hrest : ∀ e', e' ∈ entries → is_Some (dir !! e')).
    { intros e' He'. apply Hin. by right. }
    destruct (files (world s) !! e) as [c0|] eqn:He.
    + rewrite bool_decide_eq_true_2 by eauto. rewrite Hd. cbn [mbind option_bind].
      rewrite Hc.
      match goal with
      | |- context [restoreFiles entries ?s1] =>
          destruct (IH s1 eq_refl Hrest) as (fs' & Hrun & Hfs)
      end.
      cbn [world files backupDir now executionHistory console] in *.
      rewrite Hrun. exists fs'. split; [done|].
      intros p. rewrite Hfs. destruct (decide (p = e)) as [->|Hne].
      * rewrite lookup_insert_eq, He. cbn [mbind option_bind].
        rewrite (bool_decide_eq_true_2 (e ∈ e :: entries)) by (by left).
        by destruct (bool_decide (e ∈ entries)).
      * rewrite lookup_insert_ne by done.
        destruct (decide (p ∈ entries)) as [Hp|Hp].
        -- rewrite !bool_decide_eq_true_2; [done|by right|done].
        -- rewrite !bool_decide_eq_false_2; [done| |done].
           intros H. apply elem_of_cons in H as [H|H]; done.
    + rewrite bool_decide_eq_false_2 by (by intros [? ?]).
      destruct (IH s Hd Hrest) as (fs' & Hrun & Hfs).
      rewrite Hrun. exists fs'. split; [done|].
      intros p. rewrite Hfs. destruct (decide (p = e)) as [->|Hne].
      * rewrite He. cbn [mbind option_bind].
        rewrite (bool_decide_eq_true_2 (e ∈ e :: entries)) by (by left).
        by destruct (bool_decide (e ∈ entries)).
      * destruct (decide (p ∈ entries)) as [Hp|Hp].
        -- rewrite !bool_decide_eq_true_2; [done|by right|done].
        -- rewrite !bool_decide_eq_false_2; [done| |done].
           intros H. apply elem_of_cons in H as [H|H]; done.
Qed.

(** [performRollback] returns; every project file with an entry of its own
    path in the backup directory takes the content of that entry, and
    nothing else changes. *)
Lemma performRollback_spec (s : RunState) :
  performRollback s =
    (Ok tt, {| world := rolledBackWorld (world s);
               executionHistory := executionHistory s;
               console := console s ++ [LogRollback] |}).
Proof.
  unfold performRollback, log, directoryExists, readdirBackup, rolledBackWorld.
  unfold_monad. cbn [world console executionHistory].
  destruct (backupDir (world s)) as [dir|] eqn:Hd.
  - rewrite bool_decide_eq_true_2 by eauto. cbn [world]. rewrite Hd.
    match goal with
    | |- context [restoreFiles ?es ?s1] =>
        destruct (restoreFiles_spec dir es s1 Hd) as (fs' & Hrun & Hfs)
    end.
    { intros e He. apply list_elem_of_fmap in He as ([k v] & -> & Hkv).
      apply elem_of_map_to_list in Hkv. simpl. eauto. }
    rewrite Hrun. cbn [world files now executionHistory console] in *.
    do 3 f_equal. f_equal. apply map_eq. intros p. rewrite Hfs.
    unfold restored. rewrite map_lookup_imap.
    destruct (files (world s) !! p) as [c0|] eqn:Hp; cbn [mbind option_bind].
    + destruct (dir !! p) as [c|] eqn:Hc.
      * rewrite bool_decide_eq_true_2; [done|].
        apply list_elem_of_fmap. exists (p, c). split; [done|].
        by apply elem_of_map_to_list.
      * rewrite bool_decide_eq_false_2; [done|].
        intros He. apply list_elem_of_fmap in He as ([k v] & Hk & Hkv).
        apply elem_of_map_to_list in Hkv. simpl in Hk. subst k. congruence.
    + by destruct (bool_decide _).
  - rewrite bool_decide_eq_false_2 by (by intros [? ?]).
    by destruct s as [[fs bd t] h c].
Qed.

(** A run whose loop over the phases comes to its end. *)
Lemma orchestration_completes (plan : list AnalyzedError → list ExecutionPhase)
      (errors : list AnalyzedError) (s s1 : RunState) :
  runPhases this (plan errors) (afterBackup this errors s) = (Ok tt, s1) →
  ∃ r, executeOrchestrationWith execSync this plan errors s
       = (Ok r, afterValidation execSync this s1)
       ∧ success r = true
       ∧ fixedCount r = Some (totalFixedOf (executionHistory s1)).
Proof.
  intros Hrun. unfold executeOrchestrationWith, executePhase, dateNow.
  unfold afterBackup, afterValidation in *. unfold_monad.
  destruct (backupEnabled (config this)).
  - destruct (createBackup_spec errors s) as (rb & Hb & _). rewrite Hb, Hrun.
    destruct (validationEnabled (config this)).
    + destruct (performFinalValidation_spec s1) as (rv & Hv). rewrite Hv.
      eexists. split; [reflexivity|]. split; reflexivity.
    + eexists. split; [reflexivity|]. split; reflexivity.
  - rewrite Hrun. destruct (validationEnabled (config this)).
    + destruct (performFinalValidation_spec s1) as (rv & Hv). rewrite Hv.
      eexists. split; [reflexivity|]. split; reflexivity.
    + eexists. split; [reflexivity|]. split; reflexivity.
Qed.

(** A run whose loop over the phases throws. *)
Lemma orchestration_aborts (plan : list AnalyzedError → list ExecutionPhase)
      (errors : list AnalyzedError) (s s1 : RunState) (e : string) :
  runPhases this (plan errors) (afterBackup this errors s) = (Throw e, s1) →
  ∃ r, executeOrchestrationWith execSync this plan errors s
       = (Ok r,
          if rollbackOnFailure (config this) && backupEnabled (config this)
          then snd (performRollback s1) else s1)
       ∧ success r = false
       ∧ message r = "Orchestration failed: " +:+ e.
Proof.
  intros Hrun. unfold executeOrchestrationWith, executePhase, dateNow.
  unfold afterBackup in *. unfold_monad.
  destruct (backupEnabled (config this)).
  - destruct (createBackup_spec errors s) as (rb & Hb & _). rewrite Hb, Hrun.
    destruct (rollbackOnFailure (config this)); cbn [andb].
    + rewrite performRollback_spec. cbn [snd].
      eexists. split; [reflexivity|]. split; reflexivity.
    + eexists. split; [reflexivity|]. split; reflexivity.
  - rewrite Hrun. rewrite andb_false_r.
    eexists. split; [reflexivity|]. split; reflexivity.
Qed.

End StageFacts.

(** ** Whole runs *)

Section RunFacts.
Import Runtime ErrorAnalyzer Orchestrator.
Variable execSync : string -> option Z -> World -> ExecOutcome * World.
Variable this : ExecutionOrchestrator.

(** C5, as the code has it. A fresh orchestrator run on no error at all
    returns success with [fixedCount] 0 (terminal state Completed), runs no
    phase and copies no file into the backup directory; with backups
    enabled and outside a dry run it does create that directory when it is
    missing, and leaves an existing one with its entries. *)
Theorem C5_empty_run (w : World) :
  ∃ r s',
    executeOrchestration execSync this [] (initialState w) = (Ok r, s')
    ∧ success r = true
    ∧ fixedCount r = Some 0
    ∧ terminalState r s' = Completed
    ∧ executionHistory s' = [] ∧ console s' = []
    ∧ s' = afterValidation execSync this (afterBackup this [] (initialState w))
    ∧ world (afterBackup this [] (initialState w))
      = (if backupEnabled (config this) && negb (dryRun (config this))
         then {| files := files w;
                 backupDir := Some (default ∅ (backupDir w));
                 now := now w |}
         else w).
Proof.
  unfold executeOrchestration.
  destruct (orchestration_completes execSync this (createExecutionPhases this) []
              (initialState w) (afterBackup this [] (initialState w)))
    as (r & Hrun & Hs & Hf).
  { rewrite createExecutionPhases_spec. reflexivity. }
  exists r, (afterValidation execSync this (afterBackup this [] (initialState w))).
  split; [exact Hrun|]. split; [exact Hs|].
  assert (Hh : executionHistory (afterBackup this [] (initialState w)) = []).
  { unfold afterBackup. by destruct (backupEnabled (config this)). }
  assert (Hc : console (afterBackup this [] (initialState w)) = []).
  { unfold afterBackup. by destruct (backupEnabled (config this)). }
  split; [by rewrite Hf, Hh|].
  split; [unfold terminalState; by rewrite Hs|].
  split; [unfold afterValidation; by destruct (validationEnabled (config this))|].
  split; [unfold afterValidation; by destruct (validationEnabled (config this))|].
  split; [reflexivity|].
  unfold afterBackup, backedUp.
  destruct (backupEnabled (config this)), (dryRun (config this)); reflexivity.
Qed.

(** The default configuration on no error: the backup directory did not
    exist before the run and exists after it. *)
Lemma C5_counterexample :
  let s' := snd (executeOrchestration Fixtures.compilerPasses
                   Fixtures.defaultOrchestrator [] (initialState Fixtures.emptyWorld)) in
  backupDir Fixtures.emptyWorld = None
  ∧ backupDir (world s') = Some ∅
  ∧ backupDir (world s') ≠ backupDir Fixtures.emptyWorld.
Proof. vm_compute. repeat split; congruence. Qed.

(** C8. In a dry run the orchestrator mutates no file and creates no
    backup: the project files and the backup directory are after the run
    what they were before it (the compiler of the final validation being
    run with [--noEmit]), and the history reports, phase by phase, what
    would have been fixed. *)
Theorem C8_dry_run (errors : list AnalyzedError) (w : World) :
  dryRun (config this) = true →
  (∀ w0, files (snd (execSync "npx tsc --noEmit --skipLibCheck" None w0)) = files w0
         ∧ backupDir (snd (execSync "npx tsc --noEmit --skipLibCheck" None w0))
           = backupDir w0) →
  ∃ r s',
    executeOrchestration execSync this errors (initialState w) = (Ok r, s')
    ∧ success r = true
    ∧ files (world s') = files w
    ∧ backupDir (world s') = backupDir w
    ∧ executionHistory s'
      = (fun rc => dryRunResult rc (length (errorsOf rc errors)))
          <$> plannedCauses errors
    ∧ fixedCount r = Some 0
    ∧ rolledBack s' = false.
Proof.
  intros Hdry Hexec. unfold executeOrchestration.
  pose proof (runPhases_succeed_in_place this (createExecutionPhases this errors)
                (builtin_succeed_in_place this errors)
                (afterBackup this errors (initialState w))) as Hphases.
  destruct (orchestration_completes execSync this (createExecutionPhases this) errors
              (initialState w) _ Hphases) as (r & Hrun & Hs & Hf).
  eexists r, _. split; [exact Hrun|]. split; [exact Hs|].
  assert (Hw : world (afterBackup this errors (initialState w)) = w).
  { unfold afterBackup, backedUp. rewrite Hdry.
    by destruct (backupEnabled (config this)). }
  assert (Hh : executionHistory (afterBackup this errors (initialState w)) = []).
  { unfold afterBackup. by destruct (backupEnabled (config this)). }
  assert (Hc : console (afterBackup this errors (initialState w)) = []).
  { unfold afterBackup. by destruct (backupEnabled (config this)). }
  assert (Hhist :
    (fun p => resultIn p w) <$> createExecutionPhases this errors
    = (fun rc => dryRunResult rc (length (errorsOf rc errors)))
        <$> plannedCauses errors).
  { rewrite createExecutionPhases_spec, <- list_fmap_compose.
    apply list_fmap_ext. intros _ rc _. unfold compose, resultIn.
    destruct rc; simpl;
      unfold executeSyntaxFixes, executeImportFixes, executeTypeFixes;
      rewrite Hdry; reflexivity. }
  cbn [executionHistory] in Hf. rewrite Hw, Hh, Hhist in Hf. cbn [app] in Hf.
  unfold afterValidation. rewrite Hw, Hh, Hc. cbn [app].
  destruct (validationEnabled (config this)); cbn [world executionHistory console].
  - destruct (Hexec w) as [Hfiles Hdir].
    repeat split; try done.
    + rewrite Hf. f_equal. clear. unfold plannedCauses. simpl.
      destruct (hasCause SYNTAX errors), (hasCause IMPORT errors),
               (hasCause TYPE errors); reflexivity.
    + unfold rolledBack. apply bool_decide_eq_false_2. cbn [console].
      rewrite createExecutionPhases_spec, <- list_fmap_compose.
      intros H. apply list_elem_of_fmap in H as (rc & Hrc & _). done.
  - repeat split; try done.
    + rewrite Hf. f_equal. clear. unfold plannedCauses. simpl.
      destruct (hasCause SYNTAX errors), (hasCause IMPORT errors),
               (hasCause TYPE errors); reflexivity.
    + unfold rolledBack. apply bool_decide_eq_false_2. cbn [console].
      rewrite createExecutionPhases_spec, <- list_fmap_compose.
      intros H. apply list_elem_of_fmap in H as (rc & Hrc & _). done.
Qed.

End RunFacts.

Section RunWitnesses.
Import Runtime ErrorAnalyzer Orchestrator.

Lemma C8_dry_run_witness :
∃ r s',
  executeOrchestration Fixtures.compilerPasses Fixtures.dryRunOrchestrator
    Fixtures.unusedSyntaxType (initialState Fixtures.project) = (Ok r, s')
  ∧ success r = true
  ∧ files (world s') = files Fixtures.project
  ∧ backupDir (world s') = backupDir Fixtures.project
  ∧ executionHistory s'
    = (fun rc => dryRunResult rc (length (errorsOf rc Fixtures.unusedSyntaxType)))
        <$> plannedCauses Fixtures.unusedSyntaxType
  ∧ fixedCount r = Some 0
  ∧ rolledBack s' = false.
Proof.
apply (C8_dry_run Fixtures.compilerPasses Fixtures.dryRunOrchestrator
         Fixtures.unusedSyntaxType Fixtures.project).
- reflexivity.
- intros w0. simpl. split; reflexivity.
Defined.

End RunWitnesses.

(** ** A phase that has used up its attempts *)

Section ExhaustedFacts.
Import Runtime ErrorAnalyzer Orchestrator.
Variable execSync : string -> option Z -> World -> ExecOutcome * World.
Variable this : ExecutionOrchestrator.

(** A turn returns, and writes its one line on the console. *)
Lemma attemptPhase_frame (phase : ExecutionPhase) (attempt : Z) (s : RunState) :
  ∃ o s', attemptPhase phase attempt s = (o, s')
          ∧ console s' = console s
                         ++ [LogAttempt (name phase) attempt (retries phase + 1)]
          ∧ executionHistory s' = executionHistory s.
Proof.
  unfold attemptPhase, executeWithTimeout, messageOf, log, setWorld.
  unfold_monad. simpl.
  destruct (executeFunction phase (world s)) as [o w].
  destruct o as [r|msg|v|]; simpl.
  - destruct (success r); [eauto|].
    destruct (attempt =? retries phase + 1); eauto.
  - destruct (attempt =? retries phase + 1); eauto.
  - destruct (attempt =? retries phase + 1); eauto.
  - destruct (attempt =? retries phase + 1); eauto.
Qed.

Lemma retryLoop_frame (phase : ExecutionPhase) (turns : nat) :
  ∀ attempt s, ∃ r s' n,
    retryLoop phase turns attempt s = (r, s')
    ∧ console s' = console s ++ attemptLines phase n attempt
    ∧ executionHistory s' = executionHistory s.
Proof.
  induction turns as [|turns IH]; intros attempt s.
  - eexists _, s, 0%nat. simpl. unfold_monad. rewrite app_nil_r. eauto.
  - destruct (attemptPhase_frame phase attempt s) as (o & s1 & Ha & Hc & Hh).
    cbn [retryLoop]. unfold_monad. rewrite Ha. destruct o as [[r|]|e].
    + exists (Ok r), s1, 1%nat. simpl. eauto.
    + destruct (IH (attempt + 1) s1) as (r & s' & n & Hrun & Hc' & Hh').
      exists r, s', (S n). rewrite Hrun, Hc', Hc, Hh', Hh. simpl.
      by rewrite <- app_assoc.
    + exists (Throw e), s1, 1%nat. simpl. eauto.
Qed.

(** The loop over the phases only ever writes attempt lines. *)
Lemma runPhases_frame (phases : list ExecutionPhase) :
  ∀ s res s', runPhases this phases s = (res, s') →
              rolledBack s = false → rolledBack s' = false.
Proof.
  induction phases as [|p phases IH]; intros s res s' Hrun Hs.
  - simpl in Hrun. unfold_monad. by injection Hrun as _ <-.
  - cbn [runPhases] in Hrun. unfold pushHistory in Hrun. unfold_monad.
    unfold executePhaseWithRetry in Hrun.
    destruct (retryLoop_frame p (Z.to_nat (retries p + 1)) 1 s)
      as (r & s1 & n & Hp & Hc & Hh).
    rewrite Hp in Hrun.
    assert (Hs1 : ∀ h, rolledBack {| world := world s1;
                                     executionHistory := h;
                                     console := console s1 |} = false).
    { intros h. unfold rolledBack in *. cbn [console]. rewrite Hc.
      apply bool_decide_eq_false_2. apply bool_decide_eq_false_1 in Hs.
      intros H. apply elem_of_app in H as [H|H]; [done|].
      by eapply attemptLines_no_rollback. }
    destruct r as [r|e].
    + destruct (negb (success r) && negb (continueOnValidationFailure (config this))).
      * injection Hrun as _ <-. apply Hs1.
      * eapply IH; [exact Hrun|apply Hs1].
    + injection Hrun as _ <-. specialize (Hs1 (executionHistory s1)).
      by destruct s1.
Qed.




End ExhaustedFacts.

Section RollbackFacts.
Import Runtime ErrorAnalyzer Orchestrator.

(** The snapshot of paths that are their own base names: each file that
    exists is stored under its own path. *)
Lemma snapshot_lookup_flat (fs : gmap string string) (paths : list string) :
  (∀ q, q ∈ paths → JS.basename q = q) →
  ∀ (dir : gmap string string) (p : string),
    snapshot fs dir paths !! p
    = if bool_decide (p ∈ paths)
      then match fs !! p with Some c => Some c | None => dir !! p end
      else dir !! p.
Proof.
  induction paths as [|q paths IH]; intros Hflat dir p.
  - change (snapshot fs dir []) with dir.
    rewrite bool_decide_eq_false_2; [done|apply not_elem_of_nil].
  - assert (Hq : JS.basename q = q) by (apply Hflat; by left).
    assert (Hrest : ∀ q', q' ∈ paths → JS.basename q' = q').
    { intros q' H. apply Hflat. by right. }
    change (snapshot fs dir (q :: paths))
      with (snapshot fs (match fs !! q with
                         | Some content => <[JS.basename q := content]> dir
                         | None => dir
                         end) paths).
    rewrite (IH Hrest). clear IH.
    destruct (decide (p = q)) as [->|Hne].
    + rewrite (bool_decide_eq_true_2 (q ∈ q :: paths)) by (by left).
      destruct (fs !! q) as [c|] eqn:Hfs.
      * rewrite Hq, lookup_insert_eq. by destruct (bool_decide (q ∈ paths)).
      * by destruct (bool_decide (q ∈ paths)).
    + assert (Hiff : bool_decide (p ∈ q :: paths) = bool_decide (p ∈ paths)).
      { apply bool_decide_ext. rewrite elem_of_cons.
        split; [intros [Heq|Hin]; done|by right]. }
      rewrite Hiff. destruct (fs !! q) as [c|] eqn:Hfs; [|done].
      rewrite Hq, lookup_insert_ne by done. done.
Qed.

(** Rollback is exact for files that lie in the working directory itself:
    when the backup directory still holds the snapshot taken of [paths] in
    [fs], every file of [paths] that existed then and exists now has its
    content of then, and a file outside [paths] keeps what it has. *)
Lemma rollback_exact_in_cwd (fs : gmap string string) (paths : list string) (w : World) :
  (∀ q, q ∈ paths → JS.basename q = q) →
  backupDir w = Some (snapshot fs ∅ paths) →
  (∀ p c, p ∈ paths → fs !! p = Some c → is_Some (files w !! p) →
          files (rolledBackWorld w) !! p = Some c)
  ∧ (∀ p, p ∉ paths → files (rolledBackWorld w) !! p = files w !! p).
Proof.
  intros Hflat Hdir. unfold rolledBackWorld. rewrite Hdir. cbn [files].
  unfold restored. split.
  - intros p c Hp Hfs [c' Hc']. rewrite map_lookup_imap, Hc'. cbn [mbind option_bind].
    rewrite (snapshot_lookup_flat fs paths Hflat), bool_decide_eq_true_2 by done.
    by rewrite Hfs.
  - intros p Hp. rewrite map_lookup_imap.
    rewrite (snapshot_lookup_flat fs paths Hflat), bool_decide_eq_false_2 by done.
    rewrite lookup_empty. by destruct (files w !! p).
Qed.

End RollbackFacts.

Section ExhaustedExamples.
Import Runtime ErrorAnalyzer Orchestrator.



(** C1 on a file below the working directory.  [createBackup] stores
    [src/App.tsx] under [App.tsx]; whatever is written to [src/App.tsx]
    afterwards, [performRollback] does not undo it.  In a whole run, the
    fixer rewrites the file and fails all three attempts: the run rolls
    back, the backup holds the old content, and [src/App.tsx] keeps what the
    fixer wrote.  With a file [App.tsx] in the working directory, that file
    is overwritten with the old content of [src/App.tsx]. *)
Theorem C1_rollback_misplaced :
  let this := Fixtures.defaultOrchestrator in
  let errors := [Fixtures.errorOf "src/App.tsx" SYNTAX] in
  let run w := executeOrchestrationWith Fixtures.compilerPasses this
                 Fixtures.planFailing errors (initialState w) in
  (∃ r s1 s3,
     createBackup this errors (initialState Fixtures.project) = (Ok r, s1)
     ∧ backupDir (world s1) = Some {[ "App.tsx" := "old" ]}
     ∧ performRollback
         {| world := writeFile "src/App.tsx" "new" (world s1);
            executionHistory := executionHistory s1; console := console s1 |}
       = (Ok tt, s3)
     ∧ files (world s3) !! "src/App.tsx" = Some "new")
  ∧ (∃ r s', run Fixtures.project = (Ok r, s')
             ∧ terminalState r s' = RolledBack
             ∧ files Fixtures.project !! "src/App.tsx" = Some "old"
             ∧ backupDir (world s') = Some {[ "App.tsx" := "old" ]}
             ∧ files (world s') !! "src/App.tsx" = Some "new")
  ∧ (∃ r s', run Fixtures.projectWithTwin = (Ok r, s')
             ∧ terminalState r s' = RolledBack
             ∧ files Fixtures.projectWithTwin !! "App.tsx" = Some "root"
             ∧ files (world s') !! "App.tsx" = Some "old"
             ∧ files (world s') !! "src/App.tsx" = Some "new").
Proof.
  repeat split.
  - eexists _, _, _. split; [vm_compute; reflexivity|].
    split; [vm_compute; reflexivity|].
    split; [vm_compute; reflexivity|]. vm_compute. reflexivity.
  - eexists _, _. split; [vm_compute; reflexivity|].
    vm_compute. repeat split; reflexivity.
  - eexists _, _. split; [vm_compute; reflexivity|].
    vm_compute. repeat split; reflexivity.
Qed.

End ExhaustedExamples.

(** ** The diagnostic parsers *)

Section StringFacts.
Import JS.
Local Arguments String.append !_ _ : simpl nomatch.

Lemma append_assoc (a b c : string) : (a +:+ b) +:+ c = a +:+ (b +:+ c).
Proof. induction a as [|x a IH]; simpl; [done|]. by rewrite IH. Qed.

Lemma append_nil_r (a : string) : a +:+ "" = a.
Proof. induction a as [|x a IH]; simpl; [done|]. by rewrite IH. Qed.

Lemma allChars_app (p : ascii → bool) (a b : string) :
  allChars p (a +:+ b) = allChars p a && allChars p b.
Proof.
  induction a as [|x a IH]; simpl; [done|]. by rewrite IH, andb_assoc.
Qed.

Lemma allChars_impl (p q : ascii → bool) (s : string) :
  (∀ c, p c = true → q c = true) → allChars p s = true → allChars q s = true.
Proof.
  intros Hpq. induction s as [|x s IH]; simpl; [done|].
  intros H. apply andb_true_iff in H as [Hx Hs].
  by rewrite (Hpq x Hx), IH.
Qed.

Lemma span_app (p : ascii → bool) (a b : string) :
  allChars p a = true → stopsAt p b → span p (a +:+ b) = (a, b).
Proof.
  intros Ha Hb. induction a as [|x a IH]; simpl in *.
  - destruct b as [|c b]; [done|]. simpl in *. by rewrite Hb.
  - apply andb_true_iff in Ha as [Hx Ha]. by rewrite Hx, (IH Ha).
Qed.

Lemma startsWith_app (n s : string) : startsWith n (n +:+ s) = true.
Proof.
  induction n as [|x n IH]; simpl; [by destruct s|].
  by rewrite Ascii.eqb_refl, IH.
Qed.

Lemma includes_app (n a b : string) : includes n (a +:+ n +:+ b) = true.
Proof.
  induction a as [|x a IH]; simpl.
  - assert (H : ∀ s, startsWith n s = true → includes n s = true).
    { intros s Hs. destruct s; simpl; by rewrite Hs. }
    apply H, startsWith_app.
  - rewrite IH. apply orb_true_r.
Qed.

Lemma trimStart_app (a b : string) :
  a ≠ "" → trimStart a = a → trimStart (a +:+ b) = a +:+ b.
Proof.
  destruct a as [|x a]; [done|]. intros _. simpl.
  destruct (isSpace x) eqn:Hx; [|done].
  intros H. exfalso.
  assert (Hlen : ∀ s, (String.length (trimStart s) <= String.length s)%nat).
  { induction s as [|y s IHs]; simpl; [lia|].
    destruct (isSpace y); simpl; lia. }
  specialize (Hlen a). rewrite H in Hlen. simpl in Hlen. lia.
Qed.

Lemma trimEnd_app (a b : string) :
  b ≠ "" → trimEnd b = b → trimEnd (a +:+ b) = a +:+ b.
Proof.
  intros Hb Ht. induction a as [|x a IH]; simpl; [done|].
  rewrite IH. destruct (a +:+ b) eqn:E; [|done].
  destruct a; simpl in E; [by subst|done].
Qed.

(** [parseInt] reads back what [toString] printed. *)
Lemma uint_digits (u : Decimal.uint) :
  allChars isDigit (NilEmpty.string_of_uint u) = true.
Proof. induction u; simpl; done. Qed.

Lemma toString_digits (z : Z) :
  0 <= z → allChars isDigit (toString z) = true ∧ toString z ≠ "".
Proof.
  intros Hz. unfold toString. destruct z as [|p|p]; [done| |lia].
  simpl. split; [apply uint_digits|].
  pose proof (DecimalPos.Unsigned.to_uint_nonnil p) as Hn.
  by destruct (Pos.to_uint p).
Qed.

Lemma roundDouble_safe (z : Z) : z < 2 ^ 53 → roundDouble z = z.
Proof.
  intros Hz. unfold roundDouble.
  by replace (z <? 2 ^ 53) with true by (symmetry; apply Z.ltb_lt; lia).
Qed.

Lemma roundDouble_nonneg (z : Z) : 0 <= z → 0 <= roundDouble z.
Proof.
  intros Hz. unfold roundDouble. destruct (z <? 2 ^ 53); [done|].
  apply Z.shiftl_nonneg.
  assert (0 <= Z.shiftr z (Z.log2 z - 52)) by by apply Z.shiftr_nonneg.
  destruct ((2 ^ (Z.log2 z - 52 - 1) <? z mod 2 ^ (Z.log2 z - 52))
            || (z mod 2 ^ (Z.log2 z - 52) =? 2 ^ (Z.log2 z - 52 - 1))
               && Z.odd (Z.shiftr z (Z.log2 z - 52))); lia.
Qed.


(** At 90 type errors the product with [0.7] is rounded below 63. *)
Example floorTimes_90 :
  floorTimes 90 mantissa_0_7 = 62 ∧ 90 * 7 / 10 = 63
  ∧ floorTimes 90 mantissa_0_8 = 72 ∧ floorTimes 90 mantissa_0_6 = 54.
Proof. vm_compute. repeat split; reflexivity. Qed.

Lemma parseInt_toString (z : Z) :
  0 <= z < 2 ^ 53 → parseInt (toString z) = Some z.
Proof.
  intros [Hz Hsafe]. destruct (toString_digits z Hz) as [_ Hne].
  unfold parseInt. destruct (isEmpty (toString z)) eqn:He.
  { by destruct (toString z). }
  unfold toString. destruct z as [|p|p]; [done| |lia].
  cbn [Z.to_int NilEmpty.string_of_int]. rewrite NilEmpty.usu.
  cbn [fmap option_fmap option_map]. unfold N.of_uint.
  rewrite DecimalPos.Unsigned.of_to. cbn [Z.of_N].
  by rewrite roundDouble_safe.
Qed.

Lemma splitLines_line (l rest : string) :
  allChars (fun c => negb (Ascii.eqb c "010"%char)) l = true →
  splitLines (l +:+ String "010"%char rest) = l :: splitLines rest.
Proof.
  induction l as [|x l IH]; simpl; [done|].
  intros H. apply andb_true_iff in H as [Hx Hl].
  apply negb_true_iff in Hx. by rewrite Hx, (IH Hl).
Qed.

Lemma splitLines_last (l : string) :
  allChars (fun c => negb (Ascii.eqb c "010"%char)) l = true →
  splitLines l = [l].
Proof.
  induction l as [|x l IH]; simpl; [done|].
  intros H. apply andb_true_iff in H as [Hx Hl].
  apply negb_true_iff in Hx. by rewrite Hx, (IH Hl).
Qed.

Lemma splitLines_joinLines (l : string) (ls : list string) :
  Forall (fun l => allChars (fun c => negb (Ascii.eqb c "010"%char)) l = true)
         (l :: ls) →
  splitLines (joinLines (l :: ls)) = l :: ls.
Proof.
  revert l. induction ls as [|l' ls IH]; intros l H.
  - simpl. apply splitLines_last. by inversion H.
  - inversion H as [|? ? Hl Hrest]; subst.
    change (joinLines (l :: l' :: ls))
      with (l +:+ String "010"%char (joinLines (l' :: ls))).
    by rewrite (splitLines_line _ _ Hl), (IH l' Hrest).
Qed.

End StringFacts.

Section ParserFacts.
Import JS Diagnostics.
Local Arguments String.append !_ _ : simpl nomatch.

Lemma literal_inv (lit s r : string) : literal lit s = Some r → s = lit +:+ r.
Proof.
  revert s. induction lit as [|x lit IH]; intros s H.
  - destruct s; simpl in H; by injection H as <-.
  - destruct s as [|y s]; simpl in H; [done|].
    destruct (Ascii.eqb x y) eqn:E; [|done].
    apply Ascii.eqb_eq in E. subst y. simpl. f_equal. by apply IH.
Qed.

Lemma run_app (p : ascii → bool) (plus : bool) (a b : string) :
  allChars p a = true → stopsAt p b → a ≠ "" →
  run p plus (a +:+ b) = Some (a, b).
Proof.
  intros Ha Hb Hne. unfold run. rewrite (span_app p a b Ha Hb).
  destruct a; [done|]. simpl. by rewrite andb_false_r.
Qed.

(** Both patterns behind the first group start with a parenthesis. *)
Lemma looseTail_head (s : string) : stopsAt (Ascii.eqb "("%char) s → looseTail s = None.
Proof.
  destruct s as [|c s]; [done|]. simpl. intros H. unfold looseTail. simpl.
  by rewrite H.
Qed.

Lemma strictTail_head (s : string) : stopsAt (Ascii.eqb "("%char) s → strictTail s = None.
Proof.
  destruct s as [|c s]; [done|]. simpl. intros H. unfold strictTail. simpl.
  by rewrite H.
Qed.

Lemma noMatchInside_app (tail : string → option Captures) (a b : string) :
  (∀ s, stopsAt (Ascii.eqb "("%char) s → tail s = None) →
  allChars notParen a = true →
  noMatchInside tail b = true →
  noMatchInside tail (a +:+ b) = true.
Proof.
  intros Hhead Ha Hb. induction a as [|x a IH]; simpl in *; [done|].
  apply andb_true_iff in Ha as [Hx Ha]. rewrite Hhead.
  - by apply IH.
  - unfold stopsAt, notParen in *. apply negb_true_iff in Hx.
    by rewrite Ascii.eqb_sym.
Qed.

Lemma noMatchInside_here (tail : string → option Captures) (s : string) :
  noMatchInside tail s = true → tail s = None.
Proof. destruct s; simpl; by destruct (tail _). Qed.

Lemma matchFrom_none (tail : string → option Captures) (s : string) :
  noMatchInside tail s = true → ∀ pre, matchFrom tail pre s = None.
Proof.
  induction s as [|c s IH]; intros H pre.
  - simpl. rewrite (noMatchInside_here tail "" H). by destruct (isEmpty pre).
  - pose proof (noMatchInside_here tail _ H) as Hhere.
    simpl in H. rewrite Hhere in H. simpl. rewrite Hhere, (IH H).
    by destruct (isDot c), (isEmpty pre).
Qed.

(** The first group takes the longest prefix behind which the rest of the
    pattern matches. *)
Lemma matchFrom_greedy (tail : string → option Captures) (f : string)
      (c : ascii) (rest : string) (caps : Captures) :
  allChars isDot f = true →
  tail (String c rest) = Some caps →
  noMatchInside tail rest = true →
  ∀ pre, pre +:+ f ≠ "" →
         matchFrom tail pre (f +:+ String c rest) = Some (pre +:+ f, caps).
Proof.
  intros Hf Ht Hn. induction f as [|x f IH]; intros pre Hne.
  - rewrite append_nil_r in *. simpl.
    rewrite Ht, (matchFrom_none tail rest Hn).
    destruct pre; [done|]. simpl. by destruct (isDot c).
  - simpl in Hf. apply andb_true_iff in Hf as [Hx Hf]. simpl. rewrite Hx.
    rewrite (IH Hf (pre +:+ String x "")).
    + by rewrite append_assoc.
    + rewrite append_assoc. simpl. by destruct pre.
Qed.

Lemma trimStart_head (s : string) : trimStart s = s → stopsAt isSpace s.
Proof.
  destruct s as [|c s]; [done|]. simpl. destruct (isSpace c); [|done].
  intros H. exfalso.
  assert (Hlen : ∀ t, (String.length (trimStart t) <= String.length t)%nat).
  { induction t as [|y t IHt]; simpl; [lia|].
    destruct (isSpace y); simpl; lia. }
  specialize (Hlen s). rewrite H in Hlen. simpl in Hlen. lia.
Qed.

Lemma spacesThenRest_trimmed (m : string) :
  m ≠ "" → allChars isDot m = true → trimStart m = m →
  spacesThenRest m = Some m.
Proof.
  intros Hne Hdot Ht. pose proof (trimStart_head m Ht) as Hh.
  destruct m as [|c m]; [done|]. simpl in Hh. simpl. rewrite Hh.
  unfold restOfLine. simpl in *. by rewrite Hdot.
Qed.

(** What the two patterns capture behind the path of a printed
    diagnostic. *)
Lemma looseTail_header (L C D m : string) :
  allChars isDigit L = true → L ≠ "" →
  allChars isDigit C = true → C ≠ "" →
  allChars isDigit D = true → D ≠ "" →
  m ≠ "" → allChars isDot m = true → trimStart m = m →
  looseTail ("(" +:+ L +:+ "," +:+ C +:+ "): error " +:+ ("TS" +:+ D) +:+ ": " +:+ m)
  = Some {| lineNum := L; col := C; codeText := "TS" +:+ D; messageText := m |}.
Proof.
  intros HL HLn HC HCn HD HDn Hm Hdot Ht. unfold looseTail. simpl.
  rewrite (run_app isDigit true L _ HL) by done. simpl.
  rewrite (run_app isDigit true C _ HC) by done. simpl.
  rewrite (run_app isDigit true D _ HD) by done. simpl.
  by rewrite (spacesThenRest_trimmed m Hm Hdot Ht).
Qed.

Lemma strictTail_header (L C D m : string) :
  allChars isDigit L = true → L ≠ "" →
  allChars isDigit C = true → C ≠ "" →
  allChars isDigit D = true → D ≠ "" →
  m ≠ "" → allChars isDot m = true →
  strictTail ("(" +:+ L +:+ "," +:+ C +:+ "): error " +:+ ("TS" +:+ D) +:+ ": " +:+ m)
  = Some {| lineNum := L; col := C; codeText := "TS" +:+ D; messageText := m |}.
Proof.
  intros HL HLn HC HCn HD HDn Hm Hdot. unfold strictTail. simpl.
  rewrite (run_app isDigit true L _ HL) by done. simpl.
  rewrite (run_app isDigit true C _ HC) by done. simpl.
  rewrite (run_app isDigit true D _ HD) by done. simpl.
  unfold restOfLine. rewrite Hdot. by destruct m.
Qed.

(** The conditions of [wellFormed], one by one. *)
Lemma printable_inv (s : string) :
  printable s = true →
  s ≠ "" ∧ allChars isDot s = true ∧ trimStart s = s ∧ trimEnd s = s.
Proof.
  unfold printable, trimmed. intros H.
  apply andb_true_iff in H as [H Ht]. apply andb_true_iff in H as [Hn Hd].
  apply andb_true_iff in Ht as [Hs He].
  apply String.eqb_eq in Hs, He. repeat split; try done.
  by destruct s.
Qed.

Lemma tsCode_inv (code : string) :
  tsCode code = true →
  ∃ D, code = "TS" +:+ D ∧ D ≠ "" ∧ allChars isDigit D = true.
Proof.
  unfold tsCode. destruct (literal "TS" code) as [D|] eqn:E; [|done].
  intros H. apply andb_true_iff in H as [Hn Hd].
  exists D. split; [by apply literal_inv|]. split; [by destruct D|done].
Qed.

Lemma digit_notParen (s : string) :
  allChars isDigit s = true → allChars notParen s = true.
Proof.
  apply allChars_impl. intros c Hc.
  destruct c as [[] [] [] [] [] [] [] []]; try done.
Qed.

(** Behind its opening parenthesis a printed diagnostic holds no place
    at which the pattern matches again. *)
Lemma no_later_match (tail : string → option Captures) (L C D m : string) :
  (∀ s, stopsAt (Ascii.eqb "("%char) s → tail s = None) →
  allChars isDigit L = true → allChars isDigit C = true →
  allChars isDigit D = true →
  noMatchInside tail m = true →
  noMatchInside tail (L +:+ "," +:+ C +:+ "): error " +:+ ("TS" +:+ D) +:+ ": " +:+ m)
  = true.
Proof.
  intros Hhead HL HC HD Hm.
  replace (L +:+ "," +:+ C +:+ "): error " +:+ ("TS" +:+ D) +:+ ": " +:+ m)
    with ((L +:+ "," +:+ C +:+ "): error TS" +:+ D +:+ ": ") +:+ m)
    by (rewrite ?append_assoc; simpl; by rewrite ?append_assoc).
  apply noMatchInside_app; [done| |done].
  rewrite !allChars_app, (digit_notParen L HL), (digit_notParen C HC),
    (digit_notParen D HD). reflexivity.
Qed.

Lemma matchLine_printed (tail : string → option Captures) (d : Diagnostic) (D : string) :
  (∀ s, stopsAt (Ascii.eqb "("%char) s → tail s = None) →
  (tail ("(" +:+ toString (dLine d) +:+ "," +:+ toString (dColumn d)
         +:+ "): error " +:+ ("TS" +:+ D) +:+ ": " +:+ dMessage d)
   = Some {| lineNum := toString (dLine d); col := toString (dColumn d);
             codeText := "TS" +:+ D; messageText := dMessage d |}) →
  dCode d = "TS" +:+ D → allChars isDigit D = true →
  0 <= dLine d → 0 <= dColumn d →
  dFile d ≠ "" → allChars isDot (dFile d) = true →
  noMatchInside tail (dMessage d) = true →
  matchLine tail (formatDiagnostic d)
  = Some (dFile d,
          {| lineNum := toString (dLine d); col := toString (dColumn d);
             codeText := dCode d; messageText := dMessage d |}).
Proof.
  intros Hhead Htail Hcode HD HL HC Hf Hdot Hm.
  destruct (toString_digits _ HL) as [HLd _].
  destruct (toString_digits _ HC) as [HCd _].
  unfold matchLine, formatDiagnostic. rewrite Hcode.
  change (dFile d +:+ "(" +:+ toString (dLine d) +:+ "," +:+ toString (dColumn d)
          +:+ "): error " +:+ ("TS" +:+ D) +:+ ": " +:+ dMessage d)
    with (dFile d +:+ String "("%char
            (toString (dLine d) +:+ "," +:+ toString (dColumn d)
             +:+ "): error " +:+ ("TS" +:+ D) +:+ ": " +:+ dMessage d)).
  rewrite (matchFrom_greedy tail (dFile d) "("%char _ _ Hdot Htail).
  - reflexivity.
  - by apply no_later_match.
  - by destruct (dFile d).
Qed.

Lemma wellFormed_inv (d : Diagnostic) :
  wellFormed d = true →
  (∃ D, dCode d = "TS" +:+ D ∧ D ≠ "" ∧ allChars isDigit D = true)
  ∧ printable (dFile d) = true ∧ printable (dMessage d) = true
  ∧ noMatchInside looseTail (dMessage d) = true
  ∧ noMatchInside strictTail (dMessage d) = true
  ∧ 0 <= dLine d < 2 ^ 53 ∧ 0 <= dColumn d < 2 ^ 53.
Proof.
  unfold wellFormed, safeIndex. intros H.
  repeat (apply andb_true_iff in H as [H ?]).
  repeat split; try done; try lia.
  by apply tsCode_inv.
Qed.

Lemma format_includes (d : Diagnostic) (D : string) :
  dCode d = "TS" +:+ D → includes ": error TS" (formatDiagnostic d) = true.
Proof.
  intros Hcode. unfold formatDiagnostic. rewrite Hcode.
  replace (dFile d +:+ "(" +:+ toString (dLine d) +:+ "," +:+ toString (dColumn d)
           +:+ "): error " +:+ ("TS" +:+ D) +:+ ": " +:+ dMessage d)
    with ((dFile d +:+ "(" +:+ toString (dLine d) +:+ "," +:+ toString (dColumn d)
           +:+ ")") +:+ ": error TS" +:+ (D +:+ ": " +:+ dMessage d))
    by (rewrite ?append_assoc; simpl; by rewrite ?append_assoc).
  apply includes_app.
Qed.

Lemma format_trim (d : Diagnostic) :
  printable (dFile d) = true → printable (dMessage d) = true →
  trim (formatDiagnostic d) = formatDiagnostic d.
Proof.
  intros Hf Hm.
  destruct (printable_inv _ Hf) as (Hfn & _ & Hfs & _).
  destruct (printable_inv _ Hm) as (Hmn & _ & _ & Hme).
  unfold trim, formatDiagnostic. rewrite (trimStart_app _ _ Hfn Hfs).
  replace (dFile d +:+ "(" +:+ toString (dLine d) +:+ "," +:+ toString (dColumn d)
           +:+ "): error " +:+ dCode d +:+ ": " +:+ dMessage d)
    with ((dFile d +:+ "(" +:+ toString (dLine d) +:+ "," +:+ toString (dColumn d)
           +:+ "): error " +:+ dCode d +:+ ": ") +:+ dMessage d)
    by (rewrite ?append_assoc; simpl; by rewrite ?append_assoc).
  by apply trimEnd_app.
Qed.

Lemma format_one_line (d : Diagnostic) :
  wellFormed d = true → noLineFeed (formatDiagnostic d) = true.
Proof.
  intros H. destruct (wellFormed_inv d H)
    as ((D & Hcode & _ & HD) & Hf & Hm & _ & _ & [HL _] & [HC _]).
  destruct (printable_inv _ Hf) as (_ & Hfd & _ & _).
  destruct (printable_inv _ Hm) as (_ & Hmd & _ & _).
  destruct (toString_digits _ HL) as [HLd _].
  destruct (toString_digits _ HC) as [HCd _].
  assert (Hdot : ∀ s, allChars isDot s = true →
                      allChars (fun c => negb (Ascii.eqb c "010"%char)) s = true).
  { intros s. apply allChars_impl. intros c Hc.
    destruct c as [[] [] [] [] [] [] [] []]; try done. }
  assert (Hdig : ∀ s, allChars isDigit s = true →
                      allChars (fun c => negb (Ascii.eqb c "010"%char)) s = true).
  { intros s. apply allChars_impl. intros c Hc.
    destruct c as [[] [] [] [] [] [] [] []]; try done. }
  unfold noLineFeed, formatDiagnostic. rewrite Hcode.
  rewrite !allChars_app, (Hdot _ Hfd), (Hdot _ Hmd), (Hdig _ HLd), (Hdig _ HCd),
    (Hdig _ HD). reflexivity.
Qed.

Lemma parseTypeScriptErrorLine_printed (d : Diagnostic) :
  wellFormed d = true →
  parseTypeScriptErrorLine (formatDiagnostic d) = Some (expected true d).
Proof.
  intros H. destruct (wellFormed_inv d H)
    as ((D & Hcode & HDn & HD) & Hf & Hm & Hloose & _ & [HL HLs] & [HC HCs]).
  destruct (printable_inv _ Hf) as (Hfn & Hfd & Hfs & Hfe).
  destruct (printable_inv _ Hm) as (Hmn & Hmd & Hms & Hme).
  destruct (toString_digits _ HL) as [HLd HLn].
  destruct (toString_digits _ HC) as [HCd HCn].
  unfold parseTypeScriptErrorLine.
  rewrite (format_includes d D Hcode).
  rewrite (matchLine_printed looseTail d D looseTail_head
             (looseTail_header _ _ _ _ HLd HLn HCd HCn HD HDn Hmn Hmd Hms)
             Hcode HD HL HC Hfn Hfd Hloose).
  cbn [lineNum col codeText messageText]. unfold expected, trim.
  rewrite Hfs, Hfe, Hms, Hme, !parseInt_toString by (split; assumption).
  fold (trim (formatDiagnostic d)). by rewrite (format_trim d Hf Hm).
Qed.

Lemma parseErrorLine_printed (d : Diagnostic) :
  wellFormed d = true →
  parseErrorLine (formatDiagnostic d) = Some (expected false d).
Proof.
  intros H. destruct (wellFormed_inv d H)
    as ((D & Hcode & HDn & HD) & Hf & Hm & _ & Hstrict & [HL HLs] & [HC HCs]).
  destruct (printable_inv _ Hf) as (Hfn & Hfd & Hfs & Hfe).
  destruct (printable_inv _ Hm) as (Hmn & Hmd & Hms & Hme).
  destruct (toString_digits _ HL) as [HLd HLn].
  destruct (toString_digits _ HC) as [HCd HCn].
  unfold parseErrorLine.
  rewrite (format_includes d D Hcode).
  rewrite (matchLine_printed strictTail d D strictTail_head
             (strictTail_header _ _ _ _ HLd HLn HCd HCn HD HDn Hmn Hmd)
             Hcode HD HL HC Hfn Hfd Hstrict).
  cbn [lineNum col codeText messageText]. unfold expected, trim.
  by rewrite Hfs, Hfe, Hms, Hme, !parseInt_toString by (split; assumption).
Qed.

Lemma pushMatches_input (input : list InputLine) :
  Forall (fun l => admissible l = true) input →
  pushMatches parseTypeScriptErrorLine (render <$> input)
  = expected true <$> printedOf input
  ∧ pushMatches parseErrorLine (render <$> input)
    = expected false <$> printedOf input.
Proof.
  induction input as [|l input IH]; intros H; [done|].
  inversion H as [|? ? Hl Hrest]; subst.
  destruct (IH Hrest) as [IH1 IH2]. rewrite fmap_cons.
  destruct l as [d|text]; cbn [pushMatches render printedOf admissible] in *.
  - rewrite (parseTypeScriptErrorLine_printed d Hl),
      (parseErrorLine_printed d Hl), IH1, IH2. done.
  - unfold unmatched in Hl.
    apply andb_true_iff in Hl as [Hl H2]. apply andb_true_iff in Hl as [_ H1].
    apply bool_decide_eq_true_1 in H1, H2. by rewrite H1, H2, IH1, IH2.
Qed.

Lemma render_one_line (input : list InputLine) :
  Forall (fun l => admissible l = true) input →
  Forall (fun l => allChars (fun c => negb (Ascii.eqb c "010"%char)) l = true)
         (render <$> input).
Proof.
  intros H. apply Forall_fmap. eapply Forall_impl; [exact H|].
  intros [d|text] Hl; simpl in *.
  - by apply format_one_line.
  - unfold unmatched in Hl.
    apply andb_true_iff in Hl as [Hl _]. by apply andb_true_iff in Hl as [Hl _].
Qed.

(** C6, as the code has it. A text of lines, each either a printed
    diagnostic that is well formed (code [TS] and digits; path and message
    not empty, on one line, trimmed; no place in the message at which the
    pattern behind the path matches; line and column non-negative safe
    integers) or a line the patterns do not match, parses to exactly the
    printed diagnostics, in order and field by field; the other lines are
    skipped.  A line that does not hold [": error TS"] is among the lines
    the patterns do not match, whatever else it holds. *)
Theorem C6_parse_round_trip (input : list InputLine) :
  Forall (fun l => admissible l = true) input →
  parseTypeScriptErrors (joinLines (render <$> input))
  = expected true <$> printedOf input
  ∧ parseErrors (joinLines (render <$> input))
    = expected false <$> printedOf input
  ∧ length (parseTypeScriptErrors (joinLines (render <$> input)))
    = length (printedOf input)
  ∧ ∀ text, noLineFeed text = true → includes ": error TS" text = false →
            unmatched text = true.
Proof.
  intros H. unfold parseTypeScriptErrors, parseErrors.
  destruct (pushMatches_input input H) as [H1 H2].
  pose proof (render_one_line input H) as Hlines.
  assert (Hskip : ∀ text, noLineFeed text = true →
                          includes ": error TS" text = false →
                          unmatched text = true).
  { intros text Hlf Hno. unfold unmatched, parseTypeScriptErrorLine, parseErrorLine.
    rewrite Hlf, Hno. by rewrite !bool_decide_eq_true_2. }
  destruct input as [|l input].
  - simpl. done.
  - rewrite fmap_cons in *. rewrite (splitLines_joinLines _ _ Hlines).
    rewrite H1, H2. repeat split; try done. by rewrite length_fmap.
Qed.

Lemma C6_parse_round_trip_witness :
  parseTypeScriptErrors (joinLines (render <$> Fixtures.compilerOutput))
  = expected true <$> printedOf Fixtures.compilerOutput
  ∧ parseErrors (joinLines (render <$> Fixtures.compilerOutput))
    = expected false <$> printedOf Fixtures.compilerOutput
  ∧ length (parseTypeScriptErrors (joinLines (render <$> Fixtures.compilerOutput)))
    = length (printedOf Fixtures.compilerOutput)
  ∧ ∀ text, noLineFeed text = true → includes ": error TS" text = false →
            unmatched text = true.
Proof.
  apply (C6_parse_round_trip Fixtures.compilerOutput).
  repeat constructor; vm_compute; reflexivity.
Defined.

(** A diagnostic printed by the grammar with the alphanumeric code [E1]:
    one line goes in, no record comes out of either parser. *)
Lemma C6_counterexample :
  alnumToken (dCode Fixtures.lintFinding) = true
  ∧ formatDiagnostics [Fixtures.lintFinding] = "a.ts(1,1): error E1: m"
  ∧ parseTypeScriptErrors (formatDiagnostics [Fixtures.lintFinding]) = []
  ∧ parseErrors (formatDiagnostics [Fixtures.lintFinding]) = []
  ∧ length (parseTypeScriptErrors (formatDiagnostics [Fixtures.lintFinding]))
    ≠ length [Fixtures.lintFinding].
Proof. vm_compute. repeat split; congruence. Qed.

(** A code of another shape does not by itself make a line unmatched: the
    patterns are not anchored at the code, and a header in the message is
    matched instead. *)
Example code_of_another_shape :
  parseTypeScriptErrors "a.ts(1,1): error E1: b(2,3): error TS5: c"
  = [{| file := "a.ts(1,1): error E1: b"; line := Some 2; column := Some 3;
        code := "TS5"; message := "c";
        rawError := Some "a.ts(1,1): error E1: b(2,3): error TS5: c" |}]
  ∧ parseErrors "a.ts(1,1): error E1: b(2,3): error TS5: c"
    = [{| file := "a.ts(1,1): error E1: b"; line := Some 2; column := Some 3;
          code := "TS5"; message := "c"; rawError := None |}].
Proof. vm_compute. split; reflexivity. Qed.

(** The first group is greedy: a message that holds a second header moves
    the end of the path behind the first one. *)
Example greedy_first_group :
  parseTypeScriptErrors "a.ts(1,2): error TS1: x(3,4): error TS2: y"
  = [{| file := "a.ts(1,2): error TS1: x"; line := Some 3; column := Some 4;
        code := "TS2"; message := "y";
        rawError := Some "a.ts(1,2): error TS1: x(3,4): error TS2: y" |}].
Proof. vm_compute. reflexivity. Qed.

(** Path and message come back trimmed. *)
Example fields_are_trimmed :
  parseErrors " a.ts(1,2): error TS1: x  "
  = [{| file := "a.ts"; line := Some 1; column := Some 2; code := "TS1";
        message := "x"; rawError := None |}].
Proof. vm_compute. reflexivity. Qed.

(** The ranks [calculatePriority] gives the codes of the four classes. *)
Lemma calculatePriority_table (message : string) :
  calculatePriority "TS1005" message = 1
  ∧ calculatePriority "TS2307" message = 2
  ∧ calculatePriority "TS7006" message = 3
  ∧ calculatePriority "TS6133" message = 4
  ∧ calculatePriority "TS9999" message = 5.
Proof. repeat split; reflexivity. Qed.

End ParserFacts.

(** ** More on the orchestrator *)

Section GroupingFacts.
Import Runtime ErrorAnalyzer Orchestrator.

Lemma errorsOf_lengths (errors : list AnalyzedError) :
  (length (errorsOf SYNTAX errors) + length (errorsOf IMPORT errors)
   + length (errorsOf TYPE errors) + length (errorsOf UNUSED errors)
   + length (errorsOf OTHER errors))%nat
  = length errors.
Proof.
  unfold errorsOf. induction errors as [|e errors IH]; [done|].
  cbn [List.filter]. destruct (rootCause (category e)); simpl; lia.
Qed.

Lemma errorsOf_all (rc : ErrorRootCause) (errors : list AnalyzedError) :
  Forall (fun e => rootCause (category e) = rc) (errorsOf rc errors).
Proof.
  unfold errorsOf. induction errors as [|e errors IH]; cbn [List.filter]; [done|].
  destruct (bool_decide (rootCause (category e) = rc)) eqn:He; [|done].
  constructor; [by apply bool_decide_eq_true_1 in He|done].
Qed.

(** X1. [groupErrorsByRootCause] is a partition of its input: the group of a
    root cause holds exactly the errors of that cause, in input order; a
    cause without an error has no key (so no group is ever empty); and the
    sizes of the groups add up to the number of errors. *)
Theorem X1_groups_partition (errors : list AnalyzedError) :
  (∀ rc, groupErrorsByRootCause errors !! rc
         = if hasCause rc errors then Some (errorsOf rc errors) else None)
  ∧ (∀ rc g, groupErrorsByRootCause errors !! rc = Some g →
             g ≠ [] ∧ Forall (fun e => rootCause (category e) = rc) g)
  ∧ (length (groupOf (groupErrorsByRootCause errors) SYNTAX)
     + length (groupOf (groupErrorsByRootCause errors) IMPORT)
     + length (groupOf (groupErrorsByRootCause errors) TYPE)
     + length (groupOf (groupErrorsByRootCause errors) UNUSED)
     + length (groupOf (groupErrorsByRootCause errors) OTHER))%nat
    = length errors.
Proof.
  assert (Hgroup : ∀ rc, groupOf (groupErrorsByRootCause errors) rc
                         = errorsOf rc errors).
  { intros rc. unfold groupOf. rewrite groupErrorsByRootCause_lookup.
    destruct (hasCause rc errors) eqn:H; [done|]. simpl.
    unfold hasCause, errorsOf in *. clear -H.
    induction errors as [|e errors IH]; [done|]. simpl in *.
    apply orb_false_iff in H as [He H]. rewrite He. by apply IH. }
  split; [apply groupErrorsByRootCause_lookup|]. split.
  - intros rc g. rewrite groupErrorsByRootCause_lookup.
    destruct (hasCause rc errors) eqn:H; [|done]. intros [= <-].
    split; [|apply errorsOf_all].
    pose proof (errorsOf_nonempty errors rc H) as Hn.
    intros Hnil. rewrite Hnil in Hn. done.
  - rewrite !Hgroup. apply errorsOf_lengths.
Qed.

End GroupingFacts.

Section RetryBounds.
Import Runtime ErrorAnalyzer Orchestrator.




(** A phase with one retry whose fixer rejects with [null]: the second
    attempt is the last, and the method throws. *)
Example retry_throws_on_null :
  executePhaseWithRetry Samples.nullPhase (initialState Fixtures.project)
  = (Throw "Cannot read properties of null (reading 'message')",
     {| world := Fixtures.project; executionHistory := [];
        console := [LogAttempt "Type Fixes" 1 2; LogAttempt "Type Fixes" 2 2] |}).
Proof. vm_compute. reflexivity. Qed.

Lemma retryLoop_first_success (phase : ExecutionPhase) (k : nat) :
  ∀ (turns : nat) (attempt : Z) (s : RunState) (r : ExecutionResult) (w' : World),
    (k < turns)%nat →
    attempt + Z.of_nat turns = retries phase + 2 →
    (∀ i, (i < k)%nat →
          fails (fst (executeFunction phase
                        (Nat.iter i (fun w => snd (executeFunction phase w))
                                  (world s)))) = true) →
    executeFunction phase
      (Nat.iter k (fun w => snd (executeFunction phase w)) (world s))
    = (Resolved r, w') →
    success r = true →
    retryLoop phase turns attempt s =
      (Ok r, {| world := w'; executionHistory := executionHistory s;
                console := console s ++ attemptLines phase (S k) attempt |}).
Proof.
  induction k as [|k IH]; intros turns attempt s r w' Hk Hn Hfail Hok Hr.
  - destruct turns as [|turns]; [lia|]. cbn [retryLoop]. unfold_monad.
    cbn [Nat.iter] in Hok.
    by rewrite (attemptPhase_succeeds phase attempt s r w' Hok Hr).
  - destruct turns as [|turns]; [lia|]. cbn [retryLoop]. unfold_monad.
    destruct (attemptPhase_fails phase attempt s) as (r0 & Ha & _).
    { apply (Hfail 0%nat). lia. }
    rewrite Ha.
    replace (attempt =? retries phase + 1) with false
      by (symmetry; apply Z.eqb_neq; lia).
    rewrite (IH turns (attempt + 1) _ r w'); try lia.
    + cbn [executionHistory console attemptLines]. by rewrite <- app_assoc.
    + intros i Hi. assert (Hsi : (S i < S k)%nat) by lia.
      pose proof (Hfail (S i) Hsi) as H. rewrite Nat.iter_succ_r in H. exact H.
    + rewrite Nat.iter_succ_r in Hok. exact Hok.
    + done.
Qed.

(** X3. Retrying stops at the first success: when the first [k] calls of
    the fixer fail and call [k + 1] succeeds, within the bound, the phase
    returns that result after exactly [k + 1] calls. *)
Theorem X3_retry_stops_at_success (phase : ExecutionPhase) (k : nat) (s : RunState)
        (r : ExecutionResult) (w' : World) :
  (k < Z.to_nat (retries phase + 1))%nat →
  (∀ i, (i < k)%nat →
        fails (fst (executeFunction phase
                      (Nat.iter i (fun w => snd (executeFunction phase w))
                                (world s)))) = true) →
  executeFunction phase
    (Nat.iter k (fun w => snd (executeFunction phase w)) (world s))
  = (Resolved r, w') →
  success r = true →
  executePhaseWithRetry phase s =
    (Ok r, {| world := w'; executionHistory := executionHistory s;
              console := console s ++ attemptLines phase (S k) 1 |}).
Proof.
  intros Hk Hfail Hok Hr. unfold executePhaseWithRetry.
  apply retryLoop_first_success; try done. lia.
Qed.

End RetryBounds.

Section RetryWitnesses.
Import Runtime ErrorAnalyzer Orchestrator.

Lemma X3_retry_stops_at_success_witness :
  executePhaseWithRetry Samples.flakyPhase (initialState Fixtures.emptyWorld) =
    (Ok (plainResult true "done"),
     {| world := writeFile ".fixed" "1" Fixtures.emptyWorld;
        executionHistory := [];
        console := [] ++ attemptLines Samples.flakyPhase 2 1 |}).
Proof.
  apply (X3_retry_stops_at_success Samples.flakyPhase 1
           (initialState Fixtures.emptyWorld) (plainResult true "done")
           (writeFile ".fixed" "1" Fixtures.emptyWorld)).
  - vm_compute. lia.
  - intros i Hi. assert (i = 0%nat) as -> by lia. reflexivity.
  - reflexivity.
  - reflexivity.
Defined.

End RetryWitnesses.

Section BackupFacts.
Import Runtime ErrorAnalyzer Orchestrator.




End BackupFacts.

Section BackupWitnesses.
Import Runtime ErrorAnalyzer Orchestrator.


End BackupWitnesses.

Section RollbackProperties.
Import Runtime ErrorAnalyzer Orchestrator.

Lemma restored_lookup (fs dir : gmap string string) (p : string) :
  restored fs dir !! p
  = match fs !! p with
    | Some c => Some (default c (dir !! p))
    | None => None
    end.
Proof. unfold restored. rewrite map_lookup_imap. by destruct (fs !! p). Qed.

(** X5. [performRollback] never throws and never creates or deletes a
    project file: the set of project paths is the same before and after, a
    file without a backup entry of its own path keeps its content, and the
    backup directory and the history are left alone.  Without a backup
    directory it changes nothing at all, and rolling back a second time
    changes nothing more. *)
Theorem X5_rollback_keeps_paths (s : RunState) :
  ∃ s',
    performRollback s = (Ok tt, s')
    ∧ dom (files (world s')) = dom (files (world s))
    ∧ backupDir (world s') = backupDir (world s)
    ∧ executionHistory s' = executionHistory s
    ∧ (∀ p, backupDir (world s) ≫= (fun dir => dir !! p) = None →
            files (world s') !! p = files (world s) !! p)
    ∧ (backupDir (world s) = None → world s' = world s)
    ∧ world (snd (performRollback s')) = world s'.
Proof.
  eexists. split; [apply performRollback_spec|].
  rewrite performRollback_spec. cbn [world executionHistory snd].
  unfold rolledBackWorld. destruct (backupDir (world s)) as [dir|] eqn:Hd.
  - cbn [files backupDir]. repeat split; try done.
    + apply set_eq. intros p. rewrite !elem_of_dom, restored_lookup.
      destruct (files (world s) !! p); split; intros [? ?]; eauto; done.
    + intros p Hp. cbn [mbind option_bind] in Hp.
      rewrite restored_lookup, Hp. by destruct (files (world s) !! p).
    + f_equal. apply map_eq. intros p. rewrite !restored_lookup.
      destruct (files (world s) !! p); [|done]. by destruct (dir !! p).
  - rewrite Hd. repeat split; done.
Qed.

End RollbackProperties.

Section BuiltinRun.
Import Runtime ErrorAnalyzer Orchestrator.
Variable execSync : string -> option Z -> World -> ExecOutcome * World.
Variable this : ExecutionOrchestrator.







End BuiltinRun.

Section AnyRun.
Import Runtime ErrorAnalyzer Orchestrator.
Variable execSync : string -> option Z -> World -> ExecOutcome * World.
Variable this : ExecutionOrchestrator.

(** The loop over the phases only ever appends to the history. *)
Lemma runPhases_appends (phases : list ExecutionPhase) :
  ∀ s res s', runPhases this phases s = (res, s') →
              ∃ new, executionHistory s' = executionHistory s ++ new.
Proof.
  induction phases as [|p phases IH]; intros s res s' Hrun.
  - simpl in Hrun. unfold_monad. injection Hrun as _ <-. exists [].
    by rewrite app_nil_r.
  - cbn [runPhases] in Hrun. unfold pushHistory in Hrun. unfold_monad.
    unfold executePhaseWithRetry in Hrun.
    destruct (retryLoop_frame p (Z.to_nat (retries p + 1)) 1 s)
      as (r & s1 & n & Hp & _ & Hh).
    rewrite Hp in Hrun. destruct r as [r|e].
    + destruct (negb (success r) && negb (continueOnValidationFailure (config this))).
      * injection Hrun as _ <-. exists [r]. cbn [executionHistory]. by rewrite Hh.
      * apply IH in Hrun as [new Hnew]. exists (r :: new).
        rewrite Hnew. cbn [executionHistory]. by rewrite Hh, <- app_assoc.
    + injection Hrun as _ <-. exists []. by rewrite Hh, app_nil_r.
Qed.

(** X8. [executeOrchestration] never throws, whatever the phases do: every
    failure comes back as a result with [success] false and a message that
    starts with "Orchestration failed: ".  The history only grows.  A
    rollback happens only in a failed run and only with [rollbackOnFailure]
    and [backupEnabled] both set. *)
Theorem X8_run_never_throws (plan : list AnalyzedError → list ExecutionPhase)
        (errors : list AnalyzedError) (s : RunState) :
  ∃ r s' new,
    executeOrchestrationWith execSync this plan errors s = (Ok r, s')
    ∧ executionHistory s' = executionHistory s ++ new
    ∧ (success r = false → ∃ e, message r = "Orchestration failed: " +:+ e)
    ∧ (rolledBack s = false → rolledBack s' = true →
       success r = false
       ∧ rollbackOnFailure (config this) = true
       ∧ backupEnabled (config this) = true).
Proof.
  assert (Hh : executionHistory (afterBackup this errors s) = executionHistory s).
  { unfold afterBackup. by destruct (backupEnabled (config this)). }
  assert (Hc : rolledBack (afterBackup this errors s) = rolledBack s).
  { unfold afterBackup. by destruct (backupEnabled (config this)). }
  destruct (runPhases this (plan errors) (afterBackup this errors s))
    as [[[]|e] s1] eqn:Hrun.
  - destruct (orchestration_completes execSync this plan errors s s1 Hrun)
      as (r & Hr & Hs & _).
    destruct (runPhases_appends _ _ _ _ Hrun) as [new Hnew].
    exists r, (afterValidation execSync this s1), new.
    split; [exact Hr|]. rewrite Hh in Hnew.
    split; [unfold afterValidation; by destruct (validationEnabled (config this))|].
    split; [congruence|].
    intros Hs0 Hs'. exfalso.
    rewrite <- Hc in Hs0. pose proof (runPhases_frame this _ _ _ _ Hrun Hs0) as H1.
    unfold afterValidation, rolledBack in *.
    destruct (validationEnabled (config this)); cbn [console] in Hs'; congruence.
  - destruct (orchestration_aborts execSync this plan errors s s1 e Hrun)
      as (r & Hr & Hs & Hm).
    destruct (runPhases_appends _ _ _ _ Hrun) as [new Hnew].
    eexists r, _, new. split; [exact Hr|]. rewrite Hh in Hnew.
    split.
    { destruct (rollbackOnFailure (config this) && backupEnabled (config this));
        [rewrite performRollback_spec|]; done. }
    split; [eauto|].
    intros Hs0 Hs'. split; [done|].
    rewrite <- Hc in Hs0. pose proof (runPhases_frame this _ _ _ _ Hrun Hs0) as H1.
    destruct (rollbackOnFailure (config this)), (backupEnabled (config this));
      cbn [andb] in Hs'; try done; congruence.
Qed.

(** X9. [performFinalValidation] counts the lines of the compiler output
    that hold " - error TS".  When the compiler fails and no line of its
    output holds that text (as with the plain [file(line,col): error TS...]
    lines), the validation reports success with zero remaining errors. *)
Theorem X9_final_validation_blind (s : RunState) (stdout stderr emessage : string)
        (w' : World) :
  execSync "npx tsc --noEmit --skipLibCheck" None (world s)
  = (ExecError stdout stderr emessage, w') →
  List.filter (JS.includes " - error TS")
              (JS.splitLines (orElse stdout (orElse stderr ""))) = [] →
  performFinalValidation execSync s
  = (Ok {| success := true;
           message := "Validation found 0 remaining errors";
           errorCount := Some 0; fixedCount := None; executionTime := None;
           details := None |},
     {| world := w'; executionHistory := executionHistory s;
        console := console s |}).
Proof.
  intros Hexec Hlines. unfold performFinalValidation, setWorld. unfold_monad.
  cbn [world]. rewrite Hexec. cbn [fst snd]. by rewrite Hlines.
Qed.

End AnyRun.

Section AnyRunWitnesses.
Import Runtime ErrorAnalyzer Orchestrator.

Lemma X9_final_validation_blind_witness :
  performFinalValidation Samples.compilerFails (initialState Fixtures.project)
  = (Ok {| success := true;
           message := "Validation found 0 remaining errors";
           errorCount := Some 0; fixedCount := None; executionTime := None;
           details := None |},
     {| world := Fixtures.project; executionHistory := []; console := [] |}).
Proof.
  apply (X9_final_validation_blind Samples.compilerFails
           (initialState Fixtures.project)
           "src/App.tsx(12,5): error TS2339: Property 'x' does not exist on type 'Y'."
           "" "Command failed: npx tsc --noEmit --skipLibCheck" Fixtures.project).
  - reflexivity.
  - vm_compute. reflexivity.
Defined.

End AnyRunWitnesses.

(** ** More on the validation engine *)

Section CheckListFacts.
Import Runtime Validation ValidationMore.

(** X10. [removeValidationCheck] removes the first check of the given name
    and no other (a later check of the same name stays), and returns true;
    when no check has the name it returns false and leaves the list as it
    is. *)
Theorem X10_remove_first_match (checks : list ValidationCheck) (n : string) :
  let (rest, found) := removeValidationCheck checks n in
  found = bool_decide (n ∈ (name <$> checks))
  ∧ (found = false → rest = checks)
  ∧ (found = true →
     ∃ l1 c l2, checks = l1 ++ c :: l2 ∧ name c = n ∧ (n ∉ name <$> l1)
                ∧ rest = l1 ++ l2).
Proof.
  induction checks as [|c checks IH]; cbn [removeValidationCheck].
  - repeat split; try done. 
  - destruct (String.eqb (name c) n) eqn:Hc.
    + apply String.eqb_eq in Hc. repeat split; try done.
      * symmetry. apply bool_decide_eq_true_2. rewrite fmap_cons, Hc. by left.
      * intros _. exists [], c, checks. repeat split; try done.
        rewrite fmap_nil. apply not_elem_of_nil.
    + apply String.eqb_neq in Hc.
      destruct (removeValidationCheck checks n) as [rest found].
      destruct IH as (Hfound & Hno & Hyes). repeat split.
      * rewrite Hfound. apply bool_decide_ext. rewrite fmap_cons, elem_of_cons.
        split; [by right|]. intros [Heq|Hin]; [congruence|done].
      * intros Hf. by rewrite (Hno Hf).
      * intros Hf. destruct (Hyes Hf) as (l1 & c' & l2 & -> & Hn & Hl1 & ->).
        exists (c :: l1), c', l2. repeat split; try done.
        rewrite fmap_cons, not_elem_of_cons. split; [congruence|done].
Qed.

(** X11. Adding a check whose name is new and removing it by name gives the
    list back. *)
Theorem X11_add_then_remove (checks : list ValidationCheck) (c : ValidationCheck) :
  name c ∉ (name <$> checks) →
  removeValidationCheck (addValidationCheck checks c) (name c) = (checks, true).
Proof.
  unfold addValidationCheck. induction checks as [|c' checks IH]; intros Hnew.
  - simpl. by rewrite String.eqb_refl.
  - rewrite fmap_cons, not_elem_of_cons in Hnew. destruct Hnew as [Hne Hnew].
    cbn [app removeValidationCheck].
    replace (String.eqb (name c') (name c)) with false
      by (symmetry; apply String.eqb_neq; congruence).
    by rewrite (IH Hnew).
Qed.

Lemma X11_add_then_remove_witness :
  removeValidationCheck (addValidationCheck defaultChecks Samples.unitTests)
                        (name Samples.unitTests)
  = (defaultChecks, true).
Proof.
  apply (X11_add_then_remove defaultChecks Samples.unitTests).
  vm_compute. intros H. repeat (apply elem_of_cons in H as [H|H]; [discriminate H|]).
  by apply not_elem_of_nil in H.
Defined.

End CheckListFacts.

Section ValidationRuns.
Import Runtime Validation ValidationMore.
Variable execSync : string -> option Z -> World -> ExecOutcome * World.

(** X12. With the checks the engine starts with, validation succeeds
    exactly when the compiler command exits normally: a failing ESLint or
    build check (neither is required) never fails the validation, and a
    failing compile stops it with that one result. *)
Theorem X12_default_checks (s : RunState) :
  ∃ summary s',
    validate execSync defaultChecks s = (Ok summary, s')
    ∧ (overallSuccess summary = true ↔
       ∃ out w, execSync "npx tsc --noEmit --skipLibCheck" (Some 60000) (world s)
                = (ExecOk out, w))
    ∧ (overallSuccess summary = true → totalChecks summary = 3)
    ∧ (overallSuccess summary = false →
       totalChecks summary = 1 ∧ failedChecks summary = 1
       ∧ console s' = console s ++ [LogRunning "TypeScript Compilation"]).
Proof.
  unfold validate, defaultChecks, runChecks, runValidationCheck, log, dateNow, setWorld.
  unfold_monad. cbn [name type command timeout required world console Z.mul Pos.mul
                     Pos.add Pos.succ].
  change (60 * 1000) with 60000.
  destruct (execSync "npx tsc --noEmit --skipLibCheck" (Some 60000) (world s))
    as [o1 w1] eqn:H1.
  destruct o1 as [out1|o1 e1 m1]; cbn.
  - destruct (execSync _ _ w1) as [o2 w2]. destruct o2; cbn;
      destruct (execSync _ _ w2) as [o3 w3]; destruct o3; cbn;
      eexists _, _; (split; [reflexivity|]); cbn; repeat split; eauto; done.
  - eexists _, _. split; [reflexivity|]. cbn. repeat split; try done.
    intros (out & w & Heq). discriminate Heq.
Qed.

(** X13. [quickSyntaxCheck] runs the first check of type [syntax] and
    nothing else, and returns whether its command exited normally; when
    the list has no such check it returns true without running anything. *)
Theorem X13_quick_syntax_check (checks : list ValidationCheck) (s : RunState) :
  ∃ b s',
    quickSyntaxCheck execSync checks s = (Ok b, s')
    ∧ ((∀ c, c ∈ checks → type c ≠ syntax) → b = true ∧ s' = s)
    ∧ (∀ l1 c l2, checks = l1 ++ c :: l2 → type c = syntax →
         (∀ c', c' ∈ l1 → type c' ≠ syntax) →
         console s' = console s ++ [LogRunning (name c)]
         ∧ (b = true ↔
            ∃ out w, execSync (command c) (Some (timeout c * 1000)) (world s)
                     = (ExecOk out, w))).
Proof.
  unfold quickSyntaxCheck.
  destruct (List.find isSyntaxCheck checks) as [c0|] eqn:Hfind.
  - assert (Hfirst : ∀ l1 c l2, checks = l1 ++ c :: l2 → type c = syntax →
              (∀ c', c' ∈ l1 → type c' ≠ syntax) → c = c0).
    { intros l1 c l2 -> Hc Hl1. clear - Hfind Hc Hl1.
      induction l1 as [|x l1 IH]; simpl in Hfind.
      - unfold isSyntaxCheck in Hfind at 1. rewrite Hc in Hfind. congruence.
      - assert (Hx : isSyntaxCheck x = false).
        { unfold isSyntaxCheck. specialize (Hl1 x ltac:(by left)).
          by destruct (type x). }
        rewrite Hx in Hfind. apply IH; [done|].
        intros c' Hin. apply Hl1. by right. }
    apply find_some in Hfind as [Hin Hsyn].
    unfold runValidationCheck, log, dateNow, setWorld. unfold_monad. simpl.
    destruct (execSync (command c0) (Some (timeout c0 * 1000)) (world s))
      as [o w] eqn:Hexec.
    destruct o; simpl; eexists _, _; (split; [reflexivity|]); split.
    + intros Hno. exfalso. apply list_elem_of_In in Hin.
      apply (Hno c0 Hin). unfold isSyntaxCheck in Hsyn. by destruct (type c0).
    + intros l1 c l2 Hs Hc Hl1. rewrite (Hfirst l1 c l2 Hs Hc Hl1), Hexec.
      simpl. repeat split; eauto.
    + intros Hno. exfalso. apply list_elem_of_In in Hin.
      apply (Hno c0 Hin). unfold isSyntaxCheck in Hsyn. by destruct (type c0).
    + intros l1 c l2 Hs Hc Hl1. rewrite (Hfirst l1 c l2 Hs Hc Hl1), Hexec.
      simpl. repeat split; try done. intros (out & w' & Heq). discriminate Heq.
  - exists true, s. unfold_monad. split; [reflexivity|]. split; [done|].
    intros l1 c l2 -> Hc _. exfalso.
    pose proof (find_none _ _ Hfind c) as Hn.
    rewrite in_app_iff in Hn. specialize (Hn (or_intror (or_introl eq_refl))).
    unfold isSyntaxCheck in Hn. rewrite Hc in Hn. discriminate Hn.
Qed.

(** X14. A syntax check whose command fails is reported as failed, but
    when no line of the command's output contains [" - error TS"] (the
    compiler prints ["): error TS"]) the message of the failed result
    reads "TypeScript compilation passed". *)
Theorem X14_failed_syntax_check_message
  (c : ValidationCheck) (s : RunState) (out err msg : string) (w' : World) :
  type c = syntax →
  execSync (command c) (Some (timeout c * 1000)) (world s)
    = (ExecError out err msg, w') →
  List.filter (JS.includes " - error TS")
              (JS.splitLines (orElse out (orElse err (orElse msg "")))) = [] →
  runValidationCheck execSync c s
  = (Ok {| check := c; success := false;
           message := "TypeScript compilation passed";
           executionTime := now w' - now (world s) |},
     {| world := w'; console := console s ++ [LogRunning (name c)] |}).
Proof.
  intros Hc Hexec Hlines.
  unfold runValidationCheck, log, dateNow, setWorld. unfold_monad. simpl.
  rewrite Hexec. simpl.
  unfold analyzeValidationError. rewrite Hc.
  unfold analyzeSyntaxErrors. by rewrite Hlines.
Qed.

End ValidationRuns.

Section ValidationWitnesses.
Import Runtime Validation ValidationMore.

Lemma X14_failed_syntax_check_message_witness :
  runValidationCheck Samples.compilerFails
    {| name := "TypeScript Compilation"; type := syntax;
       command := "npx tsc --noEmit --skipLibCheck"; timeout := 60;
       required := true |}
    {| world := Fixtures.project; console := [] |}
  = (Ok {| check := {| name := "TypeScript Compilation"; type := syntax;
                       command := "npx tsc --noEmit --skipLibCheck"; timeout := 60;
                       required := true |};
           success := false;
           message := "TypeScript compilation passed";
           executionTime := 0 |},
     {| world := Fixtures.project;
        console := [LogRunning "TypeScript Compilation"] |}).
Proof.
  exact (X14_failed_syntax_check_message Samples.compilerFails
           {| name := "TypeScript Compilation"; type := syntax;
              command := "npx tsc --noEmit --skipLibCheck"; timeout := 60;
              required := true |}
           {| world := Fixtures.project; console := [] |}
           "src/App.tsx(12,5): error TS2339: Property 'x' does not exist on type 'Y'."
           "" "Command failed: npx tsc --noEmit --skipLibCheck" Fixtures.project
           eq_refl eq_refl eq_refl).
Defined.

End ValidationWitnesses.

Section RecommendationFacts.
Import Runtime Validation ValidationMore.

Lemma recommendations_fold (rs : list ValidationResult) :
  ∀ acc, foldl (fun recs result => recs ++ recommendationFor result) acc rs
         = acc ++ concat (recommendationFor <$> rs).
Proof.
  induction rs as [|r rs IH]; intros acc; simpl.
  - by rewrite app_nil_r.
  - by rewrite IH, app_assoc.
Qed.

(** X15. The recommendations are the one line "All validation checks
    passed" exactly when every result either passed or belongs to a check
    of type [test]: failed tests alone still give the success line. *)
Theorem X15_recommendations_blind_to_tests (rs : list ValidationResult) :
  generateRecommendations rs = [allPassedMessage]
  ↔ ∀ r, r ∈ rs → success r = true ∨ type (check r) = test.
Proof.
  unfold generateRecommendations. rewrite recommendations_fold, app_nil_l.
  induction rs as [|r rs IH]; simpl.
  - split; [|done]. intros _ r Hin. by apply elem_of_nil in Hin.
  - assert (Hcases : (recommendationFor r = []
                      ∧ (success r = true ∨ type (check r) = test))
                     ∨ (∃ m, recommendationFor r = [m] ∧ m ≠ allPassedMessage
                             ∧ success r = false ∧ type (check r) ≠ test)).
    { unfold recommendationFor. destruct (success r); [left; by eauto|].
      destruct (type (check r)); [right|right|right|left; by eauto];
        eexists; repeat split; done. }
    destruct Hcases as [[-> Hr]|(m & -> & Hm & Hs & Ht)].
    + rewrite app_nil_l, IH. split.
      * intros H r' Hin. apply elem_of_cons in Hin as [->|Hin]; [done|]. by apply H.
      * intros H r' Hin. apply H. by right.
    + simpl. split.
      * intros H. exfalso. injection H as H _. by apply Hm.
      * intros H. destruct (H r ltac:(by left)) as [H'|H']; congruence.
Qed.

End RecommendationFacts.

Section LintCount.
Import Runtime Validation ValidationMore JS.
Local Arguments String.append !_ _ : simpl nomatch.

Lemma extractNumber_skip (word pre text : string) :
  allChars (fun c => negb (isDigit c)) pre = true →
  extractNumber (pre +:+ text) word = extractNumber text word.
Proof.
  induction pre as [|c pre IH]; intros H; [done|].
  simpl in H. apply andb_true_iff in H as [Hc Hpre].
  apply negb_true_iff in Hc.
  change (String c pre +:+ text) with (String c (pre +:+ text)).
  cbn [extractNumber span]. rewrite Hc. cbn [isEmpty negb andb].
  by apply IH.
Qed.

Lemma extractNumber_here (word text digits after : string) :
  span isDigit text = (digits, after) → digits ≠ "" →
  startsWith (" " +:+ word) after = true →
  extractNumber text word = parseInt digits.
Proof.
  intros Hspan Hne Hword. destruct text as [|c rest].
  - simpl in Hspan. injection Hspan as <- <-. done.
  - unfold extractNumber; fold extractNumber. rewrite Hspan, Hword.
    by destruct digits.
Qed.

Lemma extractNumber_no_digit (word text : string) :
  allChars (fun c => negb (isDigit c)) text = true →
  extractNumber text word = None.
Proof.
  intros H. rewrite <- (append_nil_r text). by rewrite extractNumber_skip.
Qed.

(** X16. The lint message carries the number that stands before
    [" problems"] in ESLint's summary line when no digit precedes that
    number in the output and the number is a safe integer (below 2^53,
    where [parseInt] is exact); an output without any digit gives
    "ESLint found 0 problems". *)
Theorem X16_lint_problem_count (pre post : string) (n : Z) :
  0 <= n < 2 ^ 53 →
  allChars (fun c => negb (isDigit c)) pre = true →
  analyzeLintErrors (pre +:+ toString n +:+ " problems" +:+ post)
  = "ESLint found " +:+ toString n +:+ " problems"
  ∧ analyzeLintErrors pre = "ESLint found 0 problems".
Proof.
  intros Hn Hpre. unfold analyzeLintErrors. split.
  - rewrite (extractNumber_skip _ _ _ Hpre).
    destruct (toString_digits n (proj1 Hn)) as [Hd Hne].
    rewrite (extractNumber_here "problem" _ (toString n) (" problems" +:+ post)).
    + by rewrite (parseInt_toString n Hn).
    + by apply span_app.
    + done.
    + done.
  - by rewrite (extractNumber_no_digit _ _ Hpre).
Qed.

Lemma X16_lint_problem_count_witness :
  analyzeLintErrors ("x " +:+ toString 12 +:+ " problems" +:+ " (10 errors, 2 warnings)")
  = "ESLint found " +:+ toString 12 +:+ " problems"
  ∧ analyzeLintErrors "x " = "ESLint found 0 problems".
Proof.
  apply (X16_lint_problem_count "x " " (10 errors, 2 warnings)" 12); [lia|reflexivity].
Defined.

(** From 2^53 + 1 on the number in the message is the double, not the
    number in the output. *)
Example lint_count_is_rounded :
  analyzeLintErrors "x 9007199254740993 problems"
  = "ESLint found 9007199254740992 problems".
Proof. vm_compute. reflexivity. Qed.

End LintCount.

(** ** More on the parsers *)

Section ParsedRecords.
Import JS Diagnostics Records.
Local Arguments String.append !_ _ : simpl nomatch.

Lemma span_inv (p : ascii → bool) (s a b : string) :
  span p s = (a, b) → allChars p a = true ∧ s = a +:+ b.
Proof.
  revert a b. induction s as [|c s IH]; intros a b H; simpl in H.
  - by injection H as <- <-.
  - destruct (p c) eqn:Hc.
    + destruct (span p s) as [a' b'] eqn:Hs. injection H as <- <-.
      destruct (IH a' b' eq_refl) as [Ha ->]. simpl. by rewrite Hc, Ha.
    + by injection H as <- <-.
Qed.

Lemma run_inv (p : ascii → bool) (plus : bool) (s a b : string) :
  run p plus s = Some (a, b) →
  allChars p a = true ∧ s = a +:+ b ∧ (plus = true → a ≠ "").
Proof.
  unfold run. destruct (span p s) as [a' b'] eqn:Hs.
  destruct (plus && isEmpty a') eqn:Hp; [done|].
  intros H. injection H as <- <-.
  destruct (span_inv p s a' b' Hs) as [Ha Heq]. repeat split; try done.
  intros ->. by destruct a'.
Qed.

Lemma restOfLine_inv (s m : string) :
  restOfLine s = Some m → m = s ∧ m ≠ "" ∧ allChars isDot m = true.
Proof.
  unfold restOfLine. destruct (negb (isEmpty s) && allChars isDot s) eqn:H; [|done].
  intros Hm. injection Hm as <-. apply andb_true_iff in H as [Hne Hd].
  repeat split; try done. by destruct s.
Qed.

Lemma spacesThenRest_inv (s m : string) :
  spacesThenRest s = Some m → m ≠ "" ∧ allChars isDot m = true.
Proof.
  revert m. induction s as [|c s IH]; intros m H; simpl in H.
  - by apply restOfLine_inv in H as (_ & ? & ?).
  - destruct (isSpace c).
    + destruct (spacesThenRest s) as [m'|] eqn:Hs.
      * injection H as <-. by apply IH.
      * by apply restOfLine_inv in H as (_ & ? & ?).
    + by apply restOfLine_inv in H as (_ & ? & ?).
Qed.

Lemma digits_run (s a b : string) :
  run isDigit true s = Some (a, b) → digits a = true.
Proof.
  intros H. apply run_inv in H as (Ha & _ & Hne). unfold digits.
  rewrite Ha. specialize (Hne eq_refl). by destruct a.
Qed.

Lemma tsCode_digits (d : string) : digits d = true → tsCode ("TS" +:+ d) = true.
Proof.
  intros H. unfold tsCode. simpl. destruct d; [done|]. exact H.
Qed.

Lemma looseTail_inv (s : string) (caps : Captures) :
  looseTail s = Some caps → capturesOk caps = true.
Proof.
  unfold looseTail. intros H.
  option_step H as t1 eqn E1. option_step H as [l t2] eqn E2.
  option_step H as t3 eqn E3. option_step H as [c t4] eqn E4.
  option_step H as t5 eqn E5. option_step H as [x6 t6] eqn E6.
  option_step H as t7 eqn E7. option_step H as [x8 t8] eqn E8.
  option_step H as t9 eqn E9. option_step H as [d t10] eqn E10.
  option_step H as t11 eqn E11. option_step H as m eqn E12.
  injection H as <-. unfold capturesOk. cbn [lineNum col codeText messageText].
  rewrite (digits_run _ _ _ E2), (digits_run _ _ _ E4).
  replace (tsCode _) with true
    by (symmetry; exact (tsCode_digits d (digits_run _ _ _ E10))).
  by apply spacesThenRest_inv in E12 as [_ ->].
Qed.

Lemma strictTail_inv (s : string) (caps : Captures) :
  strictTail s = Some caps → capturesOk caps = true.
Proof.
  unfold strictTail. intros H.
  option_step H as t1 eqn E1. option_step H as [l t2] eqn E2.
  option_step H as t3 eqn E3. option_step H as [c t4] eqn E4.
  option_step H as t5 eqn E5. option_step H as [d t6] eqn E6.
  option_step H as t7 eqn E7. option_step H as m eqn E8.
  injection H as <-. unfold capturesOk. cbn [lineNum col codeText messageText].
  rewrite (digits_run _ _ _ E2), (digits_run _ _ _ E4).
  replace (tsCode _) with true
    by (symmetry; exact (tsCode_digits d (digits_run _ _ _ E6))).
  by apply restOfLine_inv in E8 as (_ & _ & ->).
Qed.

Lemma matchFrom_some (tail : string → option Captures) (s : string) :
  ∀ pre f caps, matchFrom tail pre s = Some (f, caps) →
  ∃ a b, s = a +:+ b ∧ f = pre +:+ a ∧ allChars isDot a = true
         ∧ tail b = Some caps.
Proof.
  assert (Hhere : ∀ pre s f caps,
            (if isEmpty pre then None else (fun c => (pre, c)) <$> tail s)
            = Some (f, caps) → f = pre ∧ tail s = Some caps).
  { intros pre s0 f caps H. destruct (isEmpty pre); [done|].
    destruct (tail s0); simpl in H; [|done]. by injection H as <- <-. }
  induction s as [|c s IH]; intros pre f caps H; simpl in H.
  - apply Hhere in H as [-> Ht]. exists "", "". by rewrite !append_nil_r.
  - destruct (isDot c) eqn:Hc.
    + destruct (matchFrom tail (pre +:+ String c "") s) as [r|] eqn:Hr.
      * injection H as ->.
        destruct (IH _ _ _ Hr) as (a & b & -> & -> & Ha & Ht).
        exists (String c a), b. simpl. rewrite Hc, Ha, append_assoc. done.
      * apply Hhere in H as [-> Ht]. exists "", (String c s).
        by rewrite append_nil_r.
    + apply Hhere in H as [-> Ht]. exists "", (String c s).
      by rewrite append_nil_r.
Qed.

Lemma digit_value (c : ascii) (u : Decimal.uint) :
  isDigit c = true → ∃ u', uint_of_char c (Some u) = Some u'.
Proof.
  destruct c as [[] [] [] [] [] [] [] []]; try discriminate; intros _;
    eexists; reflexivity.
Qed.

Lemma parseInt_digits (s : string) : digits s = true → index (parseInt s) = true.
Proof.
  unfold digits, parseInt. intros H. apply andb_true_iff in H as [Hne Hd].
  apply negb_true_iff in Hne. rewrite Hne.
  assert (Hu : ∃ u, NilEmpty.uint_of_string s = Some u).
  { clear Hne. induction s as [|c s IH]; simpl; [by eauto|].
    simpl in Hd. apply andb_true_iff in Hd as [Hc Hs].
    destruct (IH Hs) as [u ->]. by apply digit_value. }
  destruct Hu as [u ->]. cbn [fmap option_fmap option_map index].
  apply Z.leb_le, roundDouble_nonneg. lia.
Qed.

Lemma allChars_trimStart (p : ascii → bool) (s : string) :
  allChars p s = true → allChars p (trimStart s) = true.
Proof.
  induction s as [|c s IH]; simpl; [done|]. intros H.
  destruct (isSpace c); [|done]. apply andb_true_iff in H as [_ H]. by apply IH.
Qed.

Lemma allChars_trimEnd (p : ascii → bool) (s : string) :
  allChars p s = true → allChars p (trimEnd s) = true.
Proof.
  induction s as [|c s IH]; simpl; [done|]. intros H.
  apply andb_true_iff in H as [Hc H].
  destruct (isEmpty (trimEnd s) && isSpace c); [done|].
  simpl. by rewrite Hc, IH.
Qed.

Lemma trimEnd_idem (s : string) : trimEnd (trimEnd s) = trimEnd s.
Proof.
  induction s as [|c s IH]; simpl; [done|].
  destruct (isEmpty (trimEnd s) && isSpace c) eqn:H; [done|].
  simpl. by rewrite IH, H.
Qed.

Lemma trimStart_trimEnd (s : string) :
  trimStart s = s → trimStart (trimEnd s) = trimEnd s.
Proof.
  destruct s as [|c s]; [done|]. simpl.
  destruct (isSpace c) eqn:Hc.
  - intros H. exfalso.
    assert (Hlen : ∀ t, (String.length (trimStart t) <= String.length t)%nat).
    { induction t as [|x t IHt]; simpl; [lia|]. destruct (isSpace x); simpl; lia. }
    specialize (Hlen s). rewrite H in Hlen. simpl in Hlen. lia.
  - intros _. rewrite andb_false_r. simpl. by rewrite Hc.
Qed.

Lemma trimStart_idem (s : string) : trimStart (trimStart s) = trimStart s.
Proof.
  induction s as [|c s IH]; simpl; [done|].
  destruct (isSpace c) eqn:Hc; [done|]. simpl. by rewrite Hc.
Qed.

Lemma trim_idem (s : string) : trim (trim s) = trim s.
Proof.
  unfold trim. rewrite (trimStart_trimEnd (trimStart s) (trimStart_idem s)).
  apply trimEnd_idem.
Qed.

Lemma clean_trim (s : string) : allChars isDot s = true → clean (trim s) = true.
Proof.
  intros H. unfold clean. rewrite trim_idem, String.eqb_refl, andb_true_r.
  unfold trim. by apply allChars_trimEnd, allChars_trimStart.
Qed.

Lemma pushMatches_elem (parse : string → option ParsedError) (lines : list string)
      (e : ParsedError) :
  e ∈ pushMatches parse lines ↔ ∃ l, l ∈ lines ∧ parse l = Some e.
Proof.
  induction lines as [|l lines IH]; simpl.
  - split; [intros H; by apply elem_of_nil in H|].
    intros (l & H & _). by apply elem_of_nil in H.
  - destruct (parse l) as [e'|] eqn:Hl.
    + rewrite elem_of_cons, IH. split.
      * intros [->|(l' & Hin & Hp)]; [exists l; split; [by left|done]|].
        exists l'. split; [by right|done].
      * intros (l' & Hin & Hp). apply elem_of_cons in Hin as [->|Hin].
        -- left. congruence.
        -- right. by exists l'.
    + rewrite IH. split.
      * intros (l' & Hin & Hp). exists l'. split; [by right|done].
      * intros (l' & Hin & Hp). apply elem_of_cons in Hin as [->|Hin].
        -- congruence.
        -- by exists l'.
Qed.

Lemma record_of_match (tail : string → option Captures) (l f : string)
      (caps : Captures) (raw : option string) :
  (∀ s c, tail s = Some c → capturesOk c = true) →
  matchLine tail l = Some (f, caps) →
  recordOk {| file := trim f; line := parseInt (lineNum caps);
              column := parseInt (col caps); code := codeText caps;
              message := trim (messageText caps); rawError := raw |} = true.
Proof.
  intros Htail Hm. unfold matchLine in Hm.
  apply matchFrom_some in Hm as (a & b & -> & -> & Ha & Hb).
  apply Htail in Hb. unfold capturesOk in Hb.
  apply andb_true_iff in Hb as [Hb Hmsg]. apply andb_true_iff in Hb as [Hb Hcode].
  apply andb_true_iff in Hb as [Hline Hcol].
  unfold recordOk. cbn [file line column code message].
  rewrite Hcode, (parseInt_digits _ Hline), (parseInt_digits _ Hcol).
  rewrite (clean_trim _ Hmsg). simpl. by rewrite (clean_trim _ Ha).
Qed.

(** X17. On any text, every record either parser returns has a code made
    of [TS] and digits, a line and a column that are numbers (never NaN)
    and not negative, and a file and a message that are on one line and
    carry no white space around them. *)
Theorem X17_parsed_records_well_formed (output : string) (e : ParsedError) :
  e ∈ parseTypeScriptErrors output ∨ e ∈ parseErrors output →
  recordOk e = true.
Proof.
  unfold parseTypeScriptErrors, parseErrors. rewrite !pushMatches_elem.
  intros [(l & _ & H)|(l & _ & H)].
  - unfold parseTypeScriptErrorLine in H.
    destruct (includes ": error TS" l); [|done].
    destruct (matchLine looseTail l) as [[f caps]|] eqn:Hm; [|done].
    injection H as <-. by apply (record_of_match looseTail l), Hm; apply looseTail_inv.
  - unfold parseErrorLine in H.
    destruct (includes ": error TS" l); [|done].
    destruct (matchLine strictTail l) as [[f caps]|] eqn:Hm; [|done].
    injection H as <-. by apply (record_of_match strictTail l), Hm; apply strictTail_inv.
Qed.

End ParsedRecords.

Section ParsedRecordsWitness.
Import JS Diagnostics Records.

Lemma X17_parsed_records_well_formed_witness :
  recordOk (expected true Fixtures.missingProperty) = true.
Proof.
  apply (X17_parsed_records_well_formed
           (formatDiagnostics (printedOf Fixtures.compilerOutput))).
  left.
  assert (H : parseTypeScriptErrors
                (formatDiagnostics (printedOf Fixtures.compilerOutput))
              = [expected true Fixtures.missingProperty;
                 expected true Fixtures.unusedVariable])
    by (vm_compute; reflexivity).
  rewrite H. apply elem_of_cons. by left.
Defined.

End ParsedRecordsWitness.

Section FreshCounts.
Import Runtime JS Diagnostics Fresh.
Variable execSync : string -> option Z -> World -> ExecOutcome * World.

Lemma pushMatches_length (parse : string → option ParsedError) (p : string → bool)
      (lines : list string) :
  (∀ l, p l = false → parse l = None) →
  (length (pushMatches parse lines) <= length (List.filter p lines))%nat.
Proof.
  intros Hp. induction lines as [|l lines IH]; simpl; [lia|].
  destruct (p l) eqn:Hl.
  - destruct (parse l); simpl; lia.
  - by rewrite (Hp l Hl).
Qed.

(** X18. For the same compiler outcome, the count [getErrorCount] returns
    is never below the number of records [getFreshCriticalErrors]
    returns: the first counts the lines that contain [": error TS"], the
    second only those of them that the pattern matches.  Neither call
    throws. *)
Theorem X18_count_bounds_records (s1 s2 : RunState) :
  (execSync "npx tsc --noEmit" None (world s1)).1
  = (execSync "npx tsc --noEmit" None (world s2)).1 →
  ∃ errors s1' n s2',
    getFreshCriticalErrors execSync s1 = (Ok errors, s1')
    ∧ getErrorCount execSync s2 = (Ok n, s2')
    ∧ Z.of_nat (length errors) <= n
    ∧ (n = 0 → errors = []).
Proof.
  unfold getFreshCriticalErrors, getErrorCount, setWorld, setInitialErrors.
  unfold_monad.
  destruct (execSync "npx tsc --noEmit" None (world s1)) as [o1 w1].
  destruct (execSync "npx tsc --noEmit" None (world s2)) as [o2 w2].
  simpl. intros <-. destruct o1 as [out|out err msg]; simpl.
  - eexists _, _, _, _. repeat split; reflexivity.
  - eexists _, _, _, _. split; [reflexivity|]. split; [reflexivity|].
    assert (Hle : (length (parseTypeScriptErrors (orElse out (orElse err "")))
                   <= length (List.filter (includes ": error TS")
                                (splitLines (orElse out (orElse err "")))))%nat).
    { apply pushMatches_length. intros l Hl.
      unfold parseTypeScriptErrorLine. by rewrite Hl. }
    split; [lia|]. intros Hz.
    destruct (parseTypeScriptErrors (orElse out (orElse err ""))); [done|].
    simpl in Hle. lia.
Qed.

End FreshCounts.

Section FreshCountsWitness.
Import Runtime JS Diagnostics Fresh.

Lemma X18_count_bounds_records_witness :
  ∃ errors s1' n s2',
    getFreshCriticalErrors Samples.compilerFailsTwice
      {| world := Fixtures.project;
         report := {| initialErrors := 0; finalErrors := 0; errorsFixed := 0 |} |}
    = (Ok errors, s1')
    ∧ getErrorCount Samples.compilerFailsTwice
        {| world := Fixtures.project;
           report := {| initialErrors := 1; finalErrors := 0; errorsFixed := 0 |} |}
      = (Ok n, s2')
    ∧ Z.of_nat (length errors) <= n
    ∧ (n = 0 → errors = []).
Proof.
  apply (X18_count_bounds_records Samples.compilerFailsTwice). reflexivity.
Defined.

End FreshCountsWitness.

(** ** Parsing with categories *)

Section Categorized.
Import JS Real.

Lemma insertByPriority_perm (e : CategorizedError) (l : list CategorizedError) :
  insertByPriority e l ≡ₚ e :: l.
Proof.
  induction l as [|x l IH]; simpl; [done|].
  destruct (priority x <? priority e); [|done].
  rewrite IH. apply Permutation_swap.
Qed.

Lemma sortByPriority_perm (l : list CategorizedError) : sortByPriority l ≡ₚ l.
Proof.
  induction l as [|x l IH]; simpl; [done|].
  by rewrite insertByPriority_perm, IH.
Qed.

Lemma insertByPriority_sorted (e : CategorizedError) (l : list CategorizedError) :
  StronglySorted (fun a b => priority a <= priority b) l →
  StronglySorted (fun a b => priority a <= priority b) (insertByPriority e l).
Proof.
  induction l as [|x l IH]; intros Hs; simpl.
  - constructor; [constructor|constructor].
  - inversion Hs as [|? ? Hl Hx]; subst.
    destruct (priority x <? priority e) eqn:Hlt.
    + apply Z.ltb_lt in Hlt. constructor; [by apply IH|].
      rewrite Forall_forall. intros y Hy.
      rewrite insertByPriority_perm in Hy.
      apply elem_of_cons in Hy as [->|Hy]; [lia|].
      rewrite Forall_forall in Hx. by apply Hx.
    + apply Z.ltb_ge in Hlt. constructor; [done|].
      constructor; [done|]. eapply Forall_impl; [exact Hx|].
      simpl. intros y Hy. lia.
Qed.

Lemma insertByPriority_stable (k : Z) (e : CategorizedError)
      (l : list CategorizedError) :
  filter (fun x => priority x = k) (insertByPriority e l)
  = filter (fun x => priority x = k) (e :: l).
Proof.
  induction l as [|x l IH]; simpl; [done|].
  destruct (priority x <? priority e) eqn:Hlt; [|done].
  apply Z.ltb_lt in Hlt. rewrite !filter_cons in *.
  destruct (decide (priority x = k)), (decide (priority e = k)); try lia;
    by rewrite IH.
Qed.

Lemma sortByPriority_stable (k : Z) (l : list CategorizedError) :
  filter (fun x => priority x = k) (sortByPriority l)
  = filter (fun x => priority x = k) l.
Proof.
  induction l as [|x l IH]; simpl; [done|].
  by rewrite insertByPriority_stable, !filter_cons, IH.
Qed.

Lemma sortByPriority_sorted (l : list CategorizedError) :
  StronglySorted (fun a b => priority a <= priority b) (sortByPriority l).
Proof.
  induction l as [|x l IH]; simpl; [constructor|].
  by apply insertByPriority_sorted.
Qed.

Lemma categorizeLine_parsed (l : string) :
  toParsedError <$> categorizeLine l = Diagnostics.parseTypeScriptErrorLine l.
Proof.
  unfold categorizeLine, Diagnostics.parseTypeScriptErrorLine.
  destruct (includes ": error TS" l); [|done].
  by destruct (Diagnostics.matchLine Diagnostics.looseTail l) as [[f c]|].
Qed.

Lemma collectErrors_parsed (output : string) :
  toParsedError <$> collectErrors output = Diagnostics.parseTypeScriptErrors output.
Proof.
  unfold collectErrors, Diagnostics.parseTypeScriptErrors.
  induction (splitLines output) as [|l lines IH]; [done|].
  cbn [omap list_omap Diagnostics.pushMatches].
  rewrite <- categorizeLine_parsed.
  destruct (categorizeLine l) as [e|]; cbn [fmap option_fmap option_map].
  - rewrite fmap_cons. by f_equal.
  - exact IH.
Qed.

Lemma priority_range (code message : string) :
  1 <= Diagnostics.calculatePriority code message <= 5.
Proof.
  unfold Diagnostics.calculatePriority. repeat case_bool_decide; lia.
Qed.

(** X19. [parseAndCategorizeErrors] returns the records of the matching
    lines in ascending order of priority, records of equal priority in the
    order of their lines; apart from the three added fields they are the
    records [parseTypeScriptErrors] gives for the same text.  Priority and
    category of a record are those of its code, and the priority lies
    between 1 and 5. *)
Theorem X19_categorized_errors_sorted (output : string) :
  let sorted := parseAndCategorizeErrors output in
  StronglySorted (fun a b => priority a <= priority b) sorted
  ∧ sorted ≡ₚ collectErrors output
  ∧ (∀ k, filter (fun e => priority e = k) sorted
          = filter (fun e => priority e = k) (collectErrors output))
  ∧ toParsedError <$> collectErrors output
    = Diagnostics.parseTypeScriptErrors output
  ∧ Forall (fun e => priority e = Diagnostics.calculatePriority (code e) (message e)
                     ∧ category e = categorizeError (code e) (message e)
                     ∧ 1 <= priority e <= 5) sorted.
Proof.
  unfold parseAndCategorizeErrors. simpl.
  split; [apply sortByPriority_sorted|].
  split; [apply sortByPriority_perm|].
  split; [intros k; apply sortByPriority_stable|].
  split; [apply collectErrors_parsed|].
  rewrite sortByPriority_perm. unfold collectErrors.
  rewrite Forall_forall. intros e He.
  apply list_elem_of_omap in He as (l & _ & Hl).
  unfold categorizeLine in Hl. destruct (includes ": error TS" l); [|done].
  destruct (Diagnostics.matchLine Diagnostics.looseTail l) as [[f c]|]; [|done].
  injection Hl as <-. cbn [priority category code message].
  repeat split; apply priority_range.
Qed.

(** X20. The two tables agree: the priority is 1 for the four syntax
    categories, 2 exactly for [import-resolution], 3 for [implicit-any]
    and [property-missing], 4 exactly for [unused-variable], and a record
    of priority 5 has the category [other].  The only codes with a
    priority below 5 and the category [other] are TS1381, TS1382 and
    TS2722. *)
Theorem X20_category_priority_agree (code message : string) :
  let c := categorizeError code message in
  let p := Diagnostics.calculatePriority code message in
  (c ∈ syntaxCategories → p = 1)
  ∧ (c = "import-resolution" ↔ p = 2)
  ∧ (c ∈ ["implicit-any"; "property-missing"] → p = 3)
  ∧ (c = "unused-variable" ↔ p = 4)
  ∧ (p = 5 → c = "other")
  ∧ (c = "other" → p ≠ 5 → code ∈ ["TS1381"; "TS1382"; "TS2722"]).
Proof.
  simpl.
  destruct (decide (code ∈ ["TS1005"; "TS1003"; "TS1128"; "TS1381"; "TS1382";
                            "TS17002"; "TS2307"; "TS2305"; "TS7006"; "TS2339";
                            "TS2722"; "TS6133"])) as [Hin|Hout].
  - repeat (apply elem_of_cons in Hin as [->|Hin];
            [apply (bool_decide_eq_true_1 _); vm_compute; reflexivity|]).
    by apply elem_of_nil in Hin.
  - assert (Hne : ∀ c, c ∈ ["TS1005"; "TS1003"; "TS1128"; "TS1381"; "TS1382";
                            "TS17002"; "TS2307"; "TS2305"; "TS7006"; "TS2339";
                            "TS2722"; "TS6133"] → String.eqb code c = false).
    { intros c Hc. apply String.eqb_neq. intros ->. by apply Hout. }
    assert (Hp : Diagnostics.calculatePriority code message = 5).
    { unfold Diagnostics.calculatePriority.
      repeat (case_bool_decide as Hd;
              [exfalso; apply Hout;
               repeat (apply elem_of_cons in Hd as [->|Hd];
                       [apply (bool_decide_eq_true_1 _); vm_compute; reflexivity|]);
               by apply elem_of_nil in Hd|clear Hd]).
      reflexivity. }
    assert (Hc : categorizeError code message = "other").
    { unfold categorizeError.
      rewrite !Hne
        by (apply (bool_decide_eq_true_1 _); vm_compute; reflexivity).
      reflexivity. }
    rewrite Hp, Hc. unfold syntaxCategories.
    repeat split; try done; intros H; exfalso;
      repeat (apply elem_of_cons in H as [H|H]; [discriminate H|]);
      by apply elem_of_nil in H.
Qed.

End Categorized.

(** ** Running the scripts *)

Section ScriptRuns.
Import Runtime JS RealScripts.

Lemma writable_ext (fs1 fs2 : Disk.FileSystem) (q : string) :
  Disk.directories fs1 = Disk.directories fs2 →
  Disk.writable fs1 q = Disk.writable fs2 q.
Proof. intros H. unfold Disk.writable, Disk.parentExists. by rewrite H. Qed.

Lemma restorable_ext (fs1 fs2 : Disk.FileSystem) (paths : list string) :
  Disk.directories fs1 = Disk.directories fs2 →
  restorable fs1 paths = restorable fs2 paths.
Proof.
  intros H. unfold restorable. induction paths as [|q paths IH]; [done|].
  simpl. by rewrite IH, (writable_ext fs1 fs2 q H).
Qed.

Lemma allRestorable_ext (scripts : list Script) (fs1 fs2 : Disk.FileSystem) :
  Disk.directories fs1 = Disk.directories fs2 →
  allRestorable scripts fs1 = allRestorable scripts fs2.
Proof.
  intros H. unfold allRestorable. induction scripts as [|sc scripts IH]; [done|].
  simpl. by rewrite IH, (restorable_ext fs1 fs2 _ H).
Qed.

Lemma allRestorable_elem (scripts : list Script) (script : Script)
      (fs : Disk.FileSystem) :
  script ∈ scripts → allRestorable scripts fs = true →
  restorable fs (files script) = true.
Proof.
  intros Hin H. unfold allRestorable in H. rewrite forallb_forall in H.
  apply H. by apply list_elem_of_In.
Qed.

Lemma createBackups_spec (paths : list string) :
  ∀ (s : RunState) (dir : gmap string string),
  Disk.backupDir (disk s) = Some dir →
  (∀ q, q ∈ paths → q ∉ Disk.directories (disk s)) →
  createBackups paths s
  = (Ok tt, {| disk := {| Disk.files := Disk.files (disk s);
                          Disk.directories := Disk.directories (disk s);
                          Disk.backupDir :=
                            Some (backedUpInto (Disk.files (disk s)) paths dir);
                          Disk.now := Disk.now (disk s) |};
               fixesApplied := fixesApplied s |}).
Proof.
  induction paths as [|p paths IH]; intros s dir Hdir Hfiles.
  - simpl. unfold_monad. destruct s as [[fs ds bd t] fx]. simpl in *. by subst.
  - cbn [createBackups]. unfold backupOne, setDisk, Disk.existsSync. unfold_monad.
    assert (Hp : p ∉ Disk.directories (disk s)) by (apply Hfiles; by left).
    rewrite (bool_decide_eq_false_2 _ Hp), orb_false_r.
    assert (Hrest : ∀ q, q ∈ paths → q ∉ Disk.directories (disk s))
      by (intros q Hq; apply Hfiles; by right).
    destruct (Disk.files (disk s) !! p) as [c|] eqn:Hc.
    + rewrite bool_decide_eq_true_2 by eauto. rewrite Hdir. cbn.
      erewrite IH; [|reflexivity|exact Hrest].
      cbn. unfold backedUpInto. cbn. by rewrite Hc.
    + rewrite bool_decide_eq_false_2 by (by intros [? ?]). cbn.
      rewrite (IH s dir Hdir Hrest). unfold backedUpInto. cbn. by rewrite Hc.
Qed.

(** Whatever it ends with, [createBackups] writes into the backup
    directory only, and not at all when there is none. *)
Lemma createBackups_frame (paths : list string) :
  ∀ s, ∃ res s', createBackups paths s = (res, s')
                 ∧ fixesApplied s' = fixesApplied s
                 ∧ Disk.files (disk s') = Disk.files (disk s)
                 ∧ Disk.directories (disk s') = Disk.directories (disk s)
                 ∧ Disk.now (disk s') = Disk.now (disk s).
Proof.
  induction paths as [|p paths IH]; intros s.
  - simpl. unfold_monad. eexists _, _. repeat split; reflexivity.
  - cbn [createBackups]. unfold backupOne, setDisk. unfold_monad.
    destruct (Disk.existsSync (disk s) p); [|cbn; apply IH].
    destruct (bool_decide (p ∈ Disk.directories (disk s))).
    { eexists _, _. repeat split; reflexivity. }
    destruct (Disk.files (disk s) !! p) as [c|];
      [|eexists _, _; repeat split; reflexivity].
    destruct (Disk.backupDir (disk s)) as [dir|]; cbn;
      [|eexists _, _; repeat split; reflexivity].
    match goal with |- context [createBackups paths ?s0] =>
      destruct (IH s0) as (res & s' & Heq & H1 & H2 & H3 & H4) end.
    rewrite Heq. cbn in H1, H2, H3, H4. eexists _, _. by repeat split.
Qed.

Lemma rollbackChanges_spec (paths : list string) :
  ∀ s : RunState,
  restorable (disk s) paths = true →
  rollbackChanges paths s
  = (Ok tt, {| disk := {| Disk.files :=
                            match Disk.backupDir (disk s) with
                            | Some dir =>
                                restoredFrom dir paths (Disk.files (disk s))
                            | None => Disk.files (disk s)
                            end;
                          Disk.directories := Disk.directories (disk s);
                          Disk.backupDir := Disk.backupDir (disk s);
                          Disk.now := Disk.now (disk s) |};
               fixesApplied := fixesApplied s |}).
Proof.
  induction paths as [|p paths IH]; intros s Hok.
  - simpl. unfold_monad. destruct s as [[fs ds [bd|] t] fx]; done.
  - unfold restorable in Hok. cbn [forallb] in Hok.
    apply andb_true_iff in Hok as [Hp Hrest].
    unfold Disk.writable in Hp. apply andb_true_iff in Hp as [Hnd Hpar].
    apply negb_true_iff in Hnd.
    cbn [rollbackChanges]. unfold restoreOne, setDisk. unfold_monad.
    destruct (Disk.backupDir (disk s)) as [dir|] eqn:Hdir; cbn.
    + destruct (dir !! backupName p) as [c|] eqn:Hc; cbn.
      * rewrite Hnd, Hpar. cbn. rewrite IH.
        -- cbn. unfold restoredFrom. cbn. by rewrite ?Hc.
        -- rewrite <- Hrest. by apply restorable_ext.
      * rewrite (IH s Hrest), Hdir. unfold restoredFrom. cbn. by rewrite ?Hc.
    + by rewrite (IH s Hrest), Hdir.
Qed.

(** The copy onto a path that cannot be written throws, whatever the
    copies before it did. *)
Lemma rollbackChanges_throws (paths : list string) (p c : string)
      (dir : gmap string string) :
  dir !! backupName p = Some c →
  ∀ s : RunState,
  Disk.backupDir (disk s) = Some dir →
  p ∈ paths →
  Disk.writable (disk s) p = false →
  ∃ e s', rollbackChanges paths s = (Throw e, s')
          ∧ fixesApplied s' = fixesApplied s.
Proof.
  intros Hc. induction paths as [|q paths IH]; intros s Hdir Hin Hw.
  - by apply elem_of_nil in Hin.
  - cbn [rollbackChanges]. unfold restoreOne, setDisk. unfold_monad.
    rewrite Hdir. cbn.
    destruct (dir !! backupName q) as [cq|] eqn:Hq; cbn.
    + destruct (bool_decide (q ∈ Disk.directories (disk s))) eqn:Hd.
      { eexists _, _. split; reflexivity. }
      destruct (Disk.parentExists (disk s) q) eqn:Hpar.
      * cbn.
        assert (Hne : q ≠ p).
        { intros ->. unfold Disk.writable in Hw. by rewrite Hd, Hpar in Hw. }
        match goal with |- context [rollbackChanges paths ?s0] =>
          destruct (IH s0) as (e & s' & Heq & Hfx) end.
        -- cbn. first [exact Hdir|reflexivity].
        -- apply elem_of_cons in Hin as [->|Hin]; [done|exact Hin].
        -- rewrite <- Hw. by apply writable_ext.
        -- rewrite Heq. eexists _, _. split; [reflexivity|exact Hfx].
      * eexists _, _. split; reflexivity.
    + assert (Hne : q ≠ p) by (intros ->; congruence).
      destruct (IH s Hdir) as (e & s' & Heq & Hfx); [|exact Hw|].
      * apply elem_of_cons in Hin as [->|Hin]; [done|exact Hin].
      * rewrite Heq. eexists _, _. split; [reflexivity|exact Hfx].
Qed.

Lemma restoredFrom_other (dir : gmap string string) (paths : list string) (r : string) :
  ∀ fs, r ∉ paths → restoredFrom dir paths fs !! r = fs !! r.
Proof.
  unfold restoredFrom. induction paths as [|p paths IH]; intros fs Hr; [done|].
  apply not_elem_of_cons in Hr as [Hne Hr]. cbn. rewrite (IH _ Hr).
  destruct (dir !! backupName p); [|done]. by rewrite lookup_insert_ne.
Qed.

Lemma restoredFrom_entry (dir : gmap string string) (paths : list string)
      (p c : string) :
  dir !! backupName p = Some c →
  ∀ fs, p ∈ paths ∨ fs !! p = Some c → restoredFrom dir paths fs !! p = Some c.
Proof.
  intros Hc. unfold restoredFrom.
  induction paths as [|q paths IH]; intros fs H.
  - destruct H as [H|H]; [by apply elem_of_nil in H|done].
  - cbn. apply IH. destruct (decide (q = p)) as [->|Hne].
    + right. rewrite Hc. by rewrite lookup_insert_eq.
    + destruct H as [H|H].
      * apply elem_of_cons in H as [->|H]; [done|by left].
      * right. destruct (dir !! backupName q); [|done].
        by rewrite lookup_insert_ne.
Qed.

Lemma append_length (a b : string) :
  String.length (a +:+ b) = (String.length a + String.length b)%nat.
Proof. induction a as [|x a IH]; simpl; [done|]. by rewrite IH. Qed.

Lemma append_inj_l (a b s : string) : a +:+ s = b +:+ s → a = b.
Proof.
  revert b. induction a as [|x a IH]; intros [|y b] H.
  - done.
  - apply (f_equal String.length) in H.
    rewrite !append_length in H. simpl in H. lia.
  - apply (f_equal String.length) in H.
    rewrite !append_length in H. simpl in H. lia.
  - change (String x (a +:+ s) = String y (b +:+ s)) in H.
    injection H as -> H. f_equal. by apply IH.
Qed.

Lemma backedUpInto_entry (fs : gmap string string) (paths : list string)
      (p c : string) :
  fs !! p = Some c →
  (∀ q, q ∈ paths → basename q = basename p → q = p) →
  ∀ dir, p ∈ paths ∨ dir !! backupName p = Some c →
  backedUpInto fs paths dir !! backupName p = Some c.
Proof.
  intros Hc. unfold backedUpInto.
  induction paths as [|q paths IH]; intros Huniq dir H.
  - destruct H as [H|H]; [by apply elem_of_nil in H|done].
  - cbn. apply IH; [intros q' Hq'; apply Huniq; by right|].
    destruct (decide (q = p)) as [->|Hne].
    + right. rewrite Hc. by rewrite lookup_insert_eq.
    + destruct H as [H|H].
      * apply elem_of_cons in H as [->|H]; [done|by left].
      * right. destruct (fs !! q); [|done].
        rewrite lookup_insert_ne; [done|].
        unfold backupName. intros Heq. apply append_inj_l in Heq.
        apply Hne, Huniq; [by left|done].
Qed.

(** A file that is backed up has an entry under its backup name, its own
    or that of a later file of the same base name. *)
Lemma backedUpInto_some (fs : gmap string string) (paths : list string)
      (p c : string) :
  fs !! p = Some c →
  ∀ dir, p ∈ paths ∨ is_Some (dir !! backupName p) →
  is_Some (backedUpInto fs paths dir !! backupName p).
Proof.
  intros Hc. unfold backedUpInto.
  induction paths as [|q paths IH]; intros dir H.
  - destruct H as [H|H]; [by apply elem_of_nil in H|done].
  - cbn. apply IH. destruct (decide (q = p)) as [->|Hne].
    + right. rewrite Hc. rewrite lookup_insert_eq. by eexists.
    + destruct H as [H|H].
      * apply elem_of_cons in H as [->|H]; [done|by left].
      * right. destruct (fs !! q); [|done].
        destruct (decide (backupName q = backupName p)) as [->|Hb].
        -- rewrite lookup_insert_eq. by eexists.
        -- by rewrite lookup_insert_ne.
Qed.

(** X22. Suppose the backup directory exists, no path of the list is a
    directory, and no other path of the list has the base name of the
    file [p].  Then [createBackups] returns and changes no project file,
    and after any later change to the project that leaves the paths of
    the list writable (no directory under such a path, the directory it
    lies in still there), [rollbackChanges] gives [p] the content it had
    at the backup, at its own path, and leaves every file outside the list
    as it found it.  If after the change [p] cannot be written,
    [rollbackChanges] throws. *)
Theorem X22_backup_round_trip (paths : list string) (p c : string)
        (s : RunState) (dir : gmap string string) :
  Disk.backupDir (disk s) = Some dir →
  p ∈ paths →
  Disk.files (disk s) !! p = Some c →
  (∀ q, q ∈ paths → basename q = basename p → q = p) →
  (∀ q, q ∈ paths → q ∉ Disk.directories (disk s)) →
  ∃ s1,
    createBackups paths s = (Ok tt, s1)
    ∧ Disk.files (disk s1) = Disk.files (disk s)
    ∧ (∀ s2, Disk.backupDir (disk s2) = Disk.backupDir (disk s1) →
         restorable (disk s2) paths = true →
         ∃ s3,
           rollbackChanges paths s2 = (Ok tt, s3)
           ∧ Disk.files (disk s3) !! p = Some c
           ∧ (∀ r, r ∉ paths →
                   Disk.files (disk s3) !! r = Disk.files (disk s2) !! r)
           ∧ Disk.backupDir (disk s3) = Disk.backupDir (disk s2))
    ∧ (∀ s2, Disk.backupDir (disk s2) = Disk.backupDir (disk s1) →
         Disk.writable (disk s2) p = false →
         ∃ e s3, rollbackChanges paths s2 = (Throw e, s3)).
Proof.
  intros Hdir Hin Hc Huniq Hfiles. eexists.
  split; [by apply createBackups_spec|]. split; [done|]. cbn.
  assert (Hentry : backedUpInto (Disk.files (disk s)) paths dir !! backupName p
                   = Some c).
  { apply backedUpInto_entry; [done|done|by left]. }
  split.
  - intros s2 Hs2 Hok. eexists.
    split; [by apply rollbackChanges_spec|]. cbn. rewrite Hs2.
    repeat split.
    + apply restoredFrom_entry; [exact Hentry|by left].
    + intros r Hr. by apply restoredFrom_other.
  - intros s2 Hs2 Hw.
    destruct (rollbackChanges_throws paths p c _ Hentry s2 Hs2 Hin Hw)
      as (e & s3 & Heq & _).
    by exists e, s3.
Qed.

Lemma runScript_spec (scripts : list Script) (script : Script) (s : RunState) :
  script ∈ scripts →
  tame scripts script →
  allRestorable scripts (disk s) = true →
  ∃ fixed s' r,
    runScript script s = (Ok fixed, s')
    ∧ fixesApplied s' = fixesApplied s ++ [r]
    ∧ RealScripts.script r = name script
    ∧ fixPattern r = pattern script
    ∧ filesProcessed r = Z.of_nat (length (files script))
    ∧ errorsFixed r = fixed
    ∧ (error r ≠ None → fixed = 0 ∧ executionTime r = None)
    ∧ allRestorable scripts (disk s') = true.
Proof.
  intros Hin Htame Hok.
  unfold runScript, tryScript. unfold tryCatch at 1. unfold_monad.
  destruct (createBackups_frame (files script) s)
    as (res & s1 & Hb & Hfx & _ & Hds & _).
  rewrite Hb.
  assert (Hok1 : allRestorable scripts (disk s1) = true).
  { rewrite <- Hok. by apply allRestorable_ext. }
  destruct res as [[]|e].
  - unfold executeWithMonitoring, messageOf, dateNow, setDisk, pushFix.
    unfold_monad. cbn.
    destruct (Htame (disk s1)) as [Hnull Hkeep]. specialize (Hkeep Hok1).
    destruct (execute script (disk s1)) as [[fixed|e|v|] fs2] eqn:Hexec;
      cbn in Hnull, Hkeep |- *.
    + eexists _, _, _. split; [reflexivity|]. cbn. rewrite Hfx.
      repeat split; done.
    + rewrite rollbackChanges_spec
        by (cbn; by apply (allRestorable_elem scripts)).
      cbn. eexists _, _, _. split; [reflexivity|]. cbn. rewrite Hfx.
      repeat split; try done.
    + by destruct (Hnull v).
    + rewrite rollbackChanges_spec
        by (cbn; by apply (allRestorable_elem scripts)).
      cbn. eexists _, _, _. split; [reflexivity|]. cbn. rewrite Hfx.
      repeat split; try done.
  - unfold messageOf, dateNow, pushFix. unfold_monad. cbn.
    rewrite rollbackChanges_spec by (by apply (allRestorable_elem scripts)).
    cbn. eexists _, _, _. split; [reflexivity|]. cbn. rewrite Hfx.
    repeat split; try done.
Qed.

Lemma runScripts_spec (scripts todo : list Script) :
  (∀ script, script ∈ scripts → tame scripts script) →
  (∀ script, script ∈ todo → script ∈ scripts) →
  ∀ (total : Z) (s : RunState),
  allRestorable scripts (disk s) = true →
  ∃ s' records,
    runScripts todo total s = (Ok (total + sumFixed records), s')
    ∧ fixesApplied s' = fixesApplied s ++ records
    ∧ RealScripts.script <$> records = name <$> todo
    ∧ filesProcessed <$> records
      = (fun sc => Z.of_nat (length (files sc))) <$> todo
    ∧ Forall (fun r => error r ≠ None → errorsFixed r = 0 ∧ executionTime r = None)
             records.
Proof.
  intros Htame. induction todo as [|sc todo IH]; intros Hsub total s Hok.
  - exists s, []. cbn. unfold_monad. rewrite Z.add_0_r, app_nil_r.
    repeat split; constructor.
  - assert (Hsc : sc ∈ scripts) by (apply Hsub; by left).
    destruct (runScript_spec scripts sc s Hsc (Htame sc Hsc) Hok)
      as (fixed & s1 & r & Hrun & Hfx & Hname & _ & Hfiles & Hfixed & Herr & Hok1).
    destruct (IH (fun x Hx => Hsub x ltac:(by right)) (total + fixed) s1 Hok1)
      as (s' & records & Hrest & Hfx' & Hn & Hf & Hall).
    exists s', (r :: records). cbn [runScripts]. unfold_monad.
    rewrite Hrun, Hrest, Hfx', Hfx, <- app_assoc. cbn.
    rewrite Hname, Hn, Hfiles, Hf, Hfixed.
    split; [unfold sumFixed; do 2 f_equal; lia|].
    do 3 (split; [done|]).
    constructor; [|done]. intros He. destruct (Herr He) as [H0 ?].
    split; [congruence|done].
Qed.

(** X21. If every script rejects with an error when it rejects and leaves
    the files of the scripts writable (which they are at the start), then
    [executeWithErrorHandling] does not throw: it adds one record per
    script to [fixesApplied], in the order of the scripts, and returns the
    sum of their [errorsFixed]; a record that carries an error counts 0
    and has no execution time. *)
Theorem X21_tame_scripts_are_recorded (scripts : list Script) (s : RunState) :
  (∀ script, script ∈ scripts → tame scripts script) →
  allRestorable scripts (disk s) = true →
  ∃ s' records,
    executeWithErrorHandling scripts s = (Ok (sumFixed records), s')
    ∧ fixesApplied s' = fixesApplied s ++ records
    ∧ RealScripts.script <$> records = name <$> scripts
    ∧ filesProcessed <$> records
      = (fun sc => Z.of_nat (length (files sc))) <$> scripts
    ∧ Forall (fun r => error r ≠ None → errorsFixed r = 0 ∧ executionTime r = None)
             records.
Proof.
  intros Htame Hok. unfold executeWithErrorHandling.
  destruct (runScripts_spec scripts scripts Htame (fun _ H => H) 0 s Hok)
    as (s' & records & H).
  exists s', records. by rewrite Z.add_0_l in H.
Qed.

(** X23. When a script rejects with an error or runs into the timeout,
    without touching the backup directory and leaving its files writable,
    the files of the script whose base name is unique among them get back
    the content they had before the script, the script counts 0 and its
    record carries the error; what the script changed outside its list of
    files stays changed. *)
Theorem X23_failed_script_restored (script : Script) (s : RunState)
        (dir : gmap string string) (p c e : string)
        (outcome : Settled Z) (w2 : Disk.FileSystem) :
  Disk.backupDir (disk s) = Some dir →
  p ∈ files script →
  Disk.files (disk s) !! p = Some c →
  (∀ q, q ∈ files script → basename q = basename p → q = p) →
  (∀ q, q ∈ files script → q ∉ Disk.directories (disk s)) →
  execute script (afterBackups script dir (disk s)) = (outcome, w2) →
  failureOf outcome = Some e →
  Disk.backupDir w2 = Disk.backupDir (afterBackups script dir (disk s)) →
  restorable w2 (files script) = true →
  ∃ s' r,
    runScript script s = (Ok 0, s')
    ∧ fixesApplied s' = fixesApplied s ++ [r]
    ∧ error r = Some e ∧ errorsFixed r = 0
    ∧ Disk.files (disk s') !! p = Some c
    ∧ (∀ q, q ∉ files script →
            Disk.files (disk s') !! q = Disk.files w2 !! q).
Proof.
  intros Hdir Hin Hc Huniq Hfiles Hexec Hfail Hkeep Hok.
  unfold runScript, tryScript. unfold tryCatch at 1. unfold_monad.
  rewrite (createBackups_spec (files script) s dir Hdir Hfiles).
  unfold executeWithMonitoring, messageOf, dateNow, setDisk, pushFix.
  unfold_monad. cbn.
  unfold afterBackups in Hexec, Hkeep. rewrite Hexec. cbn in Hkeep.
  assert (Hback : ∀ fs, restoredFrom
                          (backedUpInto (Disk.files (disk s)) (files script) dir)
                          (files script) fs !! p = Some c).
  { intros fs. apply restoredFrom_entry; [|by left].
    apply backedUpInto_entry; [done|done|by left]. }
  destruct outcome as [n|e'|v|]; [done| |done|]; injection Hfail as <-; cbn;
    rewrite rollbackChanges_spec by exact Hok; cbn; rewrite Hkeep;
    eexists _, _; (split; [reflexivity|]); cbn;
    (repeat split; [apply Hback|]);
    intros q Hq; by apply restoredFrom_other.
Qed.

(** X27. When a script rejects with an error or runs into the timeout
    after it made a file of its list that was backed up unwritable (it
    removed the directory the file lies in, or put a directory in its
    place), the rollback throws inside the [catch] clause:
    [executeWithErrorHandling] throws, no record is added for the script,
    and the scripts behind it are not run. *)
Theorem X27_rollback_throws (script : Script) (rest : list Script) (s : RunState)
        (dir : gmap string string) (p c e : string)
        (outcome : Settled Z) (w2 : Disk.FileSystem) :
  Disk.backupDir (disk s) = Some dir →
  p ∈ files script →
  Disk.files (disk s) !! p = Some c →
  (∀ q, q ∈ files script → q ∉ Disk.directories (disk s)) →
  execute script (afterBackups script dir (disk s)) = (outcome, w2) →
  failureOf outcome = Some e →
  Disk.backupDir w2 = Disk.backupDir (afterBackups script dir (disk s)) →
  Disk.writable w2 p = false →
  ∃ err s',
    executeWithErrorHandling (script :: rest) s = (Throw err, s')
    ∧ fixesApplied s' = fixesApplied s.
Proof.
  intros Hdir Hin Hc Hfiles Hexec Hfail Hkeep Hw.
  unfold executeWithErrorHandling. cbn [runScripts].
  unfold runScript, tryScript. unfold tryCatch at 1. unfold_monad.
  rewrite (createBackups_spec (files script) s dir Hdir Hfiles).
  unfold executeWithMonitoring, messageOf, dateNow, setDisk, pushFix.
  unfold_monad. cbn.
  unfold afterBackups in Hexec, Hkeep. rewrite Hexec. cbn in Hkeep.
  destruct (backedUpInto_some (Disk.files (disk s)) (files script) p c Hc dir
              (or_introl Hin)) as [c' Hentry].
  destruct outcome as [n|e'|v|]; [done| |done|]; injection Hfail as <-; cbn.
  - match goal with |- context [rollbackChanges (files script) ?s0] =>
      destruct (rollbackChanges_throws (files script) p c' _ Hentry s0 Hkeep Hin Hw)
        as (err & s' & Heq & Hfx) end.
    rewrite Heq. by exists err, s'.
  - match goal with |- context [rollbackChanges (files script) ?s0] =>
      destruct (rollbackChanges_throws (files script) p c' _ Hentry s0 Hkeep Hin Hw)
        as (err & s' & Heq & Hfx) end.
    rewrite Heq. by exists err, s'.
Qed.

(** X28. When a script rejects with [undefined] or [null], the [catch]
    clause fails at once, reading the message of that value:
    [executeWithErrorHandling] throws the TypeError, nothing is rolled back
    (the files are as the script left them), no record is added, and the
    scripts behind it are not run. *)
Theorem X28_nullish_rejection_escapes (script : Script) (rest : list Script)
        (s : RunState) (dir : gmap string string) (v : Nullish)
        (w2 : Disk.FileSystem) :
  Disk.backupDir (disk s) = Some dir →
  (∀ q, q ∈ files script → q ∉ Disk.directories (disk s)) →
  execute script (afterBackups script dir (disk s)) = (RejectedWith v, w2) →
  executeWithErrorHandling (script :: rest) s
  = (Throw (typeErrorOf v), {| disk := w2; fixesApplied := fixesApplied s |}).
Proof.
  intros Hdir Hfiles Hexec.
  unfold executeWithErrorHandling. cbn [runScripts].
  unfold runScript, tryScript. unfold tryCatch at 1. unfold_monad.
  rewrite (createBackups_spec (files script) s dir Hdir Hfiles).
  unfold executeWithMonitoring, messageOf, dateNow, setDisk, pushFix.
  unfold_monad. cbn.
  unfold afterBackups in Hexec. by rewrite Hexec.
Qed.

End ScriptRuns.

Section ScriptWitnesses.
Import Runtime JS RealScripts.

Lemma unique_base_names (q : string) :
  q ∈ ["src/a/index.ts"; "src/App.tsx"] →
  basename q = basename "src/a/index.ts" → q = "src/a/index.ts".
Proof.
  intros Hq Hb. apply elem_of_cons in Hq as [->|Hq]; [done|].
  apply elem_of_cons in Hq as [->|Hq]; [discriminate Hb|].
  by apply elem_of_nil in Hq.
Defined.

Lemma first_of_two : "src/a/index.ts" ∈ ["src/a/index.ts"; "src/App.tsx"].
Proof. apply elem_of_cons. by left. Defined.

Lemma no_directory_listed (q : string) :
  q ∈ ["src/a/index.ts"; "src/App.tsx"] →
  q ∉ Disk.directories Samples.preparedDisk.
Proof.
  intros Hq. apply elem_of_cons in Hq as [->|Hq]; [by vm_compute|].
  apply elem_of_cons in Hq as [->|Hq]; [by vm_compute|].
  by apply elem_of_nil in Hq.
Defined.

Lemma clobber_is_tame (script : Script) :
  script ∈ [Samples.clobberScript] → tame [Samples.clobberScript] script.
Proof.
  intros H. apply elem_of_cons in H as [->|H]; [|by apply elem_of_nil in H].
  intros fs. split; [intros v; discriminate|]. intros Hok. exact Hok.
Defined.

Lemma X21_tame_scripts_are_recorded_witness :
  ∃ s' records,
    executeWithErrorHandling [Samples.clobberScript] Samples.preparedProject
    = (Ok (sumFixed records), s')
    ∧ fixesApplied s' = fixesApplied Samples.preparedProject ++ records
    ∧ RealScripts.script <$> records = name <$> [Samples.clobberScript]
    ∧ filesProcessed <$> records
      = (fun sc => Z.of_nat (length (files sc))) <$> [Samples.clobberScript]
    ∧ Forall (fun r => error r ≠ None → errorsFixed r = 0 ∧ executionTime r = None)
             records.
Proof.
  apply (X21_tame_scripts_are_recorded [Samples.clobberScript]
           Samples.preparedProject).
  - exact clobber_is_tame.
  - vm_compute. reflexivity.
Defined.

Lemma X22_backup_round_trip_witness :
  ∃ s1,
    createBackups ["src/a/index.ts"; "src/App.tsx"] Samples.preparedProject
    = (Ok tt, s1)
    ∧ Disk.files (disk s1) = Disk.files (disk Samples.preparedProject)
    ∧ (∀ s2, Disk.backupDir (disk s2) = Disk.backupDir (disk s1) →
         restorable (disk s2) ["src/a/index.ts"; "src/App.tsx"] = true →
         ∃ s3,
           rollbackChanges ["src/a/index.ts"; "src/App.tsx"] s2 = (Ok tt, s3)
           ∧ Disk.files (disk s3) !! "src/a/index.ts" = Some "a"
           ∧ (∀ r, r ∉ ["src/a/index.ts"; "src/App.tsx"] →
                   Disk.files (disk s3) !! r = Disk.files (disk s2) !! r)
           ∧ Disk.backupDir (disk s3) = Disk.backupDir (disk s2))
    ∧ (∀ s2, Disk.backupDir (disk s2) = Disk.backupDir (disk s1) →
         Disk.writable (disk s2) "src/a/index.ts" = false →
         ∃ e s3, rollbackChanges ["src/a/index.ts"; "src/App.tsx"] s2
                 = (Throw e, s3)).
Proof.
  apply (X22_backup_round_trip ["src/a/index.ts"; "src/App.tsx"]
           "src/a/index.ts" "a" Samples.preparedProject ∅).
  - reflexivity.
  - exact first_of_two.
  - vm_compute. reflexivity.
  - exact unique_base_names.
  - exact no_directory_listed.
Defined.

Lemma X23_failed_script_restored_witness :
  ∃ s' r,
    runScript Samples.clobberScript Samples.preparedProject = (Ok 0, s')
    ∧ fixesApplied s' = fixesApplied Samples.preparedProject ++ [r]
    ∧ error r = Some "boom" ∧ errorsFixed r = 0
    ∧ Disk.files (disk s') !! "src/a/index.ts" = Some "a"
    ∧ (∀ q, q ∉ files Samples.clobberScript →
            Disk.files (disk s') !! q
            = Disk.files
                (Samples.clobber
                   (afterBackups Samples.clobberScript ∅
                      (disk Samples.preparedProject))).2 !! q).
Proof.
  apply (X23_failed_script_restored Samples.clobberScript Samples.preparedProject
           ∅ "src/a/index.ts" "a" "boom" (Rejected "boom")).
  - reflexivity.
  - exact first_of_two.
  - vm_compute. reflexivity.
  - exact unique_base_names.
  - exact no_directory_listed.
  - reflexivity.
  - reflexivity.
  - reflexivity.
  - vm_compute. reflexivity.
Defined.

Lemma X27_rollback_throws_witness :
  ∃ err s',
    executeWithErrorHandling [Samples.removingScript; Samples.clobberScript]
                             Samples.preparedProject
    = (Throw err, s')
    ∧ fixesApplied s' = fixesApplied Samples.preparedProject.
Proof.
  apply (X27_rollback_throws Samples.removingScript [Samples.clobberScript]
           Samples.preparedProject ∅ "src/a/index.ts" "a" "boom"
           (Rejected "boom")
           (Samples.removeDirectory
              (afterBackups Samples.removingScript ∅
                 (disk Samples.preparedProject))).2).
  - reflexivity.
  - exact first_of_two.
  - vm_compute. reflexivity.
  - exact no_directory_listed.
  - reflexivity.
  - reflexivity.
  - reflexivity.
  - vm_compute. reflexivity.
Defined.

Lemma X28_nullish_rejection_escapes_witness :
  executeWithErrorHandling [Samples.undefinedScript; Samples.clobberScript]
                           Samples.preparedProject
  = (Throw (typeErrorOf Undefined),
     {| disk := (Samples.rejectUndefined
                   (afterBackups Samples.undefinedScript ∅
                      (disk Samples.preparedProject))).2;
        fixesApplied := fixesApplied Samples.preparedProject |}).
Proof.
  apply (X28_nullish_rejection_escapes Samples.undefinedScript
           [Samples.clobberScript] Samples.preparedProject ∅ Undefined).
  - reflexivity.
  - intros q Hq. apply elem_of_cons in Hq as [->|Hq]; [by vm_compute|].
    by apply elem_of_nil in Hq.
  - reflexivity.
Defined.

(** The run of the script that removes a directory, spelled out: the
    rollback meets the missing directory at the first file. *)
Example rollback_meets_missing_directory :
  fst (executeWithErrorHandling [Samples.removingScript; Samples.clobberScript]
                                Samples.preparedProject)
  = Throw "ENOENT: no such file or directory".
Proof. vm_compute. reflexivity. Qed.

End ScriptWitnesses.

(** ** The identifiers quoted in a message *)

Section Quoted.
Import JS Diagnostics Extract.
Local Arguments String.append !_ _ : simpl nomatch.

Lemma literal_app (lit s : string) : literal lit (lit +:+ s) = Some s.
Proof.
  induction lit as [|x lit IH]; simpl; [by destruct s|].
  by rewrite Ascii.eqb_refl.
Qed.

Lemma quotedAt_here (before after x rest : string) :
  x ≠ "" → allChars notQuote x = true →
  quotedAt before after (before +:+ "'" +:+ x +:+ "'" +:+ after +:+ rest) = Some x.
Proof.
  intros Hne Hx. unfold quotedAt.
  rewrite literal_app. cbn [mbind option_bind].
  rewrite (literal_app "'"). cbn [mbind option_bind].
  rewrite (run_app notQuote true x ("'" +:+ after +:+ rest) Hx); [|done|done].
  cbn [mbind option_bind]. rewrite (literal_app "'"). cbn [mbind option_bind].
  by rewrite literal_app.
Qed.

Lemma search_here (before after message x : string) :
  quotedAt before after message = Some x → search before after message = Some x.
Proof. intros H. destruct message; simpl; by rewrite H. Qed.

Lemma extract_round_trip (before after x rest : string) :
  x ≠ "" → allChars notQuote x = true →
  extract before after (before +:+ "'" +:+ x +:+ "'" +:+ after +:+ rest) = x.
Proof.
  intros Hne Hx. unfold extract.
  by rewrite (search_here _ _ _ x (quotedAt_here before after x rest Hne Hx)).
Qed.

(** X24. Each of the eight extractors gives back the identifier a message
    quotes when the message starts with the extractor's phrase (as the
    compiler's messages do) and the identifier is not empty and holds no
    quote; what follows the phrase does not matter. *)
Theorem X24_extract_quoted (x rest : string) :
  x ≠ "" → allChars notQuote x = true →
  extractUnusedIdentifier ("'" +:+ x +:+ "' is declared but" +:+ rest) = x
  ∧ extractParameterName ("Parameter '" +:+ x +:+ "' implicitly" +:+ rest) = x
  ∧ extractModuleName ("Cannot find module '" +:+ x +:+ "'" +:+ rest) = x
  ∧ extractExportMember ("has no exported member '" +:+ x +:+ "'" +:+ rest) = x
  ∧ extractWrongExportName ("no exported member named '" +:+ x +:+ "'" +:+ rest) = x
  ∧ extractSuggestedName ("Did you mean '" +:+ x +:+ "'" +:+ rest) = x
  ∧ extractPropertyName ("Property '" +:+ x +:+ "' does not exist" +:+ rest) = x
  ∧ extractExpectedToken ("'" +:+ x +:+ "' expected" +:+ rest) = x.
Proof.
  intros Hne Hx.
  pose proof (fun b a => extract_round_trip b a x rest Hne Hx) as H.
  repeat split.
  - exact (H "" " is declared but").
  - exact (H "Parameter " " implicitly").
  - exact (H "Cannot find module " "").
  - exact (H "has no exported member " "").
  - exact (H "no exported member named " "").
  - exact (H "Did you mean " "").
  - exact (H "Property " " does not exist").
  - exact (H "" " expected").
Qed.

Lemma X24_extract_quoted_witness :
  extractUnusedIdentifier ("'" +:+ "useState" +:+ "' is declared but" +:+ " its value is never read.") = "useState"
  ∧ extractParameterName ("Parameter '" +:+ "useState" +:+ "' implicitly" +:+ " its value is never read.") = "useState"
  ∧ extractModuleName ("Cannot find module '" +:+ "useState" +:+ "'" +:+ " its value is never read.") = "useState"
  ∧ extractExportMember ("has no exported member '" +:+ "useState" +:+ "'" +:+ " its value is never read.") = "useState"
  ∧ extractWrongExportName ("no exported member named '" +:+ "useState" +:+ "'" +:+ " its value is never read.") = "useState"
  ∧ extractSuggestedName ("Did you mean '" +:+ "useState" +:+ "'" +:+ " its value is never read.") = "useState"
  ∧ extractPropertyName ("Property '" +:+ "useState" +:+ "' does not exist" +:+ " its value is never read.") = "useState"
  ∧ extractExpectedToken ("'" +:+ "useState" +:+ "' expected" +:+ " its value is never read.") = "useState".
Proof.
  apply (X24_extract_quoted "useState" " its value is never read.");
    [discriminate|reflexivity].
Defined.

End Quoted.

(** ** Backups under flattened names *)

Section FlatBackups.
Import Runtime JS Advanced.

Lemma flatten_inj (f g : string) :
  plainPath f = true → plainPath g = true → flatten f = flatten g → f = g.
Proof.
  revert g. induction f as [|x f IH]; intros [|y g] Hf Hg H; simpl in *;
    try done.
  apply andb_true_iff in Hf as [Hx Hf]. apply andb_true_iff in Hg as [Hy Hg].
  injection H as Hxy H. f_equal; [|by apply IH].
  unfold isSeparator in Hxy.
  apply negb_true_iff, orb_false_iff in Hx as [Hx1 Hx2].
  apply negb_true_iff, orb_false_iff in Hy as [Hy1 Hy2].
  rewrite Hx2, Hy2, !orb_false_r in Hxy.
  destruct (Ascii.eqb x "/") eqn:Ex, (Ascii.eqb y "/") eqn:Ey.
  - apply Ascii.eqb_eq in Ex, Ey. congruence.
  - subst y. by rewrite Ascii.eqb_refl in Hy1.
  - subst x. by rewrite Ascii.eqb_refl in Hx1.
  - done.
Qed.

(** X25. Backing up two different files that both exist stores both
    contents, each under the file's path with the separators replaced,
    provided the backup directory exists and neither path holds an
    underscore or a backslash; the project files are not changed. *)
Theorem X25_flat_backups_distinct (f g cf cg : string) (w : World)
        (dir : gmap string string) :
  backupDir w = Some dir →
  files w !! f = Some cf → files w !! g = Some cg →
  plainPath f = true → plainPath g = true → f ≠ g →
  ∃ w', (createBackup f;; createBackup g) w = (Ok tt, w')
        ∧ files w' = files w
        ∧ (backupDir w' ≫= (fun d => d !! flatten f)) = Some cf
        ∧ (backupDir w' ≫= (fun d => d !! flatten g)) = Some cg
        ∧ String.length (flatten f) = String.length f.
Proof.
  intros Hdir Hf Hg Hpf Hpg Hne.
  unfold createBackup. unfold_monad. rewrite Hf, Hdir. cbn. rewrite Hg. cbn.
  eexists. split; [reflexivity|]. cbn. repeat split.
  - rewrite lookup_insert_ne; [by rewrite lookup_insert_eq|].
    intros Heq. apply Hne. symmetry. by apply flatten_inj.
  - by rewrite lookup_insert_eq.
  - clear. induction f as [|x f IH]; simpl; [done|]. by rewrite IH.
Qed.

Lemma X25_flat_backups_distinct_witness :
  ∃ w', (createBackup "src/a/index.ts";; createBackup "src/b/index.ts")
          {| files := files Samples.twoIndexFiles; backupDir := Some ∅; now := 0 |}
        = (Ok tt, w')
        ∧ files w' = files Samples.twoIndexFiles
        ∧ (backupDir w' ≫= (fun d => d !! flatten "src/a/index.ts")) = Some "a"
        ∧ (backupDir w' ≫= (fun d => d !! flatten "src/b/index.ts")) = Some "b"
        ∧ String.length (flatten "src/a/index.ts") = String.length "src/a/index.ts".
Proof.
  apply (X25_flat_backups_distinct "src/a/index.ts" "src/b/index.ts" "a" "b"
           {| files := files Samples.twoIndexFiles; backupDir := Some ∅; now := 0 |}
           ∅); try (vm_compute; reflexivity).
  discriminate.
Defined.

End FlatBackups.

(** ** What a failed phase reports *)

Section LastAttempt.
Import Runtime Orchestrator Reports.

Lemma attemptPhase_report (phase : ExecutionPhase) (attempt : Z) (s : RunState) :
  fails (fst (executeFunction phase (world s))) = true →
  attemptPhase phase attempt s =
    (Ok (if attempt =? retries phase + 1
         then Some (reportOf phase (fst (executeFunction phase (world s))))
         else None),
     {| world := snd (executeFunction phase (world s));
        executionHistory := executionHistory s;
        console := console s
                   ++ [LogAttempt (name phase) attempt (retries phase + 1)] |}).
Proof.
  intros Hf. unfold attemptPhase, executeWithTimeout, messageOf, log, setWorld.
  unfold_monad. simpl.
  destruct (executeFunction phase (world s)) as [o w]. simpl in *.
  destruct o as [r|msg|v|]; simpl in *.
  - apply negb_true_iff in Hf. rewrite Hf.
    by destruct (attempt =? retries phase + 1).
  - by destruct (attempt =? retries phase + 1).
  - discriminate Hf.
  - by destruct (attempt =? retries phase + 1).
Qed.

Lemma retryLoop_report (phase : ExecutionPhase) :
  (∀ w, fails (fst (executeFunction phase w)) = true) →
  ∀ (turns : nat) (attempt : Z) (s : RunState),
    attempt + Z.of_nat turns = retries phase + 1 →
    ∃ s',
      retryLoop phase (S turns) attempt s
      = (Ok (reportOf phase
               (fst (executeFunction phase
                       (Nat.iter turns (fun w => snd (executeFunction phase w))
                                 (world s))))), s').
Proof.
  intros Hf. induction turns as [|turns IH]; intros attempt s Hn.
  - cbn [retryLoop]. unfold_monad. rewrite (attemptPhase_report phase attempt s (Hf _)).
    replace (attempt =? retries phase + 1) with true by (symmetry; apply Z.eqb_eq; lia).
    by eexists.
  - cbn [retryLoop]. unfold_monad.
    rewrite (attemptPhase_report phase attempt s (Hf _)).
    replace (attempt =? retries phase + 1) with false by (symmetry; apply Z.eqb_neq; lia).
    edestruct (IH (attempt + 1)) as (s' & Hrun); [lia|].
    cbn [retryLoop] in Hrun. unfold_monad. rewrite Hrun.
    exists s'. cbn [world]. by rewrite Nat.iter_succ_r.
Qed.

(** X26. When every call of a phase fails, the result of the phase is that
    of the last call alone: the fixer's own failure result if it returned
    one, else "<name> failed: " followed by the message of the error, which
    for a call that never settles is "Operation timed out after <timeout>ms"
    with the phase's timeout in seconds as the number.  What the earlier
    calls failed with is not reported. *)
Theorem X26_last_attempt_reported (phase : ExecutionPhase) (s : RunState) :
  0 <= retries phase →
  (∀ w, fails (fst (executeFunction phase w)) = true) →
  ∃ s',
    executePhaseWithRetry phase s
    = (Ok (reportOf phase
             (fst (executeFunction phase
                     (Nat.iter (Z.to_nat (retries phase))
                               (fun w => snd (executeFunction phase w))
                               (world s))))), s').
Proof.
  intros Hr Hf. unfold executePhaseWithRetry.
  replace (Z.to_nat (retries phase + 1)) with (S (Z.to_nat (retries phase))) by lia.
  apply retryLoop_report; [done|lia].
Qed.

Lemma X26_last_attempt_reported_witness :
  ∃ s',
    executePhaseWithRetry Samples.stuckPhase (initialState Fixtures.project)
    = (Ok (plainResult false "Type Fixes failed: Operation timed out after 240ms"),
       s').
Proof.
  apply (X26_last_attempt_reported Samples.stuckPhase (initialState Fixtures.project)).
  - simpl. lia.
  - intros w. reflexivity.
Defined.

End LastAttempt.
